(** * FlowSquire: the rule matching and action execution pipeline

    A shallow embedding of [src/core/rule-engine.ts] and of the template
    expander of [src/config/index.ts], together with the facts about them
    that the specification states.

    Conventions of the embedding.
    - A JavaScript string is a [list ascii]; literals are read through the
      coercion below.  Case conversion and white space are those of the
      ASCII range.
    - [path] is Node's POSIX flavour ([path.sep] is a slash).
    - The file system, the configuration file and the external Ghostscript
      process are explicit state ([World]) threaded through the
      asynchronous functions; a rejected promise is the [Err] result. *)

From stdpp Require Import gmap strings list pretty.
From Stdlib Require Import Ascii ZArith QArith Lia DecimalString DecimalNat Permutation Sorted.

Open Scope string_scope.
Open Scope list_scope.

Abbreviation str := (list ascii).
Coercion String.list_ascii_of_string : string >-> list.

Definition strs (l : list string) : list str := map String.list_ascii_of_string l.

(** ** JavaScript string primitives *)
Module Js.

Definition chr_eqb (a b : ascii) : bool := Ascii.eqb a b.

Definition lowerChar (c : ascii) : ascii :=
  let n := nat_of_ascii c in
  if (65 <=? n)%nat && (n <=? 90)%nat then ascii_of_nat (n + 32) else c.

(** [String.prototype.toLowerCase] *)
Definition toLowerCase (s : str) : str := map lowerChar s.

(** [===] on strings *)
Definition str_eqb (a b : str) : bool := bool_decide (a = b).

(** [String.prototype.startsWith] *)
Fixpoint startsWith (s p : str) {struct p} : bool :=
  match p, s with
  | [], _ => true
  | _ :: _, [] => false
  | x :: p', y :: s' => chr_eqb x y && startsWith s' p'
  end.

(** [String.prototype.endsWith] *)
Definition endsWith (s p : str) : bool := startsWith (rev s) (rev p).

(** [String.prototype.includes] *)
Fixpoint includes (s sub : str) : bool :=
  startsWith s sub ||
  match s with
  | [] => false
  | _ :: t => includes t sub
  end.

(** The replacement text of [replace]/[replaceAll] for a string pattern
    (ECMAScript GetSubstitution with no captures): [$$] is a dollar,
    [$&] the match, [$`] the text before it, [$'] the text after it; any
    other dollar stands for itself. *)
Fixpoint getSubstitution (matched before after rep : str) : str :=
  match rep with
  | [] => []
  | c :: r =>
      if chr_eqb c "$" then
        match r with
        | d :: r' =>
            if chr_eqb d "$" then "$"%char :: getSubstitution matched before after r'
            else if chr_eqb d "&" then matched ++ getSubstitution matched before after r'
            else if chr_eqb d "`" then before ++ getSubstitution matched before after r'
            else if chr_eqb d "'" then after ++ getSubstitution matched before after r'
            else c :: getSubstitution matched before after r
        | [] => [c]
        end
      else c :: getSubstitution matched before after r
  end.

(** [String.prototype.replaceAll] with a string pattern: the occurrences
    are found from left to right and do not overlap.  [seen] is the text
    already passed, reversed; [skip] counts the characters of the current
    occurrence that are still to be passed over. *)
Fixpoint replaceAll_from (pat rep : str) (seen : str) (skip : nat) (s : str) : str :=
  match skip with
  | S k =>
      match s with
      | [] => []
      | c :: t => replaceAll_from pat rep (c :: seen) k t
      end
  | O =>
      if startsWith s pat then
        getSubstitution pat (rev seen) (drop (length pat) s) rep ++
        match s with
        | [] => []
        | c :: t =>
            match pat with
            | [] => c :: replaceAll_from pat rep (c :: seen) 0 t
            | _ :: pat' => replaceAll_from pat rep (c :: seen) (length pat') t
            end
        end
      else
        match s with
        | [] => []
        | c :: t => c :: replaceAll_from pat rep (c :: seen) 0 t
        end
  end.

Definition replaceAll (s pat rep : str) : str := replaceAll_from pat rep [] 0 s.

(** [String.prototype.padStart(n, "0")] *)
Definition padStart0 (n : nat) (s : str) : str :=
  replicate (n - length s) "0"%char ++ s.

(** [String(n)] and [n.toString()] for a natural number *)
Definition natToString (n : nat) : str :=
  String.list_ascii_of_string (NilEmpty.string_of_uint (Nat.to_uint n)).

(** The white space of [\s] and of [trim], in the ASCII range. *)
Definition isSpace (c : ascii) : bool :=
  let n := nat_of_ascii c in
  ((9 <=? n)%nat && (n <=? 13)%nat) || (n =? 32)%nat.

Fixpoint dropSpaces (s : str) : str :=
  match s with
  | c :: t => if isSpace c then dropSpaces t else s
  | [] => []
  end.

(** [String.prototype.trim] *)
Definition trim (s : str) : str := rev (dropSpaces (rev (dropSpaces s))).

(** [s.replace(/\s+/g, " ")]: [inRun] tells that the previous character
    was white space, already replaced. *)
Fixpoint collapseSpaces (inRun : bool) (s : str) : str :=
  match s with
  | [] => []
  | c :: t =>
      if isSpace c then
        if inRun then collapseSpaces true t else " "%char :: collapseSpaces true t
      else c :: collapseSpaces false t
  end.

Definition isDigit (c : ascii) : bool :=
  let n := nat_of_ascii c in (48 <=? n)%nat && (n <=? 57)%nat.

(** [Array.prototype.join] *)
Fixpoint joinWith (sep : str) (l : list str) : str :=
  match l with
  | [] => []
  | [x] => x
  | x :: rest => x ++ sep ++ joinWith sep rest
  end.

End Js.

(** ** Node's [path] module, POSIX flavour *)
Module Path.

Definition isSlash (c : ascii) : bool := Js.chr_eqb c "/".
Definition isDot (c : ascii) : bool := Js.chr_eqb c ".".

Fixpoint dropWhile (f : ascii -> bool) (s : str) : str :=
  match s with
  | c :: t => if f c then dropWhile f t else s
  | [] => []
  end.

Fixpoint takeWhile (f : ascii -> bool) (s : str) : str :=
  match s with
  | c :: t => if f c then c :: takeWhile f t else []
  | [] => []
  end.

(** The last component of a path: trailing separators are ignored and the
    component ends at the separator before it. *)
Definition lastComponent (p : str) : str :=
  rev (takeWhile (fun c => negb (isSlash c)) (dropWhile isSlash (rev p))).

(** [path.basename(p)] *)
Definition basename (p : str) : str := lastComponent p.

(** [path.extname(p)]: from the last dot of the last component to its
    end; empty when there is no dot, when the dot is the first character
    of the component, or when the component is [..]. *)
Definition extname (p : str) : str :=
  let rc := rev (lastComponent p) in
  let tail := takeWhile (fun c => negb (isDot c)) rc in
  match dropWhile (fun c => negb (isDot c)) rc with
  | [] => []
  | _ :: [] => []
  | dot :: _ :: _ =>
      if Js.str_eqb (lastComponent p) ".." then [] else dot :: rev tail
  end.

(** [path.basename(p, ext)] *)
Definition basename2 (p ext : str) : str :=
  match ext with
  | [] => basename p
  | _ :: _ =>
      if (length p <? length ext)%nat then basename p
      else if Js.str_eqb ext p then []
      else
        let c := lastComponent p in
        if Js.endsWith c ext then
          if Js.str_eqb c ext then c else take (length c - length ext) c
        else if Js.endsWith ext c then
          (* the whole component matched the end of [ext]: Node returns
             the path from the start of the component on *)
          c ++ rev (takeWhile isSlash (rev p))
        else c
  end.

(** [path.dirname(p)] *)
Definition dirname (p : str) : str :=
  match p with
  | [] => "."
  | c0 :: rest =>
      let r1 := dropWhile isSlash (rev rest) in
      match dropWhile (fun c => negb (isSlash c)) r1 with
      | [] => if isSlash c0 then "/" else "."
      | _ :: r3 =>
          match r3 with
          | [] => if isSlash c0 then "//" else [c0]
          | _ :: _ => c0 :: rev r3
          end
      end
  end.

(** [s.split("/")] *)
Fixpoint splitSlash (s : str) : list str :=
  match s with
  | [] => [[]]
  | c :: t =>
      if isSlash c then [] :: splitSlash t
      else match splitSlash t with
           | seg :: segs => (c :: seg) :: segs
           | [] => [[c]]
           end
  end.

(** [normalizeString]: the segments kept so far are a stack, last one
    first.  Empty and [.] segments are dropped; [..] removes the segment
    before it, or is kept when nothing can be removed and the path is
    relative. *)
Fixpoint normSegs (allowAboveRoot : bool) (stack : list str) (segs : list str) : list str :=
  match segs with
  | [] => stack
  | seg :: rest =>
      if Js.str_eqb seg "" || Js.str_eqb seg "." then normSegs allowAboveRoot stack rest
      else if Js.str_eqb seg ".." then
        match stack with
        | top :: below =>
            if Js.str_eqb top ".."
            then normSegs allowAboveRoot (if allowAboveRoot then seg :: stack else stack) rest
            else normSegs allowAboveRoot below rest
        | [] => normSegs allowAboveRoot (if allowAboveRoot then [seg] else []) rest
        end
      else normSegs allowAboveRoot (seg :: stack) rest
  end.

Definition isAbsolute (p : str) : bool :=
  match p with c :: _ => isSlash c | [] => false end.

Definition hasTrailingSlash (p : str) : bool :=
  match rev p with c :: _ => isSlash c | [] => false end.

(** [path.normalize(p)] *)
Definition normalize (p : str) : str :=
  match p with
  | [] => "."
  | _ :: _ =>
      let abs := isAbsolute p in
      let body := Js.joinWith "/" (rev (normSegs (negb abs) [] (splitSlash p))) in
      match body with
      | [] => if abs then "/" else if hasTrailingSlash p then "./" else "."
      | _ :: _ =>
          (if abs then "/" else "") ++ body ++ (if hasTrailingSlash p then "/" else "")
      end
  end.

(** [path.join(a, b)]: the arguments that are not empty, with a slash
    between them, normalized. *)
Definition join (a b : str) : str :=
  match a, b with
  | [], [] => "."
  | [], _ :: _ => normalize b
  | _ :: _, [] => normalize a
  | _ :: _, _ :: _ => normalize (a ++ "/" ++ b)
  end.

End Path.

(** ** Data model ([src/types/index.ts]) *)

(** A JavaScript number, as far as the size condition compares it. *)
Inductive jsnum :=
  | NaN
  | Infinity (negative : bool)
  | Finite (q : Q).

(** The condition types; [T_size] is the type written ['size']. *)
Inductive ConditionType :=
  | T_extension | T_path | T_size | T_name_pattern | T_name_contains
  | T_name_starts_with | T_name_ends_with | T_size_greater_than_mb.

Inductive Operator :=
  | equals | contains | matches | greater_than | less_than | op_in.

(** [string | number | string[]] *)
Inductive Value :=
  | VStr (s : str)
  | VNum (n : jsnum)
  | VList (l : list str).

Record Condition := {
  cond_type : ConditionType;
  cond_operator : Operator;
  cond_value : Value;
}.

Inductive ActionType := move | copy | rename | compress.

Inductive Quality := low | medium | high.

Record CompressConfig := {
  quality : Quality;
  archiveOriginal : option bool;
}.

Record ActionConfig := {
  destination : str;
  pattern : option str;
  createDirs : option bool;
  compress_config : option CompressConfig;
}.

Record Action := {
  act_type : ActionType;
  act_config : ActionConfig;
}.

Inductive TriggerType := file_created | file_modified | screenshot | manual.

Record Trigger := {
  trig_type : TriggerType;
  trig_folder : option str;
}.

Record Rule := {
  id : str;
  name : str;
  enabled : bool;
  priority : Z;
  tags : list str;
  trigger : Trigger;
  conditions : list Condition;
  actions : list Action;
}.

Inductive Status := pending | success | failed.

Record ActionResult := {
  res_action : Action;
  res_status : Status;
  res_sourcePath : option str;
  res_destinationPath : option str;
  res_error : option str;
}.

(** The optional [{ appName?, domain? }] argument *)
Record Metadata := {
  appName : option str;
  domain : option str;
}.

(** ** Configuration ([src/config/index.ts]) *)

Record FlowSquireConfig := {
  paths : list (str * str);
  downloadsMode : str;
  screenshotMode : str;
  version : str;
}.

(** What [JSON.parse] gives for the configuration file: any part may be
    missing. *)
Record ConfigDocument := {
  doc_paths : list (str * str);
  doc_downloadsMode : option str;
  doc_screenshotMode : option str;
  doc_version : option str;
}.

(** ** The world outside the process *)

Record Stats := {
  isDirectory : bool;
  st_size : N;
}.

(** The file system is a finite map from paths to what is there.  Paths
    are compared as they are written, an entry stands for itself alone
    (moving a directory moves its entry), and the current directory and
    the root are always there. *)
Record World := {
  (** what exists in the file system, by path *)
  entries : gmap str Stats;
  (** the parsed content of the configuration file, when it parses *)
  configDocument : option ConfigDocument;
  (** the external processes started so far: command and arguments *)
  spawned : list (str * list str);
}.

Record JsError := {
  code : str;
  message : str;
}.

Inductive result (A : Type) :=
  | Ok (a : A)
  | Err (e : JsError).
Arguments Ok {A} a.
Arguments Err {A} e.

(** How a run of the external compression tool ends: the [error] event of
    a process that could not be started, or the [close] event with the
    exit code ([None] when a signal ended it), what it wrote on its
    diagnostic stream, and the size of the file it produced. *)
Inductive GsOutcome :=
  | SpawnFailed (msg : str)
  | Closed (exitCode : option Z) (stderr : str) (outSize : N).

(** [new Date()], read through the local-time getters *)
Record DateTime := {
  getFullYear : nat;
  getMonth : nat;
  getDate : nat;
  getHours : nat;
  getMinutes : nat;
  getSeconds : nat;
}.

(** What the embedding takes from the JavaScript engine, the operating
    system and the external tool. *)
Class Host := {
  (** [String(n)] for a number *)
  numberToString : jsnum -> str;
  (** [Number(s)] *)
  toNumber : str -> jsnum;
  (** [new RegExp(p, "i").test(s)]; [None] when the pattern is rejected *)
  regexTest : str -> str -> option bool;
  (** [os.platform()] and [os.homedir()] *)
  platform : str;
  homedir : str;
  (** the clock as read by the n-th action of a chain *)
  clock : nat -> DateTime;
  (** the behaviour of the compression tool on a command line; the tool
      is taken to end *)
  ghostscript : str -> list str -> World -> GsOutcome;
  (** the length of [JSON.stringify(config, null, 2)] *)
  jsonLength : FlowSquireConfig -> N;
}.

(** ** Asynchronous code: state and rejection *)

Definition M (A : Type) : Type := World -> World * result A.

Definition ret {A} (a : A) : M A := fun w => (w, Ok a).
Definition throw {A} (e : JsError) : M A := fun w => (w, Err e).
Definition bind {A B} (m : M A) (k : A -> M B) : M B :=
  fun w => match m w with
           | (w', Ok a) => k a w'
           | (w', Err e) => (w', Err e)
           end.
(** [try { m } catch (e) { h e }] *)
Definition try_catch {A} (m : M A) (h : JsError -> M A) : M A :=
  fun w => match m w with
           | (w', Ok a) => (w', Ok a)
           | (w', Err e) => h e w'
           end.

Notation "x <- m ;; k" := (bind m (fun x => k))
  (at level 100, m at next level, right associativity).
Notation "m ;;; k" := (bind m (fun _ => k))
  (at level 100, right associativity).

Definition newError (msg : str) : JsError := {| code := ""; message := msg |}.

(** ** File system primitives ([fs/promises]) *)
Module Fs.

Definition dirStats : Stats := {| isDirectory := true; st_size := 0 |}.
Definition fileStats (bytes : N) : Stats := {| isDirectory := false; st_size := bytes |}.

(** The current directory and the root always exist. *)
Definition lookupPath (w : World) (p : str) : option Stats :=
  if Js.str_eqb p "." || Js.str_eqb p "/" then Some dirStats else entries w !! p.

Definition isDir (w : World) (p : str) : bool :=
  match lookupPath w p with Some st => isDirectory st | None => false end.

Definition isFile (w : World) (p : str) : bool :=
  match lookupPath w p with Some st => negb (isDirectory st) | None => false end.

Definition exists_ (w : World) (p : str) : bool :=
  match lookupPath w p with Some _ => true | None => false end.

Definition errno (c : str) (text : str) (syscall : str) (p : str) : JsError :=
  {| code := c; message := c ++ ": " ++ text ++ ", " ++ syscall ++ " '" ++ p ++ "'" |}.

Definition ENOENT := errno "ENOENT" "no such file or directory".
Definition EEXIST := errno "EEXIST" "file already exists".
Definition ENOTDIR := errno "ENOTDIR" "not a directory".
Definition EISDIR := errno "EISDIR" "illegal operation on a directory".

Definition setEntries (w : World) (e : gmap str Stats) : World :=
  {| entries := e; configDocument := configDocument w; spawned := spawned w |}.

(** [fs.access(p)] *)
Definition access (p : str) : M unit :=
  fun w => if exists_ w p then (w, Ok tt) else (w, Err (ENOENT "access" p)).

(** The path and the directories above it, up to the root or the
    current directory. *)
Fixpoint ancestors (fuel : nat) (p : str) : list str :=
  match fuel with
  | O => []
  | S k =>
      if Js.str_eqb p "." || Js.str_eqb p "/" then []
      else p :: ancestors k (Path.dirname p)
  end.

(** The entries with a directory at each path of [chain] where nothing
    was *)
Definition addDirs (chain : list str) (e : gmap str Stats) : gmap str Stats :=
  foldr (fun d e => match e !! d with
                    | Some _ => e
                    | None => <[d := dirStats]> e
                    end) e chain.

(** [fs.mkdir(p, { recursive: true })]: fails when a regular file is in
    the way, at the path or above it. *)
Definition mkdir (p : str) : M unit :=
  fun w =>
    let chain := ancestors (S (length p)) p in
    if isFile w p then (w, Err (EEXIST "mkdir" p))
    else if existsb (isFile w) chain then (w, Err (ENOTDIR "mkdir" p))
    else (setEntries w (addDirs chain (entries w)), Ok tt).

Definition twoPaths (a b : str) : str := a ++ "' -> '" ++ b.

(** [fs.rename(a, b)] *)
Definition rename (a b : str) : M unit :=
  fun w =>
    match entries w !! a with
    | None => (w, Err (ENOENT "rename" (twoPaths a b)))
    | Some st =>
        if negb (isDir w (Path.dirname b)) then (w, Err (ENOENT "rename" (twoPaths a b)))
        else if negb (isDirectory st) && isDir w b then (w, Err (EISDIR "rename" (twoPaths a b)))
        else if isDirectory st && isFile w b then (w, Err (ENOTDIR "rename" (twoPaths a b)))
        else (setEntries w (<[b := st]> (delete a (entries w))), Ok tt)
    end.

(** [fs.copyFile(a, b)] *)
Definition copyFile (a b : str) : M unit :=
  fun w =>
    match lookupPath w a with
    | None => (w, Err (ENOENT "copyfile" (twoPaths a b)))
    | Some st =>
        if isDirectory st then (w, Err (EISDIR "copyfile" (twoPaths a b)))
        else if negb (isDir w (Path.dirname b)) then (w, Err (ENOENT "copyfile" (twoPaths a b)))
        else if isDir w b then (w, Err (EISDIR "copyfile" (twoPaths a b)))
        else (setEntries w (<[b := st]> (entries w)), Ok tt)
    end.

(** [fs.statSync(p)], which throws when nothing is there *)
Definition statSync (w : World) (p : str) : option Stats := lookupPath w p.

End Fs.

(** ** The rule engine ([src/core/rule-engine.ts]) *)
Section RuleEngine.
Context `{Host}.

Definition getGhostscriptCommand : str :=
  if Js.str_eqb platform "win32" then "gswin64c" else "gs".

(** [String(condition.value)] *)
Definition valueToString (v : Value) : str :=
  match v with
  | VStr s => s
  | VNum n => numberToString n
  | VList l => Js.joinWith "," l
  end.

Definition matchValue (value : str) (condition : Condition) : bool :=
  let testValue := Js.toLowerCase value in
  match cond_operator condition with
  | equals =>
      Js.str_eqb testValue (Js.toLowerCase (valueToString (cond_value condition)))
  | contains =>
      Js.includes testValue (Js.toLowerCase (valueToString (cond_value condition)))
  | matches =>
      match regexTest (valueToString (cond_value condition)) testValue with
      | Some b => b
      | None => false
      end
  | op_in =>
      match cond_value condition with
      | VList l => existsb (fun v => Js.str_eqb (Js.toLowerCase v) testValue) l
      | _ => false
      end
  | _ => false
  end.

(** [stats.size / (1024 * 1024) > n] *)
Definition sizeMBGreaterThan (bytes : N) (n : jsnum) : bool :=
  match n with
  | NaN => false
  | Infinity negative => negative
  | Finite q => negb (Qle_bool (inject_Z (Z.of_N bytes) / inject_Z (1024 * 1024)) q)
  end.

Definition evaluateCondition (w : World) (condition : Condition) (filePath : str) : bool :=
  let fileName := Path.basename filePath in
  let fileNameWithoutExt := Path.basename2 filePath (Path.extname filePath) in
  let ext := Js.toLowerCase (Path.extname filePath) in
  let conditionValue := Js.toLowerCase (valueToString (cond_value condition)) in
  match cond_type condition with
  | T_extension =>
      let cleanExt := if Js.startsWith ext "." then drop 1 ext else ext in
      matchValue cleanExt condition
  | T_name_pattern => matchValue fileName condition
  | T_name_contains => Js.includes (Js.toLowerCase fileNameWithoutExt) conditionValue
  | T_name_starts_with => Js.startsWith (Js.toLowerCase fileNameWithoutExt) conditionValue
  | T_name_ends_with => Js.endsWith (Js.toLowerCase fileNameWithoutExt) conditionValue
  | T_size_greater_than_mb =>
      match Fs.statSync w filePath with
      | Some stats => sizeMBGreaterThan (st_size stats) (toNumber conditionValue)
      | None => false
      end
  | T_path => matchValue filePath condition
  | T_size => false
  end.

Definition evaluateConditions (w : World) (conditions : list Condition) (filePath : str) : bool :=
  forallb (fun condition => evaluateCondition w condition filePath) conditions.

(** [Array.prototype.sort(compare)]: a stable sort; [a] stays before [b]
    unless [compare a b] is positive. *)
Fixpoint Array_insert {A} (compare : A -> A -> Z) (x : A) (l : list A) : list A :=
  match l with
  | [] => [x]
  | y :: l' => if (0 <? compare x y)%Z then y :: Array_insert compare x l' else x :: l
  end.

Definition Array_sort {A} (compare : A -> A -> Z) (l : list A) : list A :=
  foldr (Array_insert compare) [] l.

(** [sort] reorders the array it is called on, so the call has two
    outcomes: the array it returns, and the content of the caller's
    [rules] array afterwards. *)
Definition findMatchingRules (w : World) (rules : list Rule) (filePath : str)
  : list Rule * list Rule :=
  let sorted := Array_sort (fun a b => priority b - priority a)%Z rules in
  (List.filter (fun rule => evaluateConditions w (conditions rule) filePath) sorted, sorted).

Definition detectPdfCategory (fileName : str) : str :=
  let lowerFileName := Js.toLowerCase fileName in
  if Js.includes lowerFileName "invoice" then "Invoices"
  else if Js.includes lowerFileName "bill" then "Invoices"
  else if Js.includes lowerFileName "payment" then "Invoices"
  else if Js.includes lowerFileName "receipt" then "Invoices"
  else if Js.includes lowerFileName "tax" then "Invoices"
  else if Js.includes lowerFileName "bank" then "Finance"
  else if Js.includes lowerFileName "statement" then "Finance"
  else if Js.includes lowerFileName "transaction" then "Finance"
  else if Js.includes lowerFileName "finance" then "Finance"
  else if Js.includes lowerFileName "credit" then "Finance"
  else if Js.includes lowerFileName "debit" then "Finance"
  else if Js.includes lowerFileName "notes" then "Study"
  else if Js.includes lowerFileName "note" then "Study"
  else if Js.includes lowerFileName "lecture" then "Study"
  else if Js.includes lowerFileName "study" then "Study"
  else if Js.includes lowerFileName "class" then "Study"
  else if Js.includes lowerFileName "course" then "Study"
  else if Js.includes lowerFileName "assignment" then "Study"
  else if Js.includes lowerFileName "homework" then "Study"
  else if Js.includes lowerFileName "exam" then "Study"
  else "Unsorted".

(** *** Configuration loading and template variables *)

Definition DB_DIR : str := ".flowsquire".
Definition CONFIG_FILE : str := Path.join DB_DIR "config.json".

Definition DEFAULT_CONFIG : FlowSquireConfig := {|
  paths := [
    ("downloads" : str, Path.join homedir "Downloads");
    ("documents" : str, Path.join homedir "Documents");
    ("desktop" : str, Path.join homedir "Desktop");
    ("pictures" : str, Path.join homedir "Pictures");
    ("screenshots" : str, Path.join (Path.join homedir "Downloads") "Screenshots");
    ("videos" : str, Path.join homedir "Movies");
    ("music" : str, Path.join homedir "Music");
    ("home" : str, homedir)
  ];
  downloadsMode := "nested";
  screenshotMode := "metadata";
  version := "1.0.0";
|}.

Definition ensureDbDir : M unit :=
  try_catch (Fs.mkdir DB_DIR) (fun _ => ret tt).

Definition lookupKey (k : str) (l : list (str * str)) : option str :=
  snd <$> List.find (fun kv => Js.str_eqb (fst kv) k) l.

(** [{ ...a, ...b }] on string maps: the keys of [a] keep their place and
    take the value [b] gives them, the new keys of [b] follow. *)
Definition spread (a b : list (str * str)) : list (str * str) :=
  map (fun kv => (fst kv, default (snd kv) (lookupKey (fst kv) b))) a ++
  List.filter (fun kv => negb (bool_decide (is_Some (lookupKey (fst kv) a)))) b.

Definition mergeWithDefaults (parsed : ConfigDocument) : FlowSquireConfig := {|
  paths := spread (paths DEFAULT_CONFIG) (doc_paths parsed);
  downloadsMode := default (downloadsMode DEFAULT_CONFIG) (doc_downloadsMode parsed);
  screenshotMode := default (screenshotMode DEFAULT_CONFIG) (doc_screenshotMode parsed);
  version := default (version DEFAULT_CONFIG) (doc_version parsed);
|}.

Definition documentOf (c : FlowSquireConfig) : ConfigDocument := {|
  doc_paths := paths c;
  doc_downloadsMode := Some (downloadsMode c);
  doc_screenshotMode := Some (screenshotMode c);
  doc_version := Some (version c);
|}.

(** [JSON.parse(await fs.readFile(CONFIG_FILE, "utf-8"))] *)
Definition readConfigFile : M ConfigDocument :=
  fun w =>
    if Fs.isFile w CONFIG_FILE then
      match configDocument w with
      | Some d => (w, Ok d)
      | None => (w, Err {| code := ""; message := "Unexpected end of JSON input" |})
      end
    else (w, Err (Fs.ENOENT "open" CONFIG_FILE)).

(** [fs.writeFile(CONFIG_FILE, JSON.stringify(config, null, 2))] *)
Definition writeConfigFile (c : FlowSquireConfig) : M unit :=
  fun w =>
    if negb (Fs.isDir w (Path.dirname CONFIG_FILE)) then (w, Err (Fs.ENOENT "open" CONFIG_FILE))
    else if Fs.isDir w CONFIG_FILE then (w, Err (Fs.EISDIR "open" CONFIG_FILE))
    else ({| entries := <[CONFIG_FILE := Fs.fileStats (jsonLength c)]> (entries w);
             configDocument := Some (documentOf c);
             spawned := spawned w |}, Ok tt).

Definition saveConfig (config : FlowSquireConfig) : M unit :=
  ensureDbDir ;;; writeConfigFile config.

Definition loadConfig : M FlowSquireConfig :=
  ensureDbDir ;;;
  try_catch
    (parsed <- readConfigFile ;; ret (mergeWithDefaults parsed))
    (fun _ => saveConfig DEFAULT_CONFIG ;;; ret DEFAULT_CONFIG).

(** The characters that the first replacement of [sanitizeForPath]
    turns into a dash: angle brackets, colon, double quote, both
    slashes, bar, question mark and star. *)
Definition illegalInPath (c : ascii) : bool :=
  existsb (Js.chr_eqb c) ("<>:/\|?*" ++ ["034"%char]).

Definition sanitizeForPath (input : str) : str :=
  take 50 (Js.trim (Js.collapseSpaces false
    (map (fun c => if illegalInPath c then "-"%char else c) input))).

(** A string in a condition: [undefined] and the empty string are false. *)
Definition truthy (o : option str) : option str :=
  match o with
  | Some (c :: s) => Some (c :: s)
  | _ => None
  end.

Definition replaceTemplateVariables (template : str) (config : FlowSquireConfig)
    (metadata : option Metadata) : str :=
  let result :=
    foldl (fun result kv => Js.replaceAll result ("{" ++ fst kv ++ "}") (snd kv))
          template (paths config) in
  match metadata with
  | Some md =>
      let result := Js.replaceAll result "{app}"
        (match truthy (appName md) with Some a => sanitizeForPath a | None => "Unknown" end) in
      Js.replaceAll result "{domain}"
        (match truthy (domain md) with Some d => sanitizeForPath d | None => "General" end)
  | None => result
  end.

End RuleEngine.

(** ** Destination resolution and action execution *)
Section Executor.
Context `{Host}.

Definition monthNames : list str :=
  strs ["January"; "February"; "March"; "April"; "May"; "June";
        "July"; "August"; "September"; "October"; "November"; "December"].

(** The placeholder table of [applyPattern], in the order of
    [Object.entries]. *)
Definition placeholders (sourcePath : str) (now : DateTime) : list (str * str) :=
  let fileNameWithoutExt := Path.basename2 sourcePath (Path.extname sourcePath) in
  let ext := Path.extname sourcePath in
  [ ("{filename}" : str, fileNameWithoutExt);
    ("{ext}" : str, ext);
    ("{YYYY}" : str, Js.natToString (getFullYear now));
    ("{MM}" : str, Js.padStart0 2 (Js.natToString (getMonth now + 1)));
    ("{Month}" : str, default ("undefined" : str) (monthNames !! getMonth now));
    ("{DD}" : str, Js.padStart0 2 (Js.natToString (getDate now)));
    ("{HH}" : str, Js.padStart0 2 (Js.natToString (getHours now)));
    ("{mm}" : str, Js.padStart0 2 (Js.natToString (getMinutes now)));
    ("{ss}" : str, Js.padStart0 2 (Js.natToString (getSeconds now))) ].

(** The pattern with its placeholders replaced, one after the other. *)
Definition expandPattern (pattern sourcePath : str) (now : DateTime) : str :=
  foldl (fun result kv => Js.replaceAll result (fst kv) (snd kv))
        pattern (placeholders sourcePath now).

Definition applyPattern (destination pattern sourcePath : str)
    (metadata : option Metadata) (now : DateTime) : str :=
  let ext := Path.extname sourcePath in
  let pathParts := Path.splitSlash destination in
  let destHasFilename :=
    (length pathParts =? 1)%nat && (0 <? length (Path.extname destination))%nat in
  let destDir := if destHasFilename then Path.dirname destination else destination in
  let result := expandPattern pattern sourcePath now in
  let result := if negb (Js.endsWith result ext) then result ++ ext else result in
  Path.join destDir result.

(** The candidate that [resolveCollision] probes at a counter value *)
Definition collisionCandidate (filePath : str) (counter : nat) : str :=
  let dir := Path.dirname filePath in
  let ext := Path.extname filePath in
  let base := Path.basename2 filePath ext in
  Path.join dir (base ++ "-" ++ Js.natToString counter ++ ext).

(** The [while (true)] loop of [resolveCollision]; [None] when [fuel]
    iterations did not reach the [break]. *)
Fixpoint resolveCollision_loop (fuel : nat) (w : World) (filePath : str) (counter : nat)
  : option str :=
  match fuel with
  | O => None
  | S fuel' =>
      let newPath := collisionCandidate filePath counter in
      if Fs.exists_ w newPath then resolveCollision_loop fuel' w filePath (S counter)
      else Some newPath
  end.

(** The loop ends within as many iterations as there are entries in the
    file system, plus one (see [resolveCollision_loop_total]). *)
Definition resolveCollision (filePath : str) (dryRun : bool) : M str :=
  if dryRun then ret filePath
  else
    try_catch
      (Fs.access filePath ;;;
       fun w =>
         match resolveCollision_loop (S (size (entries w))) w filePath 1 with
         | Some newPath => (w, Ok newPath)
         | None => (w, Ok filePath)
         end)
      (fun _ => ret filePath).

Definition showExitCode (c : option Z) : str :=
  match c with
  | Some z => String.list_ascii_of_string (pretty z)
  | None => "null"
  end.

(** The argument list of the Ghostscript command *)
Definition gsArgs (pdfSettings sourcePath destinationPath : str) : list str :=
  [ "-sDEVICE=pdfwrite" : str;
    "-dCompatibilityLevel=1.4" : str;
    "-dPDFSETTINGS=" ++ pdfSettings;
    "-dNOPAUSE" : str;
    "-dQUIET" : str;
    "-dBATCH" : str;
    "-sOutputFile=" ++ destinationPath;
    sourcePath ].

(** [spawn(gsCommand, args)] followed by the wait for its [close] or
    [error] event.  The tool is taken to end, and to leave no output
    file behind when it fails. *)
Definition runGhostscript (pdfSettings sourcePath destinationPath : str) : M unit :=
  fun w =>
    let gsCommand := getGhostscriptCommand in
    let args := gsArgs pdfSettings sourcePath destinationPath in
    let started := spawned w ++ [(gsCommand, args)] in
    match ghostscript gsCommand args w with
    | SpawnFailed msg =>
        ({| entries := entries w; configDocument := configDocument w; spawned := started |},
         Err (newError ("Failed to spawn Ghostscript: " ++ msg ++
                        ". Please install Ghostscript (brew install ghostscript)")))
    | Closed exitCode errorOutput outSize =>
        if bool_decide (exitCode = Some 0%Z) then
          ({| entries := <[destinationPath := Fs.fileStats outSize]> (entries w);
              configDocument := configDocument w; spawned := started |}, Ok tt)
        else
          ({| entries := entries w; configDocument := configDocument w; spawned := started |},
           Err (newError ("Ghostscript failed with code " ++ showExitCode exitCode ++
                          ": " ++ errorOutput)))
    end.

(** The Ghostscript preset of a quality tier *)
Definition pdfSettings (quality : Quality) : str :=
  match quality with
  | low => "/screen"
  | high => "/printer"
  | medium => "/ebook"
  end.

Definition compressPdf (sourcePath destinationPath : str) (quality : Quality) : M unit :=
  try_catch (Fs.access sourcePath)
            (fun _ => throw (newError ("Source file not found: " ++ sourcePath))) ;;;
  runGhostscript (pdfSettings quality) sourcePath destinationPath.

(** The destination of an action before directories are created and
    collisions resolved. *)
Definition plannedDestination (action : Action) (sourcePath : str)
    (config : FlowSquireConfig) (metadata : option Metadata) (now : DateTime) : str :=
  let fileName := Path.basename sourcePath in
  let category := detectPdfCategory fileName in
  let destinationPath :=
    replaceTemplateVariables (destination (act_config action)) config metadata in
  let destinationPath := Js.replaceAll destinationPath "{category}" category in
  let destinationPath :=
    if bool_decide (Path.extname destinationPath = []) &&
       bool_decide (truthy (pattern (act_config action)) = None)
    then Path.join destinationPath fileName
    else destinationPath in
  match truthy (pattern (act_config action)) with
  | Some pat => applyPattern destinationPath pat sourcePath metadata now
  | None => destinationPath
  end.

(** The step of [executeAction] that creates the destination directory *)
Definition ensureDestinationDir (action : Action) (dryRun : bool) (destinationPath : str)
  : M unit :=
  if bool_decide (createDirs (act_config action) <> Some false) && negb dryRun
  then try_catch (Fs.mkdir (Path.dirname destinationPath))
                 (fun err => if Js.str_eqb (code err) "EEXIST" then ret tt else throw err)
  else ret tt.

(** The [switch] of [executeAction], behind its dry-run guard *)
Definition performAction (action : Action) (sourcePath destinationPath : str)
    (dryRun : bool) : M unit :=
  if negb dryRun then
    match act_type action with
    | move => Fs.rename sourcePath destinationPath
    | copy => Fs.copyFile sourcePath destinationPath
    | rename => Fs.rename sourcePath destinationPath
    | compress =>
        compressPdf sourcePath destinationPath
          (match compress_config (act_config action) with
           | Some c => quality c
           | None => medium
           end)
    end
  else ret tt.

(** The body of the [try] block of [executeAction] *)
Definition executeAction_try (action : Action) (sourcePath : str) (dryRun : bool)
    (metadata : option Metadata) (now : DateTime) : M str :=
  config <- loadConfig ;;
  let destinationPath := plannedDestination action sourcePath config metadata now in
  ensureDestinationDir action dryRun destinationPath ;;;
  destinationPath <- resolveCollision destinationPath dryRun ;;
  performAction action sourcePath destinationPath dryRun ;;;
  ret destinationPath.

Definition executeAction (action : Action) (sourcePath : str) (dryRun : bool)
    (metadata : option Metadata) (now : DateTime) (w : World) : World * ActionResult :=
  match executeAction_try action sourcePath dryRun metadata now w with
  | (w', Ok destinationPath) =>
      (w', {| res_action := action; res_status := success;
              res_sourcePath := Some sourcePath;
              res_destinationPath := Some destinationPath;
              res_error := None |})
  | (w', Err error) =>
      (w', {| res_action := action; res_status := failed;
              res_sourcePath := Some sourcePath;
              res_destinationPath := None;
              res_error := Some (message error) |})
  end.

(** The path that the next action of the chain starts from *)
Definition nextPath (currentPath : str) (result : ActionResult) : str :=
  match res_status result, truthy (res_destinationPath result) with
  | success, Some destinationPath => destinationPath
  | _, _ => currentPath
  end.

(** The [for] loop of [executeActions]; [n] counts the actions already
    run. *)
Fixpoint executeActions_from (n : nat) (actions : list Action) (currentPath : str)
    (dryRun : bool) (metadata : option Metadata) (w : World) : World * list ActionResult :=
  match actions with
  | [] => (w, [])
  | action :: rest =>
      let '(w1, result) := executeAction action currentPath dryRun metadata (clock n) w in
      let '(w2, results) :=
        executeActions_from (S n) rest (nextPath currentPath result) dryRun metadata w1 in
      (w2, result :: results)
  end.

Definition executeActions (actions : list Action) (sourcePath : str) (dryRun : bool)
    (metadata : option Metadata) (w : World) : World * list ActionResult :=
  executeActions_from 0 actions sourcePath dryRun metadata w.

End Executor.

(** ** Reading and changing one configuration value ([src/config/index.ts]) *)
Section ConfigAccess.
Context `{Host}.

(** What [obj[key]] gives on a map of strings: the value of the key, an
    object of the engine when the key is none of the map's own but a
    name that every object inherits, or [undefined]. *)
Inductive Property :=
  | Text (value : str)
  | Inherited
  | Undefined.

Definition inheritedNames : list str :=
  strs ["constructor"; "hasOwnProperty"; "isPrototypeOf"; "propertyIsEnumerable";
        "toLocaleString"; "toString"; "valueOf"; "__proto__";
        "__defineGetter__"; "__defineSetter__"; "__lookupGetter__"; "__lookupSetter__"].

Definition getProperty (key : str) (l : list (str * str)) : Property :=
  match lookupKey key l with
  | Some value => Text value
  | None => if existsb (Js.str_eqb key) inheritedNames then Inherited else Undefined
  end.

(** [obj[key] = value] with a string value: a key of the map keeps its
    place and takes the value, a new key goes last ([spread] keeps the
    keys in the same order); the inherited setter [__proto__] takes no
    string, so that nothing is set. *)
Definition setProperty (key value : str) (l : list (str * str)) : list (str * str) :=
  if bool_decide (is_Some (lookupKey key l)) then
    map (fun kv => if Js.str_eqb (fst kv) key then (fst kv, value) else kv) l
  else if Js.str_eqb key "__proto__" then l
  else l ++ [(key, value)].

Definition getConfigValue (key : str) : M Property :=
  config <- loadConfig ;;
  if Js.str_eqb key "downloadsMode" then ret (Text (downloadsMode config))
  else if Js.str_eqb key "screenshotMode" then ret (Text (screenshotMode config))
  else ret (getProperty key (paths config)).

(** When [loadConfig] could not read the file, the object it returns is
    [DEFAULT_CONFIG] itself, and the assignment changes the defaults of
    the running process as well.  The file that [saveConfig] then writes
    holds every key of the changed defaults with its value, so that a
    [loadConfig] that reads this file gives what it gives from the
    defaults as they were.  The defaults of the process are no part of
    [World]: what the process does once that file is lost again is
    outside this definition. *)
Definition setConfigValue (key value : str) : M unit :=
  config <- loadConfig ;;
  let normalizedKey : str :=
    if Js.str_eqb key "downloads-mode" then "downloadsMode"
    else if Js.str_eqb key "screenshot-mode" then "screenshotMode"
    else key in
  let config :=
    if Js.str_eqb normalizedKey "downloadsMode" then
      {| paths := paths config; downloadsMode := value;
         screenshotMode := screenshotMode config; version := version config |}
    else if Js.str_eqb normalizedKey "screenshotMode" then
      {| paths := paths config; downloadsMode := downloadsMode config;
         screenshotMode := value; version := version config |}
    else
      {| paths := setProperty normalizedKey value (paths config);
         downloadsMode := downloadsMode config;
         screenshotMode := screenshotMode config; version := version config |} in
  saveConfig config.

End ConfigAccess.

(** ** The rule and run store ([src/db/index.ts]) *)

Inductive RunStatus := R_pending | R_running | R_completed | R_failed.

Inductive TriggeredBy := By_file_event | By_manual.

Record RuleRun := {
  run_id : str;
  run_ruleId : str;
  run_status : RunStatus;
  run_triggeredBy : TriggeredBy;
  run_filePath : option str;
  run_fileSize : option N;
  run_destinationPath : option str;
  run_tags : list str;
  run_dryRun : bool;
  run_actions : list ActionResult;
  run_startedAt : DateTime;
  run_completedAt : option DateTime;
  run_error : option str;
}.

(** What [JSON.parse] gives for a file of the store: an array of
    records, as the store writes it, or a value of another kind, on
    which a call of an array method raises a TypeError; [complaint] is
    its message for the name of the method. *)
Inductive Json (A : Type) :=
  | JsonArray (items : list A)
  | JsonOther (complaint : str -> str).
Arguments JsonArray {A} items.
Arguments JsonOther {A} complaint.

(** The world together with the content of the two files of the store;
    [None] is a content that is no JSON text. *)
Record Store := {
  db_world : World;
  rulesDocument : option (Json Rule);
  runsDocument : option (Json RuleRun);
}.

(** What [JSON.parse] reads where [JSON.stringify] wrote a value of a
    condition.  JSON has no NaN and no infinity: [JSON.stringify] writes
    [null] in their place.  The program reads the value of a condition
    through [String(...)] and [Array.isArray(...)] only, to which [null]
    is what the text null is; that text stands for [null] here. *)
Definition jsonValue (v : Value) : Value :=
  match v with
  | VNum NaN | VNum (Infinity _) => VStr "null"
  | _ => v
  end.

Definition jsonCondition (c : Condition) : Condition :=
  {| cond_type := cond_type c; cond_operator := cond_operator c;
     cond_value := jsonValue (cond_value c) |}.

(** A rule read back from its JSON text.  The other fields are texts,
    truth values, the priority and lists and records of these, which
    JSON keeps; a field that is [undefined] is left out of the text and
    is [undefined] again when read. *)
Definition jsonRule (r : Rule) : Rule :=
  {| id := id r; name := name r; enabled := enabled r; priority := priority r;
     tags := tags r; trigger := trigger r;
     conditions := map jsonCondition (conditions r); actions := actions r |}.

(** The length of the text that [JSON.stringify(data, null, 2)] gives *)
Class Serializer := {
  rulesJsonLength : list Rule -> N;
  runsJsonLength : list RuleRun -> N;
}.

Definition D (A : Type) : Type := Store -> Store * result A.

Definition D_ret {A} (a : A) : D A := fun s => (s, Ok a).
Definition D_throw {A} (e : JsError) : D A := fun s => (s, Err e).
Definition D_bind {A B} (m : D A) (k : A -> D B) : D B :=
  fun s => match m s with
           | (s', Ok a) => k a s'
           | (s', Err e) => (s', Err e)
           end.

(** A step that touches the file system and the configuration only *)
Definition inWorld {A} (m : M A) : D A :=
  fun s => match m (db_world s) with
           | (w', r) => ({| db_world := w'; rulesDocument := rulesDocument s;
                            runsDocument := runsDocument s |}, r)
           end.

Section Database.
Context `{Host} `{Serializer}.

Definition RULES_FILE : str := Path.join DB_DIR "rules.json".
Definition RUNS_FILE : str := Path.join DB_DIR "runs.json".

(** [readJsonFile(RULES_FILE, [])]: whatever goes wrong, the default *)
Definition readRulesFile (defaultValue : Json Rule) : D (Json Rule) :=
  fun s =>
    if Fs.isFile (db_world s) RULES_FILE then
      match rulesDocument s with
      | Some data => (s, Ok data)
      | None => (s, Ok defaultValue)
      end
    else (s, Ok defaultValue).

(** [readJsonFile(RUNS_FILE, [])] *)
Definition readRunsFile (defaultValue : Json RuleRun) : D (Json RuleRun) :=
  fun s =>
    if Fs.isFile (db_world s) RUNS_FILE then
      match runsDocument s with
      | Some data => (s, Ok data)
      | None => (s, Ok defaultValue)
      end
    else (s, Ok defaultValue).

(** [fs.writeFile(filePath, text)] on the entries: the directory of the
    file has to be there, and no directory at the path of the file. *)
Definition writeFileEntry (filePath : str) (bytes : N) (w : World) : World * result unit :=
  if Fs.isFile w (Path.dirname filePath) then (w, Err (Fs.ENOTDIR "open" filePath))
  else if negb (Fs.isDir w (Path.dirname filePath)) then (w, Err (Fs.ENOENT "open" filePath))
  else if Fs.isDir w filePath then (w, Err (Fs.EISDIR "open" filePath))
  else (Fs.setEntries w (<[filePath := Fs.fileStats bytes]> (entries w)), Ok tt).

(** [writeJsonFile(RULES_FILE, rules)]; the file holds the rules as
    JSON keeps them. *)
Definition writeRulesFile (data : list Rule) : D unit :=
  fun s =>
    match writeFileEntry RULES_FILE (rulesJsonLength data) (db_world s) with
    | (w', Ok _) => ({| db_world := w'; rulesDocument := Some (JsonArray (map jsonRule data));
                        runsDocument := runsDocument s |}, Ok tt)
    | (w', Err e) => (s, Err e)
    end.

(** [writeJsonFile(RUNS_FILE, runs)]; a run holds texts, truth values,
    a size, dates and lists and records of these, which JSON keeps. *)
Definition writeRunsFile (data : list RuleRun) : D unit :=
  fun s =>
    match writeFileEntry RUNS_FILE (runsJsonLength data) (db_world s) with
    | (w', Ok _) => ({| db_world := w'; rulesDocument := rulesDocument s;
                        runsDocument := Some (JsonArray data) |}, Ok tt)
    | (w', Err e) => (s, Err e)
    end.

Definition initDatabase : D unit := inWorld ensureDbDir.

(** [Array.prototype.findIndex]; [None] stands for -1 *)
Fixpoint findIndex {A} (f : A -> bool) (l : list A) : option nat :=
  match l with
  | [] => None
  | x :: rest => if f x then Some 0%nat else S <$> findIndex f rest
  end.

(** The conversion of the date strings of a record back to dates: the
    two dates of a rule are not part of [Rule], and a date of a run is
    the date that was written. *)
Definition revived {A} (record : A) : A := record.

Definition getRules : D (list Rule) :=
  D_bind (readRulesFile (JsonArray []))
    (fun rules =>
       match rules with
       | JsonArray items => D_ret (map revived items)
       | JsonOther complaint => D_throw (newError (complaint "map"))
       end).

Definition saveRule (rule : Rule) : D unit :=
  D_bind (inWorld ensureDbDir) (fun _ =>
  D_bind getRules (fun rules =>
    let index := findIndex (fun r => Js.str_eqb (id r) (id rule)) rules in
    let rules :=
      match index with
      | Some i => <[i := rule]> rules
      | None => rules ++ [rule]
      end in
    writeRulesFile rules)).

Definition getEnabledRules : D (list Rule) :=
  D_bind getRules (fun rules => D_ret (List.filter (fun r => enabled r) rules)).

Definition getRuns (ruleId : option str) : D (list RuleRun) :=
  D_bind (readRunsFile (JsonArray []))
    (fun runs =>
       match runs with
       | JsonArray items =>
           let filtered :=
             match truthy ruleId with
             | Some ruleId => List.filter (fun r => Js.str_eqb (run_ruleId r) ruleId) items
             | None => items
             end in
           D_ret (map revived filtered)
       | JsonOther complaint =>
           D_throw (newError (complaint (match truthy ruleId with
                                         | Some _ => "filter"
                                         | None => "map"
                                         end)))
       end).

Definition saveRun (run : RuleRun) : D unit :=
  D_bind (inWorld ensureDbDir) (fun _ =>
  D_bind (getRuns None) (fun runs =>
    let index := findIndex (fun r => Js.str_eqb (run_id r) (run_id run)) runs in
    let runs :=
      match index with
      | Some i => <[i := run]> runs
      | None => runs ++ [run]
      end in
    writeRunsFile runs)).

End Database.

(** ** Screenshot metadata ([src/core/screenshot-metadata.ts]) *)

Record ScreenshotMetadata := {
  sm_appName : str;
  sm_windowTitle : str;
  sm_timestamp : DateTime;
  sm_domain : option str;
  sm_url : option str;
}.

(** ** The file watcher ([src/watchers/file-watcher.ts]) *)

(** What one execution of a rule takes from outside the program: the
    identifier that [randomUUID] gives, the clock when the execution
    starts, when its actions are done and in the [catch] block, and what
    [captureScreenshotMetadata] comes back with. *)
Record Draw := {
  draw_runId : str;
  draw_startTime : DateTime;
  draw_endTime : DateTime;
  draw_failTime : DateTime;
  draw_metadata : option ScreenshotMetadata;
}.

(** The watcher: the store, the paths being processed, and the timers
    that are to take a path out of them, oldest first. *)
Record Watcher := {
  store : Store;
  processingFiles : gset str;
  timers : list str;
}.

Section FileWatcher.
Context `{Host} `{Serializer}.

Definition extractWatchedFolder (rule : Rule) : M (option str) :=
  config <- loadConfig ;;
  if match trig_type (trigger rule) with
     | file_created | file_modified => true
     | _ => false
     end
  then
    match truthy (trig_folder (trigger rule)) with
    | None => ret None
    | Some folderTemplate => ret (Some (replaceTemplateVariables folderTemplate config None))
    end
  else if match trig_type (trigger rule) with screenshot => true | _ => false end
  then
    match truthy (trig_folder (trigger rule)) with
    | None => ret None
    | Some folderTemplate => ret (Some (replaceTemplateVariables folderTemplate config None))
    end
  else ret None.

(** [Map.prototype.has] on a map kept in insertion order *)
Definition Map_has {V} (m : list (str * V)) (key : str) : bool :=
  existsb (fun kv => Js.str_eqb (fst kv) key) m.

(** [if (!m.has(folder)) m.set(folder, []); m.get(folder).push(rule)] *)
Definition Map_push (m : list (str * list Rule)) (folder : str) (rule : Rule)
  : list (str * list Rule) :=
  let m := if Map_has m folder then m else m ++ [(folder, [])] in
  map (fun kv => if Js.str_eqb (fst kv) folder then (fst kv, snd kv ++ [rule]) else kv) m.

(** The [for] loop of [groupRulesByFolder] *)
Fixpoint groupRulesByFolder_from (rules : list Rule) (folderRules : list (str * list Rule))
  : M (list (str * list Rule)) :=
  match rules with
  | [] => ret folderRules
  | rule :: rest =>
      if negb (enabled rule) then groupRulesByFolder_from rest folderRules
      else
        folder <- extractWatchedFolder rule ;;
        match truthy folder with
        | None => groupRulesByFolder_from rest folderRules
        | Some folder => groupRulesByFolder_from rest (Map_push folderRules folder rule)
        end
  end.

Definition groupRulesByFolder (rules : list Rule) : M (list (str * list Rule)) :=
  groupRulesByFolder_from rules [].

Definition isSuccess (r : ActionResult) : bool :=
  match res_status r with success => true | _ => false end.

(** The record of a run when it starts *)
Definition startedRun (dryRun : bool) (rule : Rule) (filePath : str)
    (fileSize : option N) (draw : Draw) : RuleRun := {|
  run_id := draw_runId draw;
  run_ruleId := id rule;
  run_status := R_running;
  run_triggeredBy := By_file_event;
  run_filePath := Some filePath;
  run_fileSize := fileSize;
  run_destinationPath := None;
  run_tags := tags rule;
  run_dryRun := dryRun;
  run_actions := [];
  run_startedAt := draw_startTime draw;
  run_completedAt := None;
  run_error := None;
|}.

(** The record once the actions have run *)
Definition finishedRun (run : RuleRun) (results : list ActionResult)
    (completedAt : DateTime) : RuleRun :=
  let allSuccess := forallb isSuccess results in
  let finalDestination :=
    match last (List.filter isSuccess results) with
    | Some r => res_destinationPath r
    | None => None
    end in
  {| run_id := run_id run;
     run_ruleId := run_ruleId run;
     run_status := if allSuccess then R_completed else R_failed;
     run_triggeredBy := run_triggeredBy run;
     run_filePath := run_filePath run;
     run_fileSize := run_fileSize run;
     run_destinationPath := finalDestination;
     run_tags := run_tags run;
     run_dryRun := run_dryRun run;
     run_actions := results;
     run_startedAt := run_startedAt run;
     run_completedAt := Some completedAt;
     run_error := run_error run |}.

(** The record that the [catch] block writes *)
Definition crashedRun (run : RuleRun) (error : JsError) (completedAt : DateTime) : RuleRun :=
  {| run_id := run_id run;
     run_ruleId := run_ruleId run;
     run_status := R_failed;
     run_triggeredBy := run_triggeredBy run;
     run_filePath := run_filePath run;
     run_fileSize := run_fileSize run;
     run_destinationPath := run_destinationPath run;
     run_tags := run_tags run;
     run_dryRun := run_dryRun run;
     run_actions := run_actions run;
     run_startedAt := run_startedAt run;
     run_completedAt := Some completedAt;
     run_error := Some (message error) |}.

(** What [executeRule] and [executeScreenshotRule] do once the metadata
    is settled.  [executeActions] turns every failure into a result, so
    that the [catch] block is reached from the second [saveRun] only,
    where [run] is the finished record already. *)
Definition recordRun (rule : Rule) (filePath : str) (dryRun : bool)
    (metadata : option Metadata) (draw : Draw) : D unit :=
  fun s =>
    let fileSize := st_size <$> Fs.statSync (db_world s) filePath in
    let run := startedRun dryRun rule filePath fileSize draw in
    D_bind (saveRun run) (fun _ =>
    D_bind (inWorld (fun w =>
              match executeActions (actions rule) filePath dryRun metadata w with
              | (w', results) => (w', Ok results)
              end)) (fun results =>
      let run := finishedRun run results (draw_endTime draw) in
      fun s1 =>
        match saveRun run s1 with
        | (s2, Ok _) => (s2, Ok tt)
        | (s2, Err error) => saveRun (crashedRun run error (draw_failTime draw)) s2
        end)) s.

Definition executeRule (dryRun : bool) (rule : Rule) (filePath : str) (draw : Draw)
  : D unit :=
  recordRun rule filePath dryRun None draw.

Definition executeScreenshotRule (dryRun : bool) (rule : Rule) (filePath : str)
    (draw : Draw) : D unit :=
  let metadata :=
    match draw_metadata draw with
    | Some metadata =>
        Some {| appName := Some (sm_appName metadata); domain := sm_domain metadata |}
    | None => None
    end in
  recordRun rule filePath dryRun metadata draw.

(** One call of [handleFileEvent], followed to its end; the caller's
    [rules] array comes back sorted, as [findMatchingRules] leaves it.
    What other calls do while this one waits is not part of the
    model. *)
Definition handleFileEvent (dryRun : bool) (filePath : str) (rules : list Rule)
    (eventType : str) (draw : Draw) (wt : Watcher) : Watcher * list Rule * result unit :=
  if bool_decide (filePath ∈ processingFiles wt) then (wt, rules, Ok tt)
  else
    let processing := {[filePath]} ∪ processingFiles wt in
    match findMatchingRules (db_world (store wt)) rules filePath with
    | (matchingRules, rules) =>
        match
          match matchingRules with
          | [] => (store wt, Ok tt)
          | highestPriorityRule :: _ =>
              if existsb (fun tag => Js.str_eqb tag "screenshot") (tags highestPriorityRule)
              then executeScreenshotRule dryRun highestPriorityRule filePath draw (store wt)
              else executeRule dryRun highestPriorityRule filePath draw (store wt)
          end
        with
        | (s, r) =>
            ({| store := s; processingFiles := processing;
                timers := timers wt ++ [filePath] |}, rules, r)
        end
    end.

Definition handleScreenshotEvent (dryRun : bool) (filePath : str) (rules : list Rule)
    (draw : Draw) (wt : Watcher) : Watcher * list Rule * result unit :=
  if bool_decide (filePath ∈ processingFiles wt) then (wt, rules, Ok tt)
  else
    let processing := {[filePath]} ∪ processingFiles wt in
    match findMatchingRules (db_world (store wt)) rules filePath with
    | (matchingRules, rules) =>
        match
          match matchingRules with
          | [] => (store wt, Ok tt)
          | highestPriorityRule :: _ =>
              executeScreenshotRule dryRun highestPriorityRule filePath draw (store wt)
          end
        with
        | (s, r) =>
            ({| store := s; processingFiles := processing;
                timers := timers wt ++ [filePath] |}, rules, r)
        end
    end.


(** The two rule lists that [watchFolder] hands to its listeners *)
Definition fileRulesOf (rules : list Rule) : list Rule :=
  List.filter (fun r => match trig_type (trigger r) with
                        | file_created | file_modified => true
                        | _ => false
                        end) rules.

Definition screenshotRulesOf (rules : list Rule) : list Rule :=
  List.filter (fun r => match trig_type (trigger r) with
                        | screenshot => true
                        | _ => false
                        end) rules.

(** The listeners of the [add] event of a watched folder, called one
    after the other in the order [watchFolder] registered them; each is
    there only when its rule list is not empty. *)
Definition onAdd (dryRun : bool) (fileRules screenshotRules : list Rule) (filePath : str)
    (draw drawScreenshot : Draw) (wt : Watcher) : Watcher * list Rule * list Rule :=
  match
    match fileRules with
    | [] => (wt, fileRules)
    | _ :: _ =>
        match handleFileEvent dryRun filePath fileRules "file_created" draw wt with
        | (wt', fileRules', _) => (wt', fileRules')
        end
    end
  with
  | (wt1, fileRules') =>
      match screenshotRules with
      | [] => (wt1, fileRules', screenshotRules)
      | _ :: _ =>
          match handleScreenshotEvent dryRun filePath screenshotRules drawScreenshot wt1 with
          | (wt2, screenshotRules', _) => (wt2, fileRules', screenshotRules')
          end
      end
  end.

End FileWatcher.

(** ** The PDF workflow templates of [initWithTemplates] ([src/index.ts]) *)

Definition watching (folder : str) : Trigger :=
  {| trig_type := file_created; trig_folder := Some folder |}.

(** The rule [largePdfCompressionRule]; [id] is what [randomUUID] gave. *)
Definition largePdfCompressionRule (isNestedMode : bool) (id : str) : Rule := {|
  id := id;
  name := "Large PDF Compression";
  enabled := true;
  priority := 500;
  tags := strs ["pdf"; "compression"; "large-files"];
  trigger := watching "{downloads}";
  conditions := [
    {| cond_type := T_extension; cond_operator := equals; cond_value := VStr "pdf" |};
    {| cond_type := T_size_greater_than_mb; cond_operator := equals;
       cond_value := VNum (Finite 8) |} ];
  actions := [
    {| act_type := move;
       act_config :=
         {| destination :=
              (if isNestedMode then "{downloads}" else "{documents}") ++ "/PDFs/{category}";
            pattern := None; createDirs := Some true; compress_config := None |} |};
    {| act_type := compress;
       act_config :=
         {| destination :=
              (if isNestedMode then "{downloads}" else "{documents}")
              ++ "/PDFs/{category}/Compressed";
            pattern := Some ("{filename}_compressed" : str);
            createDirs := Some true;
            compress_config := Some {| quality := medium; archiveOriginal := Some true |} |} |} ];
|}.

Definition invoiceRule (isNestedMode : bool) (id : str) : Rule := {|
  id := id;
  name := "PDF Invoice Organizer";
  enabled := true;
  priority := 400;
  tags := strs ["pdf"; "invoice"; "finance"];
  trigger := watching "{downloads}";
  conditions := [
    {| cond_type := T_extension; cond_operator := equals; cond_value := VStr "pdf" |};
    {| cond_type := T_name_contains; cond_operator := equals; cond_value := VStr "invoice" |} ];
  actions := [
    {| act_type := move;
       act_config :=
         {| destination :=
              if isNestedMode then "{downloads}/PDFs/Invoices" else "{documents}/PDFs/Invoices";
            pattern := Some ("{filename}_{YYYY}-{MM}-{DD}" : str);
            createDirs := Some true; compress_config := None |} |} ];
|}.

Definition bankRule (isNestedMode : bool) (id : str) : Rule := {|
  id := id;
  name := "PDF Bank Statement Organizer";
  enabled := true;
  priority := 300;
  tags := strs ["pdf"; "bank"; "finance"; "statement"];
  trigger := watching "{downloads}";
  conditions := [
    {| cond_type := T_extension; cond_operator := equals; cond_value := VStr "pdf" |};
    {| cond_type := T_name_contains; cond_operator := equals; cond_value := VStr "bank" |} ];
  actions := [
    {| act_type := move;
       act_config :=
         {| destination :=
              if isNestedMode then "{downloads}/PDFs/Finance" else "{documents}/PDFs/Finance";
            pattern := Some ("{filename}_{YYYY}-{MM}" : str);
            createDirs := Some true; compress_config := None |} |} ];
|}.

Definition notesRule (isNestedMode : bool) (id : str) : Rule := {|
  id := id;
  name := "PDF Study Notes Organizer";
  enabled := true;
  priority := 200;
  tags := strs ["pdf"; "study"; "notes"; "college"];
  trigger := watching "{downloads}";
  conditions := [
    {| cond_type := T_extension; cond_operator := equals; cond_value := VStr "pdf" |};
    {| cond_type := T_name_contains; cond_operator := equals; cond_value := VStr "notes" |} ];
  actions := [
    {| act_type := move;
       act_config :=
         {| destination :=
              if isNestedMode then "{downloads}/PDFs/Study" else "{documents}/PDFs/Study";
            pattern := Some ("{filename}_{YYYY}-{MM}-{DD}" : str);
            createDirs := Some true; compress_config := None |} |} ];
|}.

Definition defaultPdfRule (isNestedMode : bool) (id : str) : Rule := {|
  id := id;
  name := "PDF Default Organizer";
  enabled := true;
  priority := 100;
  tags := strs ["pdf"; "default"];
  trigger := watching "{downloads}";
  conditions := [
    {| cond_type := T_extension; cond_operator := equals; cond_value := VStr "pdf" |} ];
  actions := [
    {| act_type := move;
       act_config :=
         {| destination :=
              if isNestedMode then "{downloads}/PDFs/Unsorted" else "{documents}/PDFs/Unsorted";
            pattern := None; createDirs := Some true; compress_config := None |} |} ];
|}.

(** The five rules, in the order [initWithTemplates] saves them *)
Definition pdfTemplateRules (isNestedMode : bool) (ids : str * str * str * str * str)
  : list Rule :=
  match ids with
  | (id1, id2, id3, id4, id5) =>
      [ largePdfCompressionRule isNestedMode id1;
        invoiceRule isNestedMode id2;
        bankRule isNestedMode id3;
        notesRule isNestedMode id4;
        defaultPdfRule isNestedMode id5 ]
  end.

(** ** A concrete host, for running the definitions *)
Module Demo.

(** Decimal integers only; anything else is not a number. *)
Definition parseNat (s : str) : jsnum :=
  match s with
  | [] => Finite 0
  | _ :: _ =>
      if forallb Js.isDigit s
      then Finite (inject_Z (Z.of_nat
             (foldl (fun acc c => (10 * acc + (nat_of_ascii c - 48))%nat) 0%nat s)))
      else NaN
  end.

Definition showNum (n : jsnum) : str :=
  match n with
  | NaN => "NaN"
  | Infinity true => "-Infinity"
  | Infinity false => "Infinity"
  | Finite q => String.list_ascii_of_string (pretty (Qnum q / Zpos (Qden q))%Z)
  end.

(** Patterns are read as plain text; one with a parenthesis is
    rejected. *)
Definition literalRegex (p s : str) : option bool :=
  if Js.includes p "(" then None
  else Some (Js.includes (Js.toLowerCase s) (Js.toLowerCase p)).

Definition feb1 : DateTime := {|
  getFullYear := 2026; getMonth := 1; getDate := 1;
  getHours := 9; getMinutes := 5; getSeconds := 7;
|}.

(** A host whose compression tool always ends the same way. *)
Definition host (gs : GsOutcome) : Host := {|
  numberToString := showNum;
  toNumber := parseNat;
  regexTest := literalRegex;
  platform := "linux";
  homedir := "/home/u";
  clock := fun _ => feb1;
  ghostscript := fun _ _ _ => gs;
  jsonLength := fun _ => 512%N;
|}.

Definition file (bytes : N) : Stats := Fs.fileStats bytes.

Definition world (fs : list (str * Stats)) : World := {|
  entries := list_to_map fs;
  configDocument := None;
  spawned := [];
|}.

Definition simpleAction (t : ActionType) (dest : str) (pat : option str) : Action := {|
  act_type := t;
  act_config := {| destination := dest; pattern := pat; createDirs := None;
                   compress_config := None |};
|}.

Definition rule (nm : str) (prio : Z) (cs : list Condition) : Rule := {|
  id := nm; name := nm; enabled := true; priority := prio; tags := [];
  trigger := {| trig_type := file_created; trig_folder := None |};
  conditions := cs; actions := [];
|}.

Definition workingTool : Host := host (Closed (Some 0%Z) "" 10).

(** A folder with one report in it *)
Definition inbox : World :=
  world [("/in/report.pdf" : str, file 100); ("/in" : str, Fs.dirStats)].

(** The current directory with a.pdf and a-1.pdf in it *)
Definition twoReports : World :=
  world [("a.pdf" : str, file 10); ("a-1.pdf" : str, file 10)].


Definition condition (t : ConditionType) (o : Operator) (v : str) : Condition :=
  {| cond_type := t; cond_operator := o; cond_value := VStr v |}.

Definition pdfRule : Rule := rule "pdf" 100 [condition T_extension equals "PDF"].

Definition rule100 : Rule := rule "a" 100 [].
Definition rule500 : Rule := rule "b" 500 [].
Definition rule300 : Rule := rule "c" 300 [].

Definition chrome : Metadata :=
  {| appName := Some ("Google Chrome" : str); domain := Some ("github.com" : str) |}.

End Demo.

(** ** Further samples: a store, a rule, a watcher *)
Module Samples.
Import Demo.

(** A store that counts a hundred bytes for each record *)
Definition serializer : Serializer := {|
  rulesJsonLength := fun rules => (100 * N.of_nat (length rules))%N;
  runsJsonLength := fun runs => (100 * N.of_nat (length runs))%N;
|}.


(** A file of exactly one megabyte and a file of one byte more *)
Definition sized : World :=
  world [("/in/exact.bin" : str, file 1048576); ("/in/more.bin" : str, file 1048577);
         ("/in" : str, Fs.dirStats)].

(** The inbox, with no store yet *)
Definition emptyStore : Store :=
  {| db_world := inbox; rulesDocument := None; runsDocument := None |}.

Definition moveRule : Rule := {|
  id := "rule-1"; name := "mover"; enabled := true; priority := 100; tags := [];
  trigger := {| trig_type := file_created; trig_folder := Some ("{downloads}" : str) |};
  conditions := [condition T_extension equals "pdf"];
  actions := [simpleAction move "/out" None];
|}.

Definition draw : Draw := {|
  draw_runId := "run-1";
  draw_startTime := feb1; draw_endTime := feb1; draw_failTime := feb1;
  draw_metadata := None;
|}.

Definition freshWatcher : Watcher :=
  {| store := emptyStore; processingFiles := ∅; timers := [] |}.

Definition templateIds : str * str * str * str * str :=
  ("id-1" : str, "id-2" : str, "id-3" : str, "id-4" : str, "id-5" : str).

End Samples.

(** * The vocabulary of the properties *)

Section SortVocabulary.
Context {A : Type} (key : A -> Z).

(** The comparison function that [findMatchingRules] sorts with *)
Definition byKeyDescending (a b : A) : Z := (key b - key a)%Z.

Definition descending (a b : A) : Prop := (key b <= key a)%Z.

Definition hasKey (p : Z) (a : A) : bool := (key a =? p)%Z.

End SortVocabulary.

Section Vocabulary.
Context `{Host}.

(** How the tool ends on the command line that [compressPdf] builds *)
Definition toolOutcome (sourcePath destinationPath : str) (quality : Quality) (w : World)
  : GsOutcome :=
  ghostscript getGhostscriptCommand
    (gsArgs (pdfSettings quality) sourcePath destinationPath) w.

Definition sourceNotFound (sourcePath : str) : str :=
  "Source file not found: " ++ sourcePath.
Definition toolNotFound (msg : str) : str :=
  "Failed to spawn Ghostscript: " ++ msg ++
  ". Please install Ghostscript (brew install ghostscript)".
Definition toolFailed (exitCode : option Z) (errorOutput : str) : str :=
  "Ghostscript failed with code " ++ showExitCode exitCode ++ ": " ++ errorOutput.

Definition matchesFile (w : World) (filePath : str) (rule : Rule) : bool :=
  evaluateConditions w (conditions rule) filePath.

(** The condition types whose test goes through the operator *)
Definition usesOperator (t : ConditionType) : bool :=
  match t with
  | T_extension | T_name_pattern | T_path => true
  | _ => false
  end.





Definition noSlash (s : str) : Prop := Forall (fun c => Path.isSlash c = false) s.

(** A name that is one ordinary path segment *)
Definition plainName (n : str) : Prop :=
  n <> [] /\ noSlash n /\ n <> "." /\ n <> "..".

(** What [path.join] puts before a plain name: the normalized directory
    and a slash, or nothing *)
Definition joinPrefix (d : str) : str :=
  match d with
  | [] => []
  | _ :: _ =>
      let abs := Path.isAbsolute d in
      (if abs then "/" else "") ++
      match Path.normSegs (negb abs) [] (Path.splitSlash d) with
      | [] => []
      | st => Js.joinWith "/" (rev st) ++ "/"
      end
  end.

(** The file name of the candidate: the counter goes between the stem
    and the extension. *)
Definition candidateName (filePath : str) (counter : nat) : str :=
  Path.basename2 filePath (Path.extname filePath) ++
  "-" ++ Js.natToString counter ++ Path.extname filePath.


Definition noBrace (s : str) : Prop := Forall (fun c => Js.chr_eqb c "{" = false) s.
Definition noDollar (s : str) : Prop := Forall (fun c => Js.chr_eqb c "$" = false) s.

(** A piece of text as one pass of [replaceAll] sees it: text without a
    brace, an occurrence of the pattern, or another placeholder. *)
Inductive chunkFor (pat rep : str) : str -> str -> Prop :=
  | chunk_literal s : noBrace s -> chunkFor pat rep s s
  | chunk_hit : chunkFor pat rep pat rep
  | chunk_other q :
      noBrace q ->
      (forall rest, Js.startsWith ("{"%char :: q ++ rest) pat = false) ->
      chunkFor pat rep ("{"%char :: q) ("{"%char :: q).

(** The pieces of a template that has only the two metadata
    placeholders left *)
Inductive Piece :=
  | Lit (s : str)
  | AppVar
  | DomainVar.

Definition pieceValue (app dom : str) (p : Piece) : str :=
  match p with
  | Lit s => s
  | AppVar => app
  | DomainVar => dom
  end.

(** The pieces with a text for each of the two placeholders *)
Definition filled (app dom : str) (ps : list Piece) : str :=
  concat (map (pieceValue app dom) ps).

(** The text of the template itself *)
Definition templateText (ps : list Piece) : str := filled "{app}" "{domain}" ps.

Definition literalPieces (ps : list Piece) : Prop :=
  Forall (fun p => match p with Lit s => noBrace s | _ => True end) ps.

Definition appText (md : Metadata) : str :=
  match truthy (appName md) with
  | Some a => sanitizeForPath a
  | None => "Unknown"
  end.

Definition domainText (md : Metadata) : str :=
  match truthy (domain md) with
  | Some d => sanitizeForPath d
  | None => "General"
  end.

(** Nothing that exists in [w] is missing from [w']. *)
Definition keeps (w w' : World) : Prop := dom (entries w) ⊆ dom (entries w').

(** [w'] differs from [w] at most in the configuration directory and
    the configuration file, and no process was started in between. *)
Definition sameUserFiles (w w' : World) : Prop :=
  spawned w' = spawned w /\
  forall p, p <> DB_DIR -> p <> CONFIG_FILE -> entries w' !! p = entries w !! p.

(** The configuration can be loaded or created: the configuration
    directory is not a regular file and no directory sits where the
    configuration file goes. *)
Definition configUsable (w : World) : Prop :=
  Fs.isFile w DB_DIR = false /\ Fs.isDir w CONFIG_FILE = false.

(** The world after [ensureDbDir] *)
Definition withDbDir (w : World) : World :=
  if Fs.isFile w DB_DIR then w
  else Fs.setEntries w (Fs.addDirs [DB_DIR] (entries w)).

(** What one result looks like *)
Definition succeeded (r : ActionResult) (d : str) : Prop :=
  res_status r = success /\ res_destinationPath r = Some d /\ res_error r = None.

Definition hasFailed (r : ActionResult) : Prop :=
  res_status r = failed /\ res_destinationPath r = None /\
  exists msg, res_error r = Some msg.

(** The current path after a result, as the specification words it: the
    destination of the result when it is a success, the path before it
    otherwise. *)
Definition stepDestination (currentPath : str) (r : ActionResult) : str :=
  match res_status r, res_destinationPath r with
  | success, Some d => d
  | _, _ => currentPath
  end.

Definition lastDestination (sourcePath : str) (results : list ActionResult) : str :=
  foldl stepDestination sourcePath results.



(** The keywords of [detectPdfCategory], family by family *)
Definition invoiceWords : list str :=
  strs ["invoice"; "bill"; "payment"; "receipt"; "tax"].
Definition financeWords : list str :=
  strs ["bank"; "statement"; "transaction"; "finance"; "credit"; "debit"].
Definition studyWords : list str :=
  strs ["notes"; "note"; "lecture"; "study"; "class"; "course"; "assignment";
        "homework"; "exam"].

Definition mentions (fileName : str) (words : list str) : bool :=
  existsb (Js.includes (Js.toLowerCase fileName)) words.

End Vocabulary.

(** ** The vocabulary of the store, the watcher and the templates *)

Section MoreVocabulary.
Context `{Host}.

Definition dotted (s : str) : Prop := In "."%char s.

Definition noDot (s : str) : Prop := Forall (fun c => Path.isDot c = false) s.

(** A comparison value that holds a dot, for the operators that compare
    text: the value itself for [equals] and [contains], every member of
    the list for [in]. *)
Definition dottedValue (c : Condition) : Prop :=
  match cond_operator c with
  | equals | contains => dotted (valueToString (cond_value c))
  | op_in => match cond_value c with
             | VList l => Forall dotted l
             | _ => False
             end
  | _ => False
  end.

(** The number of bytes of a megabyte, as the size condition counts *)
Definition megabyte : Z := 1024 * 1024.

(** More than [n] megabytes are at the path. *)
Definition largerThan (w : World) (filePath : str) (n : Z) : bool :=
  match Fs.statSync w filePath with
  | Some stats => (n * megabyte <? Z.of_N (st_size stats))%Z
  | None => false
  end.

(** The action types that take the source away *)
Definition relocates (t : ActionType) : bool :=
  match t with move | rename => true | _ => false end.

(** The destination of an action once its variables are replaced *)
Definition expandedDestination (action : Action) (sourcePath : str)
    (config : FlowSquireConfig) (metadata : option Metadata) : str :=
  Js.replaceAll
    (replaceTemplateVariables (destination (act_config action)) config metadata)
    "{category}" (detectPdfCategory (Path.basename sourcePath)).

(** A template as a sequence of plain text and placeholders; the
    placeholder of the key k is the text {k}. *)
Inductive Segment :=
  | Plain (s : str)
  | Placeholder (k : str).

Definition braced (k : str) : str := "{" ++ k ++ "}".

Definition segmentText (seg : Segment) : str :=
  match seg with
  | Plain s => s
  | Placeholder k => braced k
  end.

Definition segmentsText (segs : list Segment) : str := concat (map segmentText segs).

(** A placeholder takes the value that [lookup] has for its key, and
    stays as it is when there is none. *)
Definition segmentValue (lookup : str -> option str) (seg : Segment) : str :=
  match seg with
  | Plain s => s
  | Placeholder k => default (braced k) (lookup k)
  end.

Definition expanded (lookup : str -> option str) (segs : list Segment) : str :=
  concat (map (segmentValue lookup) segs).

(** No opening and no closing brace *)
Definition braceFree (k : str) : Prop :=
  Forall (fun c => Js.chr_eqb c "{" = false /\ Js.chr_eqb c "}" = false) k.

Definition wellFormed (segs : list Segment) : Prop :=
  Forall (fun seg => match seg with
                     | Plain s => noBrace s
                     | Placeholder k => braceFree k
                     end) segs.

Definition plainValue (v : str) : Prop := noBrace v /\ noDollar v.

(** Keys without braces, values without opening brace and without
    dollar sign *)
Definition plainTable (table : list (str * str)) : Prop :=
  Forall (fun kv => braceFree (fst kv) /\ plainValue (snd kv)) table.

(** The value that [applyPattern] has for a placeholder name *)
Definition patternValue (sourcePath : str) (now : DateTime) (k : str) : option str :=
  lookupKey (braced k) (placeholders sourcePath now).

(** One pass of the loop: the placeholders of the key take the value. *)
Definition substitute (k v : str) (seg : Segment) : Segment :=
  match seg with
  | Placeholder k' => if Js.str_eqb k' k then Plain v else seg
  | Plain _ => seg
  end.

(** The table of [applyPattern] with the braces of its keys taken off *)
Definition unbraced (sourcePath : str) (now : DateTime) : list (str * str) :=
  [ ("filename" : str, Path.basename2 sourcePath (Path.extname sourcePath));
    ("ext" : str, Path.extname sourcePath);
    ("YYYY" : str, Js.natToString (getFullYear now));
    ("MM" : str, Js.padStart0 2 (Js.natToString (getMonth now + 1)));
    ("Month" : str, default ("undefined" : str) (monthNames !! getMonth now));
    ("DD" : str, Js.padStart0 2 (Js.natToString (getDate now)));
    ("HH" : str, Js.padStart0 2 (Js.natToString (getHours now)));
    ("mm" : str, Js.padStart0 2 (Js.natToString (getMinutes now)));
    ("ss" : str, Js.padStart0 2 (Js.natToString (getSeconds now))) ].

(** The key that [setConfigValue] writes to *)
Definition normalizedKey (key : str) : str :=
  if Js.str_eqb key "downloads-mode" then "downloadsMode"
  else if Js.str_eqb key "screenshot-mode" then "screenshotMode"
  else key.

(** The value of a key in a map or, where it has none, in the paths of
    the default configuration *)
Definition orDefault (k : str) (l : list (str * str)) : option str :=
  match lookupKey k l with
  | Some v => Some v
  | None => lookupKey k (paths DEFAULT_CONFIG)
  end.

(** Loading the configuration gives [config] and, from then on, leaves
    the world as it is. *)
Definition settles (w : World) (config : FlowSquireConfig) : Prop :=
  snd (loadConfig w) = Ok config
  /\ loadConfig (fst (loadConfig w)) = (fst (loadConfig w), Ok config).

(** The names of the PDF templates that apply to a PDF file, in the
    order of their priorities *)
Definition pdfTemplatesFor (w : World) (filePath : str) : list str :=
  let stem := Js.toLowerCase (Path.basename2 filePath (Path.extname filePath)) in
  (if largerThan w filePath 8 then ["Large PDF Compression" : str] else []) ++
  (if Js.includes stem "invoice" then ["PDF Invoice Organizer" : str] else []) ++
  (if Js.includes stem "bank" then ["PDF Bank Statement Organizer" : str] else []) ++
  (if Js.includes stem "notes" then ["PDF Study Notes Organizer" : str] else []) ++
  ["PDF Default Organizer" : str].

End MoreVocabulary.

Section StoreVocabulary.
Context `{Host} `{Serializer}.

(** The first record of a list with a given identifier *)
Definition recordById {A} (key : A -> str) (k : str) (l : list A) : option A :=
  List.find (fun r => Js.str_eqb (key r) k) l.

Definition hasId {A} (key : A -> str) (k : str) (l : list A) : bool :=
  existsb (fun r => Js.str_eqb (key r) k) l.

(** The replace-or-push of [saveRule] and [saveRun] *)
Definition upsert {A} (key : A -> str) (x : A) (l : list A) : list A :=
  match findIndex (fun r => Js.str_eqb (key r) (key x)) l with
  | Some i => <[i := x]> l
  | None => l ++ [x]
  end.

(** No condition of the rule compares with NaN or an infinity. *)
Definition finiteValues (rule : Rule) : Prop :=
  Forall (fun c => match cond_value c with
                   | VNum NaN | VNum (Infinity _) => False
                   | _ => True
                   end) (conditions rule).

(** The rules file can be written: the directory of the store is not a
    regular file, and no directory sits where the file goes. *)
Definition rulesUsable (s : Store) : Prop :=
  Fs.isFile (db_world s) DB_DIR = false /\ Fs.isDir (db_world s) RULES_FILE = false.

Definition runsUsable (s : Store) : Prop :=
  Fs.isFile (db_world s) DB_DIR = false /\ Fs.isDir (db_world s) RUNS_FILE = false.

(** No file is at [filePath], or a file that holds no JSON text. *)
Definition unreadable (s : Store) (filePath : str) {A} (document : option (Json A)) : Prop :=
  Fs.isFile (db_world s) filePath = false \/ document = None.

(** What [getRules] reads *)
Definition rulesRead (s : Store) : Json Rule :=
  if Fs.isFile (db_world s) RULES_FILE then
    match rulesDocument s with
    | Some data => data
    | None => JsonArray []
    end
  else JsonArray [].

(** What [getRuns] reads *)
Definition runsRead (s : Store) : Json RuleRun :=
  if Fs.isFile (db_world s) RUNS_FILE then
    match runsDocument s with
    | Some data => data
    | None => JsonArray []
    end
  else JsonArray [].

(** The store after [ensureDbDir] *)
Definition withStoreDir (s : Store) : Store :=
  {| db_world := withDbDir (db_world s); rulesDocument := rulesDocument s;
     runsDocument := runsDocument s |}.

(** The store after a write of the rules file that succeeds *)
Definition withRules (s : Store) (data : list Rule) : Store :=
  {| db_world := Fs.setEntries (withDbDir (db_world s))
                (<[RULES_FILE := Fs.fileStats (rulesJsonLength data)]>
                   (entries (withDbDir (db_world s))));
     rulesDocument := Some (JsonArray (map jsonRule data));
     runsDocument := runsDocument s |}.

(** The store after a write of the runs file that succeeds *)
Definition withRuns (s : Store) (data : list RuleRun) : Store :=
  {| db_world := Fs.setEntries (withDbDir (db_world s))
                (<[RUNS_FILE := Fs.fileStats (runsJsonLength data)]>
                   (entries (withDbDir (db_world s))));
     rulesDocument := rulesDocument s;
     runsDocument := Some (JsonArray data) |}.

(** The store after the actions of a rule have run in its world *)
Definition afterActions (rule : Rule) (filePath : str) (dryRun : bool)
    (metadata : option Metadata) (s : Store) : Store :=
  {| db_world := fst (executeActions (actions rule) filePath dryRun metadata (db_world s));
     rulesDocument := rulesDocument s;
     runsDocument := runsDocument s |}.

(** The store [s'] has the runs of [s] and the record [run], in the
    place of the record of [s] with its identifier when there is one,
    after the others when there is none. *)
Definition recorded (s s' : Store) (run : RuleRun) : Prop :=
  exists runs runs',
    getRuns None s = (s, Ok runs) /\ getRuns None s' = (s', Ok runs')
    /\ (forall k, recordById run_id k runs'
                  = if Js.str_eqb (run_id run) k then Some run
                    else recordById run_id k runs)
    /\ map run_id runs'
       = (if hasId run_id (run_id run) runs then map run_id runs
          else map run_id runs ++ [run_id run]).

(** The size of what is at a path, as [fs.stat] gives it *)
Definition sizeAt (w : World) (filePath : str) : option N :=
  st_size <$> Fs.statSync w filePath.

(** The metadata that [executeScreenshotRule] hands to the actions *)
Definition handedOn (captured : option ScreenshotMetadata) : option Metadata :=
  match captured with
  | Some metadata =>
      Some {| appName := Some (sm_appName metadata); domain := sm_domain metadata |}
  | None => None
  end.

(** What a run of a rule leaves in the store: the call returns, the
    record of the run is in the store, and the record says what the
    actions did. *)
Definition recordsRun (rule : Rule) (filePath : str) (dryRun : bool)
    (metadata : option Metadata) (draw : Draw) (s : Store)
    (outcome : Store * result unit) : Prop :=
  let started := startedRun dryRun rule filePath (sizeAt (db_world s) filePath) draw in
  let results :=
    snd (executeActions (actions rule) filePath dryRun metadata
           (db_world (fst (saveRun started s)))) in
  exists finished,
    snd outcome = Ok tt
    /\ recorded s (fst outcome) finished
    /\ run_id finished = draw_runId draw
    /\ run_ruleId finished = id rule
    /\ run_dryRun finished = dryRun
    /\ run_fileSize finished = sizeAt (db_world s) filePath
    /\ run_actions finished = results
    /\ run_status finished = (if forallb isSuccess results then R_completed else R_failed)
    /\ run_destinationPath finished
       = (if existsb isSuccess results
          then Some (lastDestination filePath results) else None).




(** The folder that a rule is watched in, for a configuration *)
Definition watchedFolder (config : FlowSquireConfig) (rule : Rule) : option str :=
  match trig_type (trigger rule) with
  | manual => None
  | _ =>
      match truthy (trig_folder (trigger rule)) with
      | Some folderTemplate =>
          truthy (Some (replaceTemplateVariables folderTemplate config None))
      | None => None
      end
  end.

Definition watchedIn (config : FlowSquireConfig) (folder : str) (rule : Rule) : bool :=
  enabled rule && bool_decide (watchedFolder config rule = Some folder).

(** The rules of a folder in a map, none when the folder is no key *)
Definition groupOf (m : list (str * list Rule)) (folder : str) : list Rule :=
  default [] (snd <$> List.find (fun kv => Js.str_eqb (fst kv) folder) m).

(** One round of the loop of [groupRulesByFolder], for a configuration
    that stays the same *)
Definition groupStep (config : FlowSquireConfig) (m : list (str * list Rule))
    (rule : Rule) : list (str * list Rule) :=
  if enabled rule
  then match watchedFolder config rule with
       | Some folder => Map_push m folder rule
       | None => m
       end
  else m.

Definition grouped (config : FlowSquireConfig) (rules : list Rule)
    (m : list (str * list Rule)) : list (str * list Rule) :=
  foldl (groupStep config) m rules.

End StoreVocabulary.

(** * Properties *)

(** Node's answers on a few inputs, as a check of the embedding *)
Example ex_basename : Path.basename "/tmp/in/report.pdf" = "report.pdf".
Proof. reflexivity. Qed.
Example ex_basename2 : Path.basename2 "/tmp/in/report.pdf/" ".pdf" = "report".
Proof. reflexivity. Qed.
Example ex_extname :
  map Path.extname (strs ["a.pdf"; ".bashrc"; ".."; "..."; "a."; "x/y.tar.gz/"; "noext"; "a.b/c"])
  = strs [".pdf"; ""; ""; "."; "."; ".gz"; ""; ""].
Proof. reflexivity. Qed.
Example ex_dirname :
  map Path.dirname (strs ["a.pdf"; "/a"; "//a"; "/a/b"; "a//b"; "a/b/"; ""; "/"])
  = strs ["."; "/"; "//"; "/a"; "a/"; "a"; "."; "/"].
Proof. reflexivity. Qed.
Example ex_join :
  map (fun ab => Path.join (fst ab) (snd ab))
      (zip (strs ["."; "/x/y"; ""; "a/"; "../.."; "/.."; "a"; "/"])
           (strs ["a-1.pdf"; "../z"; ""; "b/"; "a"; "a"; ""; "-1"]))
  = strs ["a-1.pdf"; "/x/z"; "."; "a/b/"; "../../a"; "/a"; "a"; "/-1"].
Proof. reflexivity. Qed.
Example ex_replaceAll :
  [Js.replaceAll "a{x}b{x}" "{x}" "Q"; Js.replaceAll "aaa" "aa" "b"; Js.replaceAll "ab" "" "-";
   Js.replaceAll "a{x}b" "{x}" "[$&$$$`$'$1]"]
  = strs ["aQbQ"; "ba"; "-a-b-"; "a[{x}$ab$1]b"].
Proof. reflexivity. Qed.
Example ex_misc :
  [Js.padStart0 2 (Js.natToString 2); Js.trim "  a  b "; Js.collapseSpaces false " a   b  ";
   Js.toLowerCase "A.PdF"]
  = strs ["02"; "a  b"; " a b "; "a.pdf"].
Proof. reflexivity. Qed.

(** ** The compression adapter *)
Section CompressionFacts.
Context `{Host}.

Lemma compressPdf_missing_source sourcePath destinationPath quality w :
  Fs.exists_ w sourcePath = false ->
  compressPdf sourcePath destinationPath quality w
  = (w, Err (newError (sourceNotFound sourcePath))).
Proof.
  intros Hno. unfold compressPdf, bind, try_catch, Fs.access, throw.
  now rewrite Hno.
Qed.

Lemma compressPdf_present_source sourcePath destinationPath quality w :
  Fs.exists_ w sourcePath = true ->
  compressPdf sourcePath destinationPath quality w
  = runGhostscript (pdfSettings quality) sourcePath destinationPath w.
Proof.
  intros Hyes. unfold compressPdf, bind, try_catch, Fs.access.
  now rewrite Hyes.
Qed.

(** C9. [compressPdf] fails with the source-not-found message, and starts
    no process, when nothing exists at the source path; otherwise it
    fails with the message that asks for Ghostscript when the process
    cannot be started, fails with the exit code and the captured
    diagnostic text when the process ends with a code other than zero,
    and succeeds exactly when the process ends with code zero.  The three
    messages differ from one another. *)
Theorem compressPdf_outcomes (sourcePath destinationPath : str) (quality : Quality)
    (w : World) :
  let outcome := toolOutcome sourcePath destinationPath quality w in
  let run := compressPdf sourcePath destinationPath quality w in
  (Fs.exists_ w sourcePath = false ->
     snd run = Err (newError (sourceNotFound sourcePath)) /\
     spawned (fst run) = spawned w)
  /\ (Fs.exists_ w sourcePath = true -> forall msg,
        outcome = SpawnFailed msg ->
        snd run = Err (newError (toolNotFound msg)))
  /\ (Fs.exists_ w sourcePath = true -> forall exitCode errorOutput n,
        outcome = Closed exitCode errorOutput n -> exitCode <> Some 0%Z ->
        snd run = Err (newError (toolFailed exitCode errorOutput)))
  /\ (snd run = Ok tt <->
        Fs.exists_ w sourcePath = true /\
        exists errorOutput n, outcome = Closed (Some 0%Z) errorOutput n)
  /\ (forall msg exitCode errorOutput,
        toolNotFound msg <> sourceNotFound sourcePath /\
        toolNotFound msg <> toolFailed exitCode errorOutput /\
        toolFailed exitCode errorOutput <> sourceNotFound sourcePath).
Proof.
  intros outcome run. subst outcome run. unfold toolOutcome.
  split; [|split; [|split; [|split]]].
  - intros Hno. rewrite compressPdf_missing_source by assumption. now split.
  - intros Hyes msg Hout. rewrite compressPdf_present_source by assumption.
    unfold runGhostscript. now rewrite Hout.
  - intros Hyes exitCode errorOutput n Hout Hcode.
    rewrite compressPdf_present_source by assumption.
    unfold runGhostscript. rewrite Hout.
    rewrite bool_decide_eq_false_2 by assumption. reflexivity.
  - destruct (Fs.exists_ w sourcePath) eqn:Hex.
    + rewrite compressPdf_present_source by assumption.
      unfold runGhostscript.
      destruct (ghostscript _ _ _) as [msg|exitCode errorOutput n].
      * split; [discriminate|]. intros [_ (e & n & Hc)]. discriminate.
      * destruct (bool_decide (exitCode = Some 0%Z)) eqn:Hc.
        -- apply bool_decide_eq_true_1 in Hc. subst exitCode. split; eauto.
        -- apply bool_decide_eq_false_1 in Hc. split; [discriminate|].
           intros [_ (e & m & Hout)]. congruence.
    + rewrite compressPdf_missing_source by assumption.
      split; [discriminate|]. intros [Hyes _]. discriminate.
  - intros msg exitCode errorOutput. repeat split; discriminate.
Qed.

End CompressionFacts.

(** ** Sorting by priority *)
Section SortFacts.
Context {A : Type} (key : A -> Z).

Lemma Array_insert_perm x l :
  Permutation (x :: l) (Array_insert (byKeyDescending key) x l).
Proof.
  induction l as [|y l IH]; simpl; [reflexivity|].
  destruct (0 <? byKeyDescending key x y)%Z; [|reflexivity].
  rewrite perm_swap. now apply perm_skip.
Qed.

Lemma Array_sort_perm l : Permutation l (Array_sort (byKeyDescending key) l).
Proof.
  induction l as [|x l IH]; simpl; [reflexivity|].
  etransitivity; [apply perm_skip, IH|apply Array_insert_perm].
Qed.

Lemma Array_insert_sorted x l :
  StronglySorted (descending key) l ->
  StronglySorted (descending key) (Array_insert (byKeyDescending key) x l).
Proof.
  induction 1 as [|y l Hs IH Hy]; simpl.
  - repeat constructor.
  - destruct (0 <? byKeyDescending key x y)%Z eqn:Hcmp.
    + apply Z.ltb_lt in Hcmp. constructor; [assumption|].
      eapply Permutation_Forall; [apply Array_insert_perm|].
      constructor; [|assumption].
      unfold descending, byKeyDescending in *. lia.
    + apply Z.ltb_ge in Hcmp. constructor; [now constructor|].
      constructor.
      * unfold descending, byKeyDescending in *. lia.
      * eapply List.Forall_impl; [|exact Hy].
        intros z Hz. unfold descending, byKeyDescending in *. lia.
Qed.

Lemma Array_sort_sorted l :
  StronglySorted (descending key) (Array_sort (byKeyDescending key) l).
Proof.
  induction l as [|x l IH]; simpl; [constructor|].
  now apply Array_insert_sorted.
Qed.

(** Stability: the elements of one priority keep their order. *)
Lemma Array_insert_stable p x l :
  List.filter (hasKey key p) (Array_insert (byKeyDescending key) x l)
  = List.filter (hasKey key p) (x :: l).
Proof.
  induction l as [|y l IH]; [reflexivity|].
  cbn [Array_insert].
  destruct (0 <? byKeyDescending key x y)%Z eqn:Hcmp; [|reflexivity].
  apply Z.ltb_lt in Hcmp. unfold byKeyDescending in Hcmp.
  cbn [List.filter] in *. rewrite IH. unfold hasKey.
  destruct (key y =? p)%Z eqn:Hy, (key x =? p)%Z eqn:Hx; try reflexivity.
  apply Z.eqb_eq in Hy, Hx. lia.
Qed.

Lemma Array_sort_stable p l :
  List.filter (hasKey key p) (Array_sort (byKeyDescending key) l)
  = List.filter (hasKey key p) l.
Proof.
  induction l as [|x l IH]; [reflexivity|].
  cbn [Array_sort foldr]. rewrite Array_insert_stable.
  cbn [List.filter]. fold (Array_sort (byKeyDescending key) l). now rewrite IH.
Qed.

Lemma Array_sort_sorted_input l :
  StronglySorted (descending key) l -> Array_sort (byKeyDescending key) l = l.
Proof.
  induction 1 as [|x l Hs IH Hx]; [reflexivity|].
  cbn [Array_sort foldr]. fold (Array_sort (byKeyDescending key) l). rewrite IH.
  destruct Hx as [|y l Hy _]; [reflexivity|].
  cbn [Array_insert].
  destruct (0 <? byKeyDescending key x y)%Z eqn:Hcmp; [|reflexivity].
  apply Z.ltb_lt in Hcmp. unfold descending, byKeyDescending in *. lia.
Qed.

Lemma StronglySorted_filter (f : A -> bool) l :
  StronglySorted (descending key) l -> StronglySorted (descending key) (List.filter f l).
Proof.
  induction 1 as [|x l Hs IH Hx]; simpl; [constructor|].
  destruct (f x); [|assumption].
  constructor; [assumption|].
  rewrite List.Forall_forall in *. intros y Hy.
  apply List.filter_In in Hy. now apply Hx.
Qed.

Lemma filter_filter_comm (f g : A -> bool) l :
  List.filter f (List.filter g l) = List.filter g (List.filter f l).
Proof.
  induction l as [|x l IH]; [reflexivity|]. simpl.
  destruct (f x) eqn:Hf, (g x) eqn:Hg; simpl; rewrite ?Hf, ?Hg, IH; reflexivity.
Qed.

End SortFacts.

(** ** Rule selection *)
Section SelectionFacts.
Context `{Host}.

Lemma findMatchingRules_fst w rules filePath :
  fst (findMatchingRules w rules filePath)
  = List.filter (matchesFile w filePath) (Array_sort (byKeyDescending priority) rules).
Proof. reflexivity. Qed.

Lemma findMatchingRules_snd w rules filePath :
  snd (findMatchingRules w rules filePath) = Array_sort (byKeyDescending priority) rules.
Proof. reflexivity. Qed.

(** C5. The rules that [findMatchingRules] returns are in descending
    order of priority, and the rules of one priority are in the order
    they have in the input; matching rules of priorities 100, 500, 300
    come out as 500, 300, 100. *)
Theorem findMatchingRules_priority_order (w : World) (rules : list Rule) (filePath : str) :
  let selected := fst (findMatchingRules w rules filePath) in
  StronglySorted (descending priority) selected
  /\ (forall p : Z,
        List.filter (hasKey priority p) selected
        = List.filter (hasKey priority p) (List.filter (matchesFile w filePath) rules))
  /\ map priority
       (fst (findMatchingRules w
               [Demo.rule "a" 100 []; Demo.rule "b" 500 []; Demo.rule "c" 300 []] filePath))
     = [500; 300; 100]%Z.
Proof.
  cbv zeta. rewrite findMatchingRules_fst. split; [|split].
  - apply StronglySorted_filter, Array_sort_sorted.
  - intros p. rewrite filter_filter_comm, Array_sort_stable.
    apply filter_filter_comm.
  - reflexivity.
Qed.

(** C8, as the code has it.  The call sorts the caller's list in place:
    afterwards the list holds the same rules, none of them changed, in
    descending order of priority with the rules of one priority in their
    former order; it is the list it was exactly when that list was
    already in descending order of priority. *)
Theorem findMatchingRules_reorders_input (w : World) (rules : list Rule) (filePath : str) :
  let after := snd (findMatchingRules w rules filePath) in
  Permutation rules after
  /\ StronglySorted (descending priority) after
  /\ (forall p : Z,
        List.filter (hasKey priority p) after = List.filter (hasKey priority p) rules)
  /\ (after = rules <-> StronglySorted (descending priority) rules).
Proof.
  cbv zeta. rewrite findMatchingRules_snd. split; [|split; [|split]].
  - apply Array_sort_perm.
  - apply Array_sort_sorted.
  - intros p. apply Array_sort_stable.
  - split.
    + intros <-. apply Array_sort_sorted.
    + apply Array_sort_sorted_input.
Qed.


Lemma findMatchingRules_In w rules filePath R :
  In R (fst (findMatchingRules w rules filePath))
  <-> In R rules /\ evaluateConditions w (conditions R) filePath = true.
Proof.
  rewrite findMatchingRules_fst, List.filter_In. unfold matchesFile.
  split; intros [Hin Hm]; split; try assumption.
  - eapply Permutation_in; [symmetry; apply Array_sort_perm|eassumption].
  - eapply Permutation_in; [apply Array_sort_perm|eassumption].
Qed.


End SelectionFacts.

(** ** Facts about the string primitives *)
Section JsFacts.

Lemma chr_eqb_eq a b : Js.chr_eqb a b = true <-> a = b.
Proof. apply Ascii.eqb_eq. Qed.

Lemma chr_eqb_refl a : Js.chr_eqb a a = true.
Proof. now apply chr_eqb_eq. Qed.

Lemma str_eqb_eq a b : Js.str_eqb a b = true <-> a = b.
Proof. unfold Js.str_eqb. apply bool_decide_eq_true. Qed.

Lemma startsWith_spec s p : Js.startsWith s p = true <-> exists t, s = p ++ t.
Proof.
  revert s. induction p as [|x p IH]; intros s; simpl.
  - split; [intros _; now exists s|reflexivity].
  - destruct s as [|y s].
    + split; [discriminate|]. intros [t Ht]. discriminate.
    + rewrite andb_true_iff, chr_eqb_eq, IH. split.
      * intros [-> [t ->]]. now exists t.
      * intros [t Ht]. injection Ht as -> ->. split; [reflexivity|now exists t].
Qed.

Lemma startsWith_app p t : Js.startsWith (p ++ t) p = true.
Proof. apply startsWith_spec. now exists t. Qed.

Lemma endsWith_spec s p : Js.endsWith s p = true <-> exists t, s = t ++ p.
Proof.
  unfold Js.endsWith. rewrite startsWith_spec. split.
  - intros [t Ht]. exists (rev t).
    rewrite <- (rev_involutive s), Ht, rev_app_distr, rev_involutive. reflexivity.
  - intros [t ->]. exists (rev t). apply rev_app_distr.
Qed.

Lemma endsWith_app t p : Js.endsWith (t ++ p) p = true.
Proof. apply endsWith_spec. now exists t. Qed.

Lemma endsWith_nil s : Js.endsWith s [] = true.
Proof. apply endsWith_spec. exists s. now rewrite app_nil_r. Qed.

Lemma lowerChar_idem c : Js.lowerChar (Js.lowerChar c) = Js.lowerChar c.
Proof. destruct c as [[] [] [] [] [] [] [] []]; reflexivity. Qed.

Lemma toLowerCase_idem s : Js.toLowerCase (Js.toLowerCase s) = Js.toLowerCase s.
Proof.
  unfold Js.toLowerCase. rewrite List.map_map.
  apply List.map_ext. intros c. apply lowerChar_idem.
Qed.

Lemma list_ascii_of_string_inj a b :
  String.list_ascii_of_string a = String.list_ascii_of_string b -> a = b.
Proof.
  intros E. rewrite <- (String.string_of_list_ascii_of_string a),
    <- (String.string_of_list_ascii_of_string b). now rewrite E.
Qed.

Lemma natToString_inj n m : Js.natToString n = Js.natToString m -> n = m.
Proof.
  unfold Js.natToString. intros E. apply list_ascii_of_string_inj in E.
  assert (E' : NilEmpty.uint_of_string (NilEmpty.string_of_uint (Nat.to_uint n))
               = NilEmpty.uint_of_string (NilEmpty.string_of_uint (Nat.to_uint m)))
    by now rewrite E.
  rewrite !NilEmpty.usu in E'. injection E' as E'.
  rewrite <- (DecimalNat.Unsigned.of_to n), <- (DecimalNat.Unsigned.of_to m).
  now rewrite E'.
Qed.

Lemma string_of_uint_digits d :
  Forall (fun c => Js.isDigit c = true)
         (String.list_ascii_of_string (NilEmpty.string_of_uint d)).
Proof. induction d; simpl; constructor; auto. Qed.

Lemma natToString_digits n : Forall (fun c => Js.isDigit c = true) (Js.natToString n).
Proof. apply string_of_uint_digits. Qed.

Lemma getSubstitution_plain matched before after rep :
  Forall (fun c => Js.chr_eqb c "$" = false) rep ->
  Js.getSubstitution matched before after rep = rep.
Proof.
  induction 1 as [|c rep Hc _ IH]; [reflexivity|].
  cbn [Js.getSubstitution]. rewrite Hc. now rewrite IH.
Qed.

Lemma joinWith_snoc sep l x :
  l <> [] -> Js.joinWith sep (l ++ [x]) = Js.joinWith sep l ++ sep ++ x.
Proof.
  induction l as [|y l IH]; [congruence|]. intros _.
  destruct l as [|z l]; [reflexivity|].
  change (Js.joinWith sep ((y :: z :: l) ++ [x]))
    with (y ++ sep ++ Js.joinWith sep ((z :: l) ++ [x])).
  rewrite IH by discriminate.
  change (Js.joinWith sep (y :: z :: l)) with (y ++ sep ++ Js.joinWith sep (z :: l)).
  now rewrite <- !app_assoc.
Qed.

End JsFacts.

(** ** Facts about paths *)
Section PathFacts.

Lemma takeWhile_dropWhile f s : Path.takeWhile f s ++ Path.dropWhile f s = s.
Proof.
  induction s as [|c s IH]; [reflexivity|]. simpl.
  destruct (f c); [simpl; now rewrite IH|reflexivity].
Qed.

Lemma takeWhile_Forall f s : Forall (fun c => f c = true) (Path.takeWhile f s).
Proof.
  induction s as [|c s IH]; simpl; [constructor|].
  destruct (f c) eqn:E; constructor; assumption.
Qed.

Lemma dropWhile_head f s c t : Path.dropWhile f s = c :: t -> f c = false.
Proof.
  induction s as [|d s IH]; simpl; [discriminate|].
  destruct (f d) eqn:E; [assumption|]. intros [= -> _]. assumption.
Qed.

Lemma takeWhile_all f s : Forall (fun c => f c = true) s -> Path.takeWhile f s = s.
Proof.
  induction 1 as [|c s Hc _ IH]; [reflexivity|]. simpl. now rewrite Hc, IH.
Qed.

Lemma takeWhile_app_stop f a c t :
  Forall (fun x => f x = true) a -> f c = false ->
  Path.takeWhile f (a ++ c :: t) = a.
Proof.
  induction 1 as [|x a Hx _ IH]; intros Hc; simpl.
  - now rewrite Hc.
  - now rewrite Hx, IH.
Qed.

Lemma dropWhile_length f s : (length (Path.dropWhile f s) <= length s)%nat.
Proof.
  induction s as [|c s IH]; simpl; [lia|]. destruct (f c); simpl; lia.
Qed.

Lemma takeWhile_length f s : (length (Path.takeWhile f s) <= length s)%nat.
Proof.
  induction s as [|c s IH]; simpl; [lia|]. destruct (f c); simpl; lia.
Qed.

Lemma lastComponent_length p : (length (Path.lastComponent p) <= length p)%nat.
Proof.
  unfold Path.lastComponent. rewrite length_rev.
  etransitivity; [apply takeWhile_length|].
  etransitivity; [apply dropWhile_length|]. now rewrite length_rev.
Qed.

Lemma lastComponent_noSlash p : noSlash (Path.lastComponent p).
Proof.
  unfold noSlash, Path.lastComponent. apply Forall_rev.
  eapply List.Forall_impl; [|apply takeWhile_Forall].
  intros c Hc. now apply negb_true_iff in Hc.
Qed.

Lemma isDot_eq c : Path.isDot c = true <-> c = "."%char.
Proof. apply chr_eqb_eq. Qed.

Lemma isSlash_eq c : Path.isSlash c = true <-> c = "/"%char.
Proof. apply chr_eqb_eq. Qed.

(** The extension is the end of the last component, begins with a dot,
    and leaves a stem that is not empty. *)
Lemma extname_split p :
  Path.extname p = [] \/
  exists stem t, stem <> [] /\ Path.extname p = "."%char :: t /\
                 Path.lastComponent p = stem ++ Path.extname p.
Proof.
  unfold Path.extname.
  set (c := Path.lastComponent p).
  pose proof (takeWhile_dropWhile (fun x => negb (Path.isDot x)) (rev c)) as Hsplit.
  set (tail := Path.takeWhile (fun x => negb (Path.isDot x)) (rev c)) in *.
  clearbody tail.
  destruct (Path.dropWhile (fun x => negb (Path.isDot x)) (rev c))
    as [|dot [|x rest]] eqn:Hdrop; [now left|now left|].
  destruct (Js.str_eqb c ".."); [now left|]. right.
  apply dropWhile_head in Hdrop. apply negb_false_iff, isDot_eq in Hdrop. subst dot.
  exists (rev (x :: rest)), (rev tail).
  split; [|split; [reflexivity|]].
  - simpl. intros E. apply app_eq_nil in E as [_ E]. discriminate.
  - apply (f_equal (@rev ascii)) in Hsplit. rewrite rev_involutive in Hsplit.
    rewrite <- Hsplit, rev_app_distr. simpl.
    rewrite <- !app_assoc. reflexivity.
Qed.

Lemma noSlash_app a b : noSlash (a ++ b) <-> noSlash a /\ noSlash b.
Proof. apply Forall_app. Qed.

Lemma extname_noSlash p : noSlash (Path.extname p).
Proof.
  destruct (extname_split p) as [->|(stem & t & _ & _ & E)]; [constructor|].
  pose proof (lastComponent_noSlash p) as Hc. rewrite E in Hc.
  now apply noSlash_app in Hc.
Qed.

Lemma basename2_strip p stem ext :
  ext <> [] -> stem <> [] -> Path.lastComponent p = stem ++ ext ->
  Path.basename2 p ext = stem.
Proof.
  intros Hext Hstem E.
  pose proof (lastComponent_length p) as Hlen.
  assert (Hs : (0 < length stem)%nat) by (destruct stem; [congruence|simpl; lia]).
  rewrite E, length_app in Hlen.
  unfold Path.basename2. destruct ext as [|e ext']; [congruence|].
  set (ext := e :: ext') in *.
  replace (length p <? length ext)%nat with false
    by (symmetry; apply Nat.ltb_ge; lia).
  replace (Js.str_eqb ext p) with false.
  2:{ symmetry. apply bool_decide_eq_false. intros Ep.
      rewrite <- Ep in Hlen. lia. }
  cbv zeta. rewrite E, endsWith_app.
  replace (Js.str_eqb (stem ++ ext) ext) with false.
  2:{ symmetry. apply bool_decide_eq_false. intros Ep.
      apply (f_equal length) in Ep. rewrite length_app in Ep. lia. }
  rewrite length_app.
  replace (length stem + length ext - length ext)%nat with (length stem) by lia.
  now rewrite take_app_length.
Qed.

(** [path.basename(p, path.extname(p))] is the last component without
    its extension. *)
Lemma basename2_extname p :
  Path.lastComponent p = Path.basename2 p (Path.extname p) ++ Path.extname p.
Proof.
  destruct (extname_split p) as [->|(stem & t & Hstem & Hext & E)].
  - simpl. unfold Path.basename. now rewrite app_nil_r.
  - rewrite (basename2_strip p stem (Path.extname p)); try assumption.
    rewrite Hext. discriminate.
Qed.

Lemma basename2_extname_noSlash p : noSlash (Path.basename2 p (Path.extname p)).
Proof.
  pose proof (lastComponent_noSlash p) as Hc.
  rewrite basename2_extname in Hc. now apply noSlash_app in Hc.
Qed.

End PathFacts.

(** ** Letter case *)
Section CaseFacts.


Lemma isDot_lower c : Path.isDot (Js.lowerChar c) = Path.isDot c.
Proof. destruct c as [[] [] [] [] [] [] [] []]; reflexivity. Qed.





Lemma toLowerCase_length s : length (Js.toLowerCase s) = length s.
Proof. apply List.length_map. Qed.






End CaseFacts.

Section ConditionFacts.
Context `{Host}.








End ConditionFacts.

(** ** Joining a directory and a name *)
Section JoinFacts.

Lemma splitSlash_nonempty s : Path.splitSlash s <> [].
Proof.
  induction s as [|c s IH]; simpl; [discriminate|].
  destruct (Path.isSlash c); [discriminate|].
  destruct (Path.splitSlash s); discriminate.
Qed.

Lemma splitSlash_noSlash n : noSlash n -> Path.splitSlash n = [n].
Proof.
  induction 1 as [|c n Hc _ IH]; [reflexivity|].
  simpl. now rewrite Hc, IH.
Qed.

Lemma splitSlash_app_slash d n :
  noSlash n -> Path.splitSlash (d ++ "/"%char :: n) = Path.splitSlash d ++ [n].
Proof.
  intros Hn. induction d as [|c d IH].
  - simpl. now rewrite splitSlash_noSlash.
  - pose proof (splitSlash_nonempty d) as Hne.
    cbn [app Path.splitSlash]. rewrite IH.
    destruct (Path.isSlash c); [reflexivity|].
    destruct (Path.splitSlash d); [congruence|reflexivity].
Qed.

Lemma normSegs_app a l1 : forall st l2,
  Path.normSegs a st (l1 ++ l2) = Path.normSegs a (Path.normSegs a st l1) l2.
Proof.
  induction l1 as [|seg l1 IH]; intros st l2; [reflexivity|].
  cbn [app Path.normSegs].
  destruct (Js.str_eqb seg "" || Js.str_eqb seg "."); [apply IH|].
  destruct (Js.str_eqb seg ".."); [|apply IH].
  destruct st as [|top below]; [apply IH|].
  destruct (Js.str_eqb top ".."); apply IH.
Qed.

Lemma str_eqb_neq a b : a <> b -> Js.str_eqb a b = false.
Proof. intros Hne. now apply bool_decide_eq_false. Qed.

Lemma normSegs_plain a st n : plainName n -> Path.normSegs a st [n] = n :: st.
Proof.
  intros (Hne & _ & Hdot & Hdotdot). cbn [Path.normSegs].
  now rewrite !str_eqb_neq.
Qed.

Lemma hasTrailingSlash_plain x n :
  n <> [] -> noSlash n -> Path.hasTrailingSlash (x ++ n) = false.
Proof.
  intros Hne Hn. unfold Path.hasTrailingSlash. rewrite rev_app_distr.
  destruct (rev n) as [|c r] eqn:Hr.
  - apply (f_equal (@rev ascii)) in Hr. rewrite rev_involutive in Hr. now subst.
  - simpl. apply Forall_rev in Hn. rewrite Hr in Hn. now inversion Hn.
Qed.

Lemma normalize_plain n : plainName n -> Path.normalize n = n.
Proof.
  intros Hp. pose proof Hp as (Hne & Hn & _).
  destruct n as [|c n']; [congruence|].
  unfold Path.normalize.
  assert (Habs : Path.isAbsolute (c :: n') = false) by (inversion Hn; assumption).
  rewrite Habs, splitSlash_noSlash, normSegs_plain by assumption.
  cbn [rev app Js.joinWith negb].
  pose proof (hasTrailingSlash_plain [] (c :: n') Hne Hn) as Htr.
  cbn [app] in Htr. rewrite Htr.
  cbn [app]. now rewrite app_nil_r.
Qed.

Lemma join_plain d n : plainName n -> Path.join d n = joinPrefix d ++ n.
Proof.
  intros Hp. pose proof Hp as (Hne & Hn & _).
  destruct d as [|c d'].
  - destruct n as [|c' n']; [congruence|].
    cbn [Path.join joinPrefix app]. now apply normalize_plain.
  - destruct n as [|c' n']; [congruence|].
    set (n := c' :: n') in *. set (d := c :: d') in *.
    change (Path.join d n) with (Path.normalize (d ++ "/"%char :: n)).
    unfold Path.normalize, joinPrefix. subst d. cbn [app].
    change (Path.isAbsolute (c :: d' ++ "/"%char :: n)) with (Path.isAbsolute (c :: d')).
    change (c :: d' ++ "/"%char :: n) with ((c :: d') ++ "/"%char :: n).
    set (d := c :: d').
    rewrite splitSlash_app_slash, normSegs_app, normSegs_plain by assumption.
    assert (Htr : Path.hasTrailingSlash (d ++ "/"%char :: n) = false).
    { change (d ++ "/"%char :: n) with (d ++ ["/"%char] ++ n).
      rewrite app_assoc. now apply hasTrailingSlash_plain. }
    rewrite Htr. cbn [rev].
    destruct (Path.normSegs (negb (Path.isAbsolute d)) [] (Path.splitSlash d))
      as [|top below] eqn:Hst.
    + cbn [rev app Js.joinWith]. subst n. cbn [app].
      rewrite !app_nil_r. reflexivity.
    + rewrite joinWith_snoc.
      2:{ cbn [rev]. intros E. apply app_eq_nil in E as [_ E]. discriminate. }
      destruct (Js.joinWith "/" (rev (top :: below)) ++ "/" ++ n) as [|b0 body] eqn:Hb.
      * apply app_eq_nil in Hb as [_ Hb]. discriminate.
      * rewrite <- Hb, app_nil_r, <- !app_assoc. reflexivity.
Qed.

Lemma joinPrefix_shape d : joinPrefix d = [] \/ exists q, joinPrefix d = q ++ "/".
Proof.
  unfold joinPrefix. destruct d as [|c d']; [now left|].
  destruct (Path.normSegs _ [] _) as [|top below].
  - destruct (Path.isAbsolute (c :: d')); [right; now exists []|now left].
  - right. exists ((if Path.isAbsolute (c :: d') then "/" else "")
                   ++ Js.joinWith "/" (rev (top :: below))).
    now rewrite <- app_assoc.
Qed.

Lemma lastComponent_after_prefix P n :
  (P = [] \/ exists q, P = q ++ "/") -> n <> [] -> noSlash n ->
  Path.lastComponent (P ++ n) = n.
Proof.
  intros HP Hne Hn. unfold Path.lastComponent. rewrite rev_app_distr.
  assert (Hrn : Forall (fun c => negb (Path.isSlash c) = true) (rev n)).
  { apply Forall_rev. eapply List.Forall_impl; [|exact Hn].
    intros c Hc. now rewrite Hc. }
  destruct (rev n) as [|c r] eqn:Hr.
  { apply (f_equal (@rev ascii)) in Hr. rewrite rev_involutive in Hr. now subst. }
  assert (Hc : Path.isSlash c = false).
  { inversion Hrn as [|? ? Hc' _]. now apply negb_true_iff in Hc'. }
  cbn [app Path.dropWhile]. rewrite Hc.
  change (c :: r ++ rev P) with ((c :: r) ++ rev P).
  destruct HP as [->|[q ->]].
  - cbn [rev]. rewrite app_nil_r, takeWhile_all by assumption.
    rewrite <- Hr. apply rev_involutive.
  - rewrite rev_app_distr. cbn [rev app String.list_ascii_of_string].
    change (c :: r ++ "/"%char :: rev q) with ((c :: r) ++ "/"%char :: rev q).
    rewrite takeWhile_app_stop by (assumption || reflexivity).
    rewrite <- Hr. apply rev_involutive.
Qed.

Lemma basename_join_plain d n : plainName n -> Path.basename (Path.join d n) = n.
Proof.
  intros Hp. rewrite join_plain by assumption.
  destruct Hp as (Hne & Hn & _).
  apply lastComponent_after_prefix; try assumption. apply joinPrefix_shape.
Qed.

Lemma normalize_nonempty p : Path.normalize p <> [].
Proof.
  unfold Path.normalize. destruct p as [|c p']; [discriminate|].
  destruct (Js.joinWith _ _) as [|b body].
  - destruct (Path.isAbsolute _); [discriminate|].
    destruct (Path.hasTrailingSlash _); discriminate.
  - destruct (Path.isAbsolute _); discriminate.
Qed.

Lemma join_nonempty a b : Path.join a b <> [].
Proof.
  unfold Path.join. destruct a, b; try apply normalize_nonempty. discriminate.
Qed.

End JoinFacts.

(** ** Collision resolution *)
Section CollisionFacts.

Lemma isDigit_noSlash c : Js.isDigit c = true -> Path.isSlash c = false.
Proof.
  destruct c as [[] [] [] [] [] [] [] []]; vm_compute; congruence.
Qed.

Lemma natToString_noSlash n : noSlash (Js.natToString n).
Proof.
  eapply List.Forall_impl; [|apply natToString_digits].
  apply isDigit_noSlash.
Qed.

Lemma candidateName_dash p k : In "-"%char (candidateName p k).
Proof.
  unfold candidateName. apply in_or_app. right. now left.
Qed.

Lemma candidateName_plain p k : plainName (candidateName p k).
Proof.
  pose proof (candidateName_dash p k) as Hd.
  repeat split.
  - intros E. now rewrite E in Hd.
  - unfold candidateName. apply noSlash_app. split.
    + apply basename2_extname_noSlash.
    + apply noSlash_app. split; [repeat constructor|].
      apply noSlash_app. split; [apply natToString_noSlash|apply extname_noSlash].
  - intros E. rewrite E in Hd. simpl in Hd. intuition discriminate.
  - intros E. rewrite E in Hd. simpl in Hd. intuition discriminate.
Qed.

Lemma collisionCandidate_eq p k :
  collisionCandidate p k = joinPrefix (Path.dirname p) ++ candidateName p k.
Proof. unfold collisionCandidate. apply join_plain, candidateName_plain. Qed.

Lemma collisionCandidate_inj p k m :
  collisionCandidate p k = collisionCandidate p m -> k = m.
Proof.
  rewrite !collisionCandidate_eq. intros E.
  apply app_inv_head in E. unfold candidateName in E.
  apply app_inv_head in E. apply app_inv_head in E.
  apply app_inv_tail in E. now apply natToString_inj.
Qed.

Lemma collisionCandidate_in_entries w p k :
  Fs.exists_ w (collisionCandidate p k) = true ->
  collisionCandidate p k ∈ dom (entries w).
Proof.
  unfold Fs.exists_, Fs.lookupPath.
  pose proof (candidateName_dash p k) as Hd.
  assert (Hin : In "-"%char (collisionCandidate p k)).
  { rewrite collisionCandidate_eq. apply in_or_app. now right. }
  destruct (Js.str_eqb (collisionCandidate p k) ".") eqn:E1.
  { apply str_eqb_eq in E1. rewrite E1 in Hin. simpl in Hin. intuition discriminate. }
  destruct (Js.str_eqb (collisionCandidate p k) "/") eqn:E2.
  { apply str_eqb_eq in E2. rewrite E2 in Hin. simpl in Hin. intuition discriminate. }
  cbn [orb]. destruct (entries w !! collisionCandidate p k) eqn:E; [|discriminate].
  intros _. apply elem_of_dom. eauto.
Qed.

Lemma resolveCollision_loop_None fuel w p : forall c,
  resolveCollision_loop fuel w p c = None ->
  forall k, (c <= k < c + fuel)%nat -> Fs.exists_ w (collisionCandidate p k) = true.
Proof.
  induction fuel as [|fuel IH]; intros c Hloop k Hk; [lia|].
  cbn [resolveCollision_loop] in Hloop.
  destruct (Fs.exists_ w (collisionCandidate p c)) eqn:Hex; [|discriminate].
  destruct (decide (k = c)) as [->|Hne]; [assumption|].
  apply (IH (S c)); [assumption|lia].
Qed.

Lemma resolveCollision_loop_Some fuel w p : forall c x,
  resolveCollision_loop fuel w p c = Some x ->
  exists n, (c <= n)%nat /\ x = collisionCandidate p n /\
            Fs.exists_ w x = false /\
            forall k, (c <= k < n)%nat -> Fs.exists_ w (collisionCandidate p k) = true.
Proof.
  induction fuel as [|fuel IH]; intros c x Hloop; [discriminate|].
  cbn [resolveCollision_loop] in Hloop.
  destruct (Fs.exists_ w (collisionCandidate p c)) eqn:Hex.
  - apply IH in Hloop as (n & Hn & -> & Hfree & Hbusy).
    exists n. repeat split; try assumption; [lia|].
    intros k Hk. destruct (decide (k = c)) as [->|Hne]; [assumption|].
    apply Hbusy. lia.
  - injection Hloop as <-. exists c. repeat split; try assumption; [lia|].
    intros k Hk. lia.
Qed.

(** The loop ends: the candidates are pairwise different, so they cannot
    all be among the entries of the file system. *)
Lemma resolveCollision_loop_total w p :
  exists x, resolveCollision_loop (S (size (entries w))) w p 1 = Some x.
Proof.
  destruct (resolveCollision_loop _ w p 1) as [x|] eqn:Hloop; [now exists x|].
  exfalso.
  pose proof (resolveCollision_loop_None _ _ _ _ Hloop) as Hall.
  set (n := size (entries w)) in *.
  set (l := collisionCandidate p <$> seq 1 (S n)).
  assert (Hnd : NoDup l).
  { apply NoDup_fmap_2_strong; [|apply NoDup_seq].
    intros k m _ _. apply collisionCandidate_inj. }
  assert (Hsub : list_to_set (C := gset str) l ⊆ dom (entries w)).
  { intros x Hx. apply elem_of_list_to_set in Hx.
    apply list_elem_of_fmap in Hx as (k & -> & Hk).
    apply elem_of_seq in Hk. apply collisionCandidate_in_entries, Hall. lia. }
  apply subseteq_size in Hsub.
  rewrite size_list_to_set, size_dom in Hsub by assumption.
  subst l. rewrite length_fmap, length_seq in Hsub. fold n in Hsub. lia.
Qed.

Lemma resolveCollision_dry filePath w :
  resolveCollision filePath true w = (w, Ok filePath).
Proof. reflexivity. Qed.

Lemma resolveCollision_free filePath w :
  Fs.exists_ w filePath = false ->
  resolveCollision filePath false w = (w, Ok filePath).
Proof.
  intros Hno. unfold resolveCollision, try_catch, bind, Fs.access.
  now rewrite Hno.
Qed.

Lemma resolveCollision_busy filePath w :
  Fs.exists_ w filePath = true ->
  exists n, (1 <= n)%nat /\
    resolveCollision filePath false w = (w, Ok (collisionCandidate filePath n)) /\
    Fs.exists_ w (collisionCandidate filePath n) = false /\
    forall k, (1 <= k < n)%nat -> Fs.exists_ w (collisionCandidate filePath k) = true.
Proof.
  intros Hyes. unfold resolveCollision, try_catch, bind, Fs.access.
  rewrite Hyes.
  destruct (resolveCollision_loop_total w filePath) as [x Hx]. rewrite Hx.
  apply resolveCollision_loop_Some in Hx as (n & Hn & -> & Hfree & Hbusy).
  exists n. repeat split; assumption.
Qed.

Lemma resolveCollision_world filePath dryRun w :
  fst (resolveCollision filePath dryRun w) = w.
Proof.
  destruct dryRun; [reflexivity|].
  destruct (Fs.exists_ w filePath) eqn:Hex.
  - destruct (resolveCollision_busy _ _ Hex) as (n & _ & -> & _). reflexivity.
  - now rewrite resolveCollision_free.
Qed.

(** C3. [resolveCollision] returns the path itself in dry-run mode, and
    when nothing exists at the path; otherwise it returns the candidate
    of the least counter, counted from one, at which nothing exists.
    The file name of a candidate is the stem, a dash, the counter and
    the extension.  The call leaves the world as it is, so that a second
    call gives the same path; with a.pdf present the result for a.pdf is
    a-1.pdf, and with a-1.pdf present as well it is a-2.pdf. *)
Theorem resolveCollision_first_free (w : World) (filePath : str) :
  resolveCollision filePath true w = (w, Ok filePath)
  /\ (Fs.exists_ w filePath = false ->
      resolveCollision filePath false w = (w, Ok filePath))
  /\ (Fs.exists_ w filePath = true ->
      exists n, (1 <= n)%nat /\
        resolveCollision filePath false w = (w, Ok (collisionCandidate filePath n)) /\
        Fs.exists_ w (collisionCandidate filePath n) = false /\
        forall k, (1 <= k < n)%nat ->
                  Fs.exists_ w (collisionCandidate filePath k) = true)
  /\ (forall n,
        Path.basename (collisionCandidate filePath n)
        = Path.basename2 filePath (Path.extname filePath) ++
          "-" ++ Js.natToString n ++ Path.extname filePath)
  /\ (forall dryRun,
        resolveCollision filePath dryRun (fst (resolveCollision filePath dryRun w))
        = resolveCollision filePath dryRun w)
  /\ snd (resolveCollision "a.pdf" false (Demo.world [("a.pdf" : str, Demo.file 10)]))
     = Ok ("a-1.pdf" : str)
  /\ snd (resolveCollision "a.pdf" false
            (Demo.world [("a.pdf" : str, Demo.file 10); ("a-1.pdf" : str, Demo.file 10)]))
     = Ok ("a-2.pdf" : str).
Proof.
  split; [apply resolveCollision_dry|].
  split; [apply resolveCollision_free|].
  split; [apply resolveCollision_busy|].
  split.
  { intros n. unfold collisionCandidate.
    apply basename_join_plain, candidateName_plain. }
  split.
  { intros dryRun. now rewrite resolveCollision_world. }
  split; vm_compute; reflexivity.
Qed.

End CollisionFacts.

(** ** Rename patterns *)
Section PatternFacts.



Lemma dirname_noSlash d : noSlash d -> Path.dirname d = ".".
Proof.
  intros Hd. destruct d as [|c0 rest]; [reflexivity|].
  inversion Hd as [|? ? Hc0 Hrest]; subst.
  unfold Path.dirname.
  assert (Hr : Forall (fun c => Path.isSlash c = false) (rev rest))
    by now apply Forall_rev.
  assert (E1 : Path.dropWhile Path.isSlash (rev rest) = rev rest).
  { destruct (rev rest) as [|c r]; [reflexivity|].
    simpl. inversion Hr as [|? ? Hc _]. now rewrite Hc. }
  rewrite E1.
  assert (E2 : Path.dropWhile (fun c => negb (Path.isSlash c)) (rev rest) = []).
  { clear E1. induction Hr as [|c r Hc _ IH]; [reflexivity|].
    simpl. now rewrite Hc. }
  rewrite E2, Hc0. reflexivity.
Qed.



End PatternFacts.

(** ** Template variables *)
Section TemplateFacts.

Lemma replaceAll_from_seen pat rep :
  noDollar rep ->
  forall s seen seen' k,
    Js.replaceAll_from pat rep seen k s = Js.replaceAll_from pat rep seen' k s.
Proof.
  intros Hrep. induction s as [|c t IH]; intros seen seen' k.
  - destruct k; cbn [Js.replaceAll_from]; [|reflexivity].
    destruct (Js.startsWith [] pat); [|reflexivity].
    now rewrite !getSubstitution_plain.
  - destruct k as [|k]; cbn [Js.replaceAll_from]; [|apply IH].
    destruct (Js.startsWith (c :: t) pat).
    + rewrite !getSubstitution_plain by assumption. f_equal.
      destruct pat; [f_equal|]; apply IH.
    + f_equal. apply IH.
Qed.

Lemma replaceAll_skip pat rep u : forall t seen,
  Js.replaceAll_from pat rep seen (length u) (u ++ t)
  = Js.replaceAll_from pat rep (rev u ++ seen) 0 t.
Proof.
  induction u as [|c u IH]; intros t seen; [reflexivity|].
  cbn [length app Js.replaceAll_from rev]. rewrite IH, <- app_assoc. reflexivity.
Qed.

(** A character that does not begin an occurrence is copied. *)
Lemma replaceAll_copy pat rep c t :
  noDollar rep -> Js.startsWith (c :: t) pat = false ->
  Js.replaceAll (c :: t) pat rep = c :: Js.replaceAll t pat rep.
Proof.
  intros Hrep Hno. unfold Js.replaceAll. cbn [Js.replaceAll_from].
  rewrite Hno. f_equal. now apply replaceAll_from_seen.
Qed.

(** An occurrence is replaced and the search goes on after it. *)
Lemma replaceAll_hit x pat' rep t :
  noDollar rep ->
  Js.replaceAll ((x :: pat') ++ t) (x :: pat') rep = rep ++ Js.replaceAll t (x :: pat') rep.
Proof.
  intros Hrep. unfold Js.replaceAll.
  change (Js.replaceAll_from (x :: pat') rep [] 0 ((x :: pat') ++ t))
    with (if Js.startsWith ((x :: pat') ++ t) (x :: pat')
          then Js.getSubstitution (x :: pat') (rev [])
                 (drop (length (x :: pat')) ((x :: pat') ++ t)) rep
               ++ Js.replaceAll_from (x :: pat') rep [x] (length pat') (pat' ++ t)
          else x :: Js.replaceAll_from (x :: pat') rep [x] 0 (pat' ++ t)).
  rewrite startsWith_app, getSubstitution_plain by assumption.
  f_equal. rewrite replaceAll_skip. now apply replaceAll_from_seen.
Qed.

Lemma replaceAll_literal pat' rep s t :
  noDollar rep -> noBrace s ->
  Js.replaceAll (s ++ t) ("{"%char :: pat') rep = s ++ Js.replaceAll t ("{"%char :: pat') rep.
Proof.
  intros Hrep. induction 1 as [|c s Hc _ IH]; [reflexivity|].
  cbn [app]. rewrite replaceAll_copy; [now rewrite IH|assumption|].
  cbn [Js.startsWith]. unfold Js.chr_eqb in *.
  rewrite Ascii.eqb_sym, Hc. reflexivity.
Qed.

Lemma replaceAll_chunks pat' rep (chunks : list (str * str)) :
  noDollar rep ->
  Forall (fun ch => chunkFor ("{"%char :: pat') rep (fst ch) (snd ch)) chunks ->
  Js.replaceAll (concat (map fst chunks)) ("{"%char :: pat') rep = concat (map snd chunks).
Proof.
  intros Hrep. induction 1 as [|[src out] chunks Hch _ IH].
  - reflexivity.
  - cbn [map concat fst snd] in *. inversion Hch as [s Hs|Hsrc|q Hq Hother]; subst.
    + rewrite replaceAll_literal by assumption. now rewrite IH.
    + rewrite replaceAll_hit by assumption. now rewrite IH.
    + cbn [app]. rewrite replaceAll_copy by (apply Hrep || apply Hother).
      rewrite replaceAll_literal by assumption. now rewrite IH.
Qed.

Lemma replaceTemplateVariables_some template config md :
  replaceTemplateVariables template config (Some md)
  = Js.replaceAll
      (Js.replaceAll (replaceTemplateVariables template config None) "{app}" (appText md))
      "{domain}" (domainText md).
Proof. reflexivity. Qed.

Lemma fill_app app ps :
  noDollar app -> literalPieces ps ->
  Js.replaceAll (templateText ps) "{app}" app = filled app "{domain}" ps.
Proof.
  intros Happ Hps. unfold templateText, filled.
  pose proof (replaceAll_chunks "app}" app
                (map (fun p => (pieceValue "{app}" "{domain}" p,
                                pieceValue app "{domain}" p)) ps) Happ) as Hch.
  rewrite !List.map_map in Hch. cbn [fst snd] in Hch. apply Hch.
  apply Forall_map. eapply List.Forall_impl; [|exact Hps].
  intros [s| |] Hp; cbn [fst snd pieceValue].
  - now constructor.
  - apply chunk_hit.
  - apply (chunk_other _ _ "domain}"); [repeat constructor|reflexivity].
Qed.

Lemma fill_domain app dom ps :
  noDollar dom -> noBrace app -> literalPieces ps ->
  Js.replaceAll (filled app "{domain}" ps) "{domain}" dom = filled app dom ps.
Proof.
  intros Hdom Happ Hps. unfold filled.
  pose proof (replaceAll_chunks "domain}" dom
                (map (fun p => (pieceValue app "{domain}" p,
                                pieceValue app dom p)) ps) Hdom) as Hch.
  rewrite !List.map_map in Hch. cbn [fst snd] in Hch. apply Hch.
  apply Forall_map. eapply List.Forall_impl; [|exact Hps].
  intros [s| |] Hp; cbn [fst snd pieceValue].
  - now constructor.
  - now constructor.
  - apply chunk_hit.
Qed.

(** C6, as the code has it.  Take a template that, once the path
    variables are replaced, consists of text without braces and of the
    placeholders {app} and {domain}.  When metadata is supplied, every
    {app} becomes the sanitized application name, or Unknown when that
    field is missing or empty, and every {domain} the sanitized domain,
    or General when that field is missing or empty (for values free of
    braces and dollar signs).  When no metadata is supplied at all, the
    two placeholders are left in the result as they are. *)
Theorem replaceTemplateVariables_metadata (template : str) (config : FlowSquireConfig)
    (ps : list Piece) :
  replaceTemplateVariables template config None = templateText ps ->
  literalPieces ps ->
  (forall md : Metadata,
      noBrace (appText md) -> noDollar (appText md) -> noDollar (domainText md) ->
      replaceTemplateVariables template config (Some md)
      = filled (appText md) (domainText md) ps)
  /\ replaceTemplateVariables template config None = filled "{app}" "{domain}" ps
  /\ (forall md, truthy (appName md) = None -> appText md = "Unknown")
  /\ (forall md, truthy (domain md) = None -> domainText md = "General")
  /\ (forall md a, truthy (appName md) = Some a -> appText md = sanitizeForPath a)
  /\ (forall md d, truthy (domain md) = Some d -> domainText md = sanitizeForPath d).
Proof.
  intros Hnone Hps. split; [|split; [exact Hnone|]].
  - intros md Hbrace Happ Hdom.
    rewrite replaceTemplateVariables_some, Hnone.
    rewrite fill_app by assumption. now apply fill_domain.
  - unfold appText, domainText.
    repeat split; intros md; intros; now rewrite H.
Qed.

End TemplateFacts.

(** ** The effects of one action on the world *)
Section WorldFacts.
Context `{Host}.

Lemma keeps_refl w : keeps w w.
Proof. unfold keeps. set_solver. Qed.

Lemma keeps_trans w1 w2 w3 : keeps w1 w2 -> keeps w2 w3 -> keeps w1 w3.
Proof. unfold keeps. set_solver. Qed.

Lemma sameUserFiles_refl w : sameUserFiles w w.
Proof. now split. Qed.


Lemma keeps_insert w k st :
  keeps w (Fs.setEntries w (<[k := st]> (entries w))).
Proof. unfold keeps. cbn [entries Fs.setEntries]. rewrite dom_insert_L. set_solver. Qed.


(** *** Directory creation *)

Lemma addDirs_dom chain e : dom e ⊆ dom (Fs.addDirs chain e).
Proof.
  induction chain as [|d chain IH]; cbn [Fs.addDirs foldr]; [set_solver|].
  fold (Fs.addDirs chain e). destruct (Fs.addDirs chain e !! d); [assumption|].
  rewrite dom_insert_L. set_solver.
Qed.

Lemma addDirs_other chain e p : ~ In p chain -> Fs.addDirs chain e !! p = e !! p.
Proof.
  induction chain as [|d chain IH]; cbn [Fs.addDirs foldr]; [reflexivity|].
  fold (Fs.addDirs chain e). intros Hp.
  assert (p <> d) by (intros ->; apply Hp; now left).
  assert (~ In p chain) by (intros Hin; apply Hp; now right).
  destruct (Fs.addDirs chain e !! d); [now apply IH|].
  rewrite lookup_insert_ne by congruence. now apply IH.
Qed.

Lemma mkdir_cases p w :
  (exists e, Fs.mkdir p w = (w, Err e)) \/
  Fs.mkdir p w
  = (Fs.setEntries w (Fs.addDirs (Fs.ancestors (S (length p)) p) (entries w)), Ok tt).
Proof.
  unfold Fs.mkdir.
  destruct (Fs.isFile w p); [left; eauto|].
  destruct (existsb _ _); [left; eauto|]. now right.
Qed.

Lemma mkdir_keeps p w : keeps w (fst (Fs.mkdir p w)).
Proof.
  destruct (mkdir_cases p w) as [[e ->]| ->]; [apply keeps_refl|].
  unfold keeps. cbn [fst entries Fs.setEntries]. apply addDirs_dom.
Qed.

Lemma mkdir_spawned p w : spawned (fst (Fs.mkdir p w)) = spawned w.
Proof. destruct (mkdir_cases p w) as [[e ->]| ->]; reflexivity. Qed.

(** *** Loading the configuration *)

Lemma ancestors_DB_DIR : Fs.ancestors (S (length DB_DIR)) DB_DIR = [DB_DIR].
Proof. reflexivity. Qed.

Lemma dirname_CONFIG_FILE : Path.dirname CONFIG_FILE = DB_DIR.
Proof. reflexivity. Qed.

Lemma DB_DIR_ne_CONFIG_FILE : DB_DIR <> CONFIG_FILE.
Proof. discriminate. Qed.

Lemma lookupPath_DB_DIR w : Fs.lookupPath w DB_DIR = entries w !! DB_DIR.
Proof. reflexivity. Qed.

Lemma lookupPath_CONFIG_FILE w : Fs.lookupPath w CONFIG_FILE = entries w !! CONFIG_FILE.
Proof. reflexivity. Qed.

Lemma ensureDbDir_eq w : ensureDbDir w = (withDbDir w, Ok tt).
Proof.
  unfold ensureDbDir, try_catch, withDbDir.
  destruct (mkdir_cases DB_DIR w) as [[e He]|He].
  - rewrite He. unfold Fs.mkdir in He. rewrite ancestors_DB_DIR in He.
    cbn [existsb] in He. rewrite orb_false_r in He.
    destruct (Fs.isFile w DB_DIR); [reflexivity|discriminate].
  - rewrite He. unfold Fs.mkdir in He. rewrite ancestors_DB_DIR in *.
    cbn [existsb] in He. rewrite orb_false_r in He.
    destruct (Fs.isFile w DB_DIR); [discriminate|reflexivity].
Qed.

Lemma withDbDir_keeps w : keeps w (withDbDir w).
Proof.
  unfold withDbDir. destruct (Fs.isFile w DB_DIR); [apply keeps_refl|].
  unfold keeps. cbn [entries Fs.setEntries]. apply addDirs_dom.
Qed.

Lemma withDbDir_same w : sameUserFiles w (withDbDir w).
Proof.
  unfold withDbDir. destruct (Fs.isFile w DB_DIR); [apply sameUserFiles_refl|].
  split; [reflexivity|]. intros p Hd _. cbn [entries Fs.setEntries].
  apply addDirs_other. intros [E|[]]. congruence.
Qed.

Lemma withDbDir_usable w :
  configUsable w ->
  Fs.isDir (withDbDir w) DB_DIR = true /\ Fs.isDir (withDbDir w) CONFIG_FILE = false.
Proof.
  intros [Hfile Hdir]. unfold withDbDir. rewrite Hfile.
  unfold Fs.isDir, Fs.isFile in *.
  rewrite lookupPath_DB_DIR, lookupPath_CONFIG_FILE in *.
  cbn [entries Fs.setEntries Fs.addDirs foldr].
  destruct (entries w !! DB_DIR) as [st|] eqn:Hst.
  - rewrite Hst. destruct (isDirectory st); [now split|discriminate].
  - rewrite lookup_insert_eq, lookup_insert_ne by apply DB_DIR_ne_CONFIG_FILE.
    now split.
Qed.

Lemma writeConfigFile_cases c w :
  (exists e, writeConfigFile c w = (w, Err e)) \/
  (Fs.isDir w DB_DIR = true /\ Fs.isDir w CONFIG_FILE = false /\
   writeConfigFile c w
   = ({| entries := <[CONFIG_FILE := Fs.fileStats (jsonLength c)]> (entries w);
         configDocument := Some (documentOf c);
         spawned := spawned w |}, Ok tt)).
Proof.
  unfold writeConfigFile. rewrite dirname_CONFIG_FILE.
  destruct (Fs.isDir w DB_DIR); [|left; eauto].
  destruct (Fs.isDir w CONFIG_FILE); [left; eauto|]. right. now repeat split.
Qed.

Lemma writeConfigFile_keeps c w : keeps w (fst (writeConfigFile c w)).
Proof.
  destruct (writeConfigFile_cases c w) as [[e ->]|(_ & _ & ->)]; [apply keeps_refl|].
  unfold keeps. cbn [fst entries]. rewrite dom_insert_L. set_solver.
Qed.

Lemma writeConfigFile_same c w : sameUserFiles w (fst (writeConfigFile c w)).
Proof.
  destruct (writeConfigFile_cases c w) as [[e ->]|(_ & _ & ->)];
    [apply sameUserFiles_refl|].
  split; [reflexivity|]. intros p _ Hc. cbn [fst entries].
  now rewrite lookup_insert_ne by congruence.
Qed.

Lemma readConfigFile_world w : fst (readConfigFile w) = w.
Proof.
  unfold readConfigFile. destruct (Fs.isFile w CONFIG_FILE); [|reflexivity].
  destruct (configDocument w); reflexivity.
Qed.

Lemma loadConfig_cases w :
  (exists d, loadConfig w = (withDbDir w, Ok (mergeWithDefaults d))) \/
  loadConfig w
  = (fst (writeConfigFile DEFAULT_CONFIG (withDbDir (withDbDir w))),
     match snd (writeConfigFile DEFAULT_CONFIG (withDbDir (withDbDir w))) with
     | Ok _ => Ok DEFAULT_CONFIG
     | Err e => Err e
     end).
Proof.
  unfold loadConfig, bind, try_catch, saveConfig, bind. rewrite ensureDbDir_eq.
  pose proof (readConfigFile_world (withDbDir w)) as Hw.
  destruct (readConfigFile (withDbDir w)) as [w1 [d|e]]; cbn [fst] in Hw; subst w1.
  - left. exists d. reflexivity.
  - right. rewrite ensureDbDir_eq.
    destruct (writeConfigFile _ _) as [w' [[]|e']]; reflexivity.
Qed.

Lemma loadConfig_keeps w : keeps w (fst (loadConfig w)).
Proof.
  destruct (loadConfig_cases w) as [[d ->]| ->]; cbn [fst].
  - apply withDbDir_keeps.
  - eapply keeps_trans; [apply withDbDir_keeps|].
    eapply keeps_trans; [apply withDbDir_keeps|]. apply writeConfigFile_keeps.
Qed.


Lemma isDir_not_isFile w p : Fs.isDir w p = true -> Fs.isFile w p = false.
Proof.
  unfold Fs.isDir, Fs.isFile. destruct (Fs.lookupPath w p) as [st|]; [|reflexivity].
  now intros ->.
Qed.




End WorldFacts.

(** ** One action *)
Section ActionFacts.
Context `{Host}.


Lemma ensureDestinationDir_keeps action dryRun destinationPath w :
  keeps w (fst (ensureDestinationDir action dryRun destinationPath w)).
Proof.
  unfold ensureDestinationDir.
  destruct (_ && _); [|apply keeps_refl].
  unfold try_catch.
  pose proof (mkdir_keeps (Path.dirname destinationPath) w) as Hk.
  destruct (Fs.mkdir _ w) as [w1 [[]|e]]; cbn [fst] in *; [assumption|].
  destruct (Js.str_eqb (code e) "EEXIST"); assumption.
Qed.

Lemma performAction_dry action sourcePath destinationPath w :
  performAction action sourcePath destinationPath true w = (w, Ok tt).
Proof. reflexivity. Qed.

Lemma rename_cases a b w :
  (exists e, Fs.rename a b w = (w, Err e)) \/
  (exists st, Fs.rename a b w
              = (Fs.setEntries w (<[b := st]> (delete a (entries w))), Ok tt)).
Proof.
  unfold Fs.rename. destruct (entries w !! a) as [st|]; [|left; eauto].
  destruct (negb _); [left; eauto|].
  destruct (_ && _); [left; eauto|].
  destruct (_ && _); [left; eauto|]. right. eauto.
Qed.

Lemma copyFile_cases a b w :
  (exists e, Fs.copyFile a b w = (w, Err e)) \/
  (exists st, Fs.copyFile a b w = (Fs.setEntries w (<[b := st]> (entries w)), Ok tt)).
Proof.
  unfold Fs.copyFile. destruct (Fs.lookupPath w a) as [st|]; [|left; eauto].
  destruct (isDirectory st); [left; eauto|].
  destruct (negb _); [left; eauto|].
  destruct (Fs.isDir w b); [left; eauto|]. right. eauto.
Qed.

Lemma compressPdf_cases a b q w :
  (exists e w', compressPdf a b q w = (w', Err e) /\ entries w' = entries w) \/
  (exists w', compressPdf a b q w = (w', Ok tt) /\ b ∈ dom (entries w')).
Proof.
  destruct (Fs.exists_ w a) eqn:Hex.
  - rewrite compressPdf_present_source by assumption. unfold runGhostscript.
    destruct (ghostscript _ _ _) as [msg|exitCode errorOutput n].
    + left. eexists _, _. split; reflexivity.
    + destruct (bool_decide _).
      * right. eexists. split; [reflexivity|]. cbn [entries].
        rewrite dom_insert_L. set_solver.
      * left. eexists _, _. split; reflexivity.
  - rewrite compressPdf_missing_source by assumption.
    left. eexists _, _. split; reflexivity.
Qed.

(** A failed operation removes nothing; a successful one leaves
    something at the destination. *)
Lemma performAction_effect action sourcePath destinationPath w :
  match performAction action sourcePath destinationPath false w with
  | (w', Ok _) => destinationPath ∈ dom (entries w')
  | (w', Err _) => keeps w w'
  end.
Proof.
  unfold performAction. cbn [negb].
  assert (Hrename :
    match Fs.rename sourcePath destinationPath w with
    | (w', Ok _) => destinationPath ∈ dom (entries w')
    | (w', Err _) => keeps w w'
    end).
  { destruct (rename_cases sourcePath destinationPath w) as [[e ->]|[st ->]].
    - apply keeps_refl.
    - cbn [entries Fs.setEntries]. rewrite dom_insert_L. set_solver. }
  destruct (act_type action); try exact Hrename.
  - destruct (copyFile_cases sourcePath destinationPath w) as [[e ->]|[st ->]].
    + apply keeps_refl.
    + cbn [entries Fs.setEntries]. rewrite dom_insert_L. set_solver.
  - destruct (compressPdf_cases sourcePath destinationPath
                (match compress_config (act_config action) with
                 | Some c => quality c
                 | None => medium
                 end) w) as [(e & w' & -> & He)|(w' & -> & Hin)].
    + unfold keeps. now rewrite He.
    + assumption.
Qed.

Lemma resolveCollision_result filePath dryRun w :
  filePath <> [] ->
  exists d, resolveCollision filePath dryRun w = (w, Ok d) /\ d <> [] /\
            (dryRun = true -> d = filePath).
Proof.
  intros Hne. destruct dryRun.
  - exists filePath. now rewrite resolveCollision_dry.
  - destruct (Fs.exists_ w filePath) eqn:Hex.
    + destruct (resolveCollision_busy _ _ Hex) as (n & _ & -> & _).
      eexists. split; [reflexivity|]. split; [|discriminate].
      unfold collisionCandidate. apply join_nonempty.
    + exists filePath. rewrite resolveCollision_free by assumption.
      split; [reflexivity|]. split; [assumption|discriminate].
Qed.

Lemma plannedDestination_nonempty action sourcePath config metadata now :
  plannedDestination action sourcePath config metadata now <> [].
Proof.
  unfold plannedDestination.
  destruct (truthy (pattern (act_config action))) as [pat|].
  - unfold applyPattern. apply join_nonempty.
  - rewrite (bool_decide_eq_true_2 (@None str = None)) by reflexivity.
    rewrite andb_true_r.
    destruct (bool_decide _) eqn:E; [apply join_nonempty|].
    apply bool_decide_eq_false_1 in E. intros Hnil. apply E.
    now rewrite Hnil.
Qed.

Lemma executeAction_try_effect action sourcePath dryRun metadata now w :
  match executeAction_try action sourcePath dryRun metadata now w with
  | (w', Ok d) => d <> [] /\ (dryRun = false -> d ∈ dom (entries w'))
  | (w', Err _) => keeps w w'
  end.
Proof.
  unfold executeAction_try, bind.
  pose proof (loadConfig_keeps w) as Hk1.
  destruct (loadConfig w) as [w1 [config|e]]; cbn [fst] in Hk1; [|assumption].
  set (planned := plannedDestination action sourcePath config metadata now).
  pose proof (ensureDestinationDir_keeps action dryRun planned w1) as Hk2.
  destruct (ensureDestinationDir action dryRun planned w1) as [w2 [[]|e]];
    cbn [fst] in Hk2; [|now apply keeps_trans with w1].
  destruct (resolveCollision_result planned dryRun w2
              (plannedDestination_nonempty _ _ _ _ _)) as (d & -> & Hd & _).
  destruct dryRun.
  - rewrite performAction_dry. cbn [ret]. split; [assumption|discriminate].
  - pose proof (performAction_effect action sourcePath d w2) as Hp.
    destruct (performAction action sourcePath d false w2) as [w3 [[]|e]].
    + cbn [ret]. split; [assumption|now intros _].
    + apply keeps_trans with w1; [assumption|].
      now apply keeps_trans with w2.
Qed.

Lemma executeAction_shape action sourcePath dryRun metadata now w :
  let run := executeAction action sourcePath dryRun metadata now w in
  res_action (snd run) = action
  /\ res_sourcePath (snd run) = Some sourcePath
  /\ ((exists d, succeeded (snd run) d /\ d <> [] /\
                 (dryRun = false -> d ∈ dom (entries (fst run))))
      \/ (hasFailed (snd run) /\ keeps w (fst run))).
Proof.
  cbv zeta. unfold executeAction.
  pose proof (executeAction_try_effect action sourcePath dryRun metadata now w) as He.
  destruct (executeAction_try action sourcePath dryRun metadata now w) as [w' [d|e]];
    cbn [fst snd res_action res_sourcePath].
  - repeat split. left. exists d. destruct He as [Hd Hin].
    repeat split; assumption.
  - repeat split. right. repeat split; [|assumption].
    cbn [res_error]. eauto.
Qed.


End ActionFacts.

(** ** The action chain *)
Section ChainFacts.
Context `{Host}.

Lemma executeActions_from_cons n action rest currentPath dryRun metadata w :
  executeActions_from n (action :: rest) currentPath dryRun metadata w
  = let run := executeAction action currentPath dryRun metadata (clock n) w in
    let tail := executeActions_from (S n) rest (nextPath currentPath (snd run))
                  dryRun metadata (fst run) in
    (fst tail, snd run :: snd tail).
Proof.
  cbn [executeActions_from].
  destruct (executeAction _ _ _ _ _ _) as [w1 r]. cbn [fst snd].
  destruct (executeActions_from _ _ _ _ _ _) as [w2 rs]. reflexivity.
Qed.



Lemma chain_shape dryRun metadata actions : forall n currentPath w r,
  In r (snd (executeActions_from n actions currentPath dryRun metadata w)) ->
  (exists d, succeeded r d) \/ hasFailed r.
Proof.
  induction actions as [|action rest IH]; intros n currentPath w r; [intros []|].
  rewrite executeActions_from_cons. cbn [snd]. intros [<-|Hin].
  - destruct (executeAction_shape action currentPath dryRun metadata (clock n) w)
      as (_ & _ & [(d & Hs & _)|(Hf & _)]); eauto.
  - eapply IH, Hin.
Qed.





(** *** Dry runs *)




End ChainFacts.

(** ** Further properties of the evaluator and the expander *)
Section FurtherFacts.
Context `{Host}.

(** X1. The category of a file name is Invoices when it contains a
    keyword of the invoice family, else Finance when it contains a
    banking keyword, else Study when it contains a study keyword, else
    Unsorted, without regard to letter case; so invoice_march.pdf is in
    Invoices, bank_statement.pdf in Finance, lecture_notes.pdf in Study
    and randomfile.pdf in Unsorted. *)
Theorem detectPdfCategory_by_family (fileName : str) :
  detectPdfCategory fileName
  = (if mentions fileName invoiceWords then "Invoices" : str
     else if mentions fileName financeWords then "Finance" : str
     else if mentions fileName studyWords then "Study" : str
     else "Unsorted" : str)
  /\ map detectPdfCategory
       (strs ["invoice_march.pdf"; "bank_statement.pdf"; "lecture_notes.pdf";
              "randomfile.pdf"; "Tax_Bank.PDF"])
     = strs ["Invoices"; "Finance"; "Study"; "Unsorted"; "Invoices"].
Proof.
  split; [|reflexivity].
  unfold detectPdfCategory, mentions, invoiceWords, financeWords, studyWords, strs.
  cbn [map existsb].
  repeat (match goal with
          | |- context [Js.includes ?a ?b] =>
              destruct (Js.includes a b); cbn [orb]; try reflexivity
          end).
Qed.

Lemma dropSpaces_Forall (P : ascii -> Prop) s :
  Forall P s -> Forall P (Js.dropSpaces s).
Proof.
  induction 1 as [|c s Hc Hs IH]; simpl; [constructor|].
  destruct (Js.isSpace c); [assumption|now constructor].
Qed.

Lemma collapseSpaces_Forall (P : ascii -> Prop) s : forall inRun,
  P " "%char -> Forall P s -> Forall P (Js.collapseSpaces inRun s).
Proof.
  intros inRun Hsp Hs. revert inRun.
  induction Hs as [|c s Hc Hs IH]; intros inRun; simpl; [constructor|].
  destruct (Js.isSpace c); [destruct inRun|]; try constructor; auto.
Qed.

(** X2. What [sanitizeForPath] returns has at most 50 characters, and
    none of them is a character that is illegal in a path segment. *)
Theorem sanitizeForPath_safe (input : str) :
  (length (sanitizeForPath input) <= 50)%nat
  /\ Forall (fun c => illegalInPath c = false) (sanitizeForPath input).
Proof.
  unfold sanitizeForPath. split.
  - rewrite length_take. lia.
  - apply Forall_take. unfold Js.trim.
    apply Forall_rev, dropSpaces_Forall, Forall_rev, dropSpaces_Forall.
    apply collapseSpaces_Forall; [reflexivity|].
    apply Forall_map, Forall_forall. intros c _.
    destruct (illegalInPath c) eqn:E; [reflexivity|exact E].
Qed.

(** X3. Errors while a condition is evaluated make it false: a pattern
    that the regular expression engine rejects, a list operator on a
    value that is no list, and a size threshold on a path where nothing
    can be looked up. *)
Theorem evaluation_errors_are_false (w : World) (c : Condition) (filePath : str) :
  (usesOperator (cond_type c) = true -> cond_operator c = matches ->
   (forall s, regexTest (valueToString (cond_value c)) s = None) ->
   evaluateCondition w c filePath = false)
  /\ (usesOperator (cond_type c) = true -> cond_operator c = op_in ->
      (forall l, cond_value c <> VList l) ->
      evaluateCondition w c filePath = false)
  /\ (cond_type c = T_size_greater_than_mb -> Fs.statSync w filePath = None ->
      evaluateCondition w c filePath = false).
Proof.
  unfold evaluateCondition, matchValue. split; [|split].
  - intros Ht Ho Hre. rewrite Ho.
    destruct (cond_type c); try discriminate Ht; now rewrite Hre.
  - intros Ht Ho Hl. rewrite Ho.
    destruct (cond_type c); try discriminate Ht;
      destruct (cond_value c) as [s|n|l]; try reflexivity; now destruct (Hl l).
  - intros Ht Hstat. now rewrite Ht, Hstat.
Qed.

End FurtherFacts.

(** * The configuration accessors, the store and the watcher *)

Section FiringFacts.
Context `{Host}.

Lemma Array_sort_idem {A} (key : A -> Z) l :
  Array_sort (byKeyDescending key) (Array_sort (byKeyDescending key) l)
  = Array_sort (byKeyDescending key) l.
Proof. apply Array_sort_sorted_input, Array_sort_sorted. Qed.

(** X4. The order in which a call of [findMatchingRules] leaves the
    caller's list does not show in a later call: on the list as an
    earlier call left it, for any file and in any world, a call returns
    the rules, and leaves the list, that it would for the list as it was
    at first. *)
Theorem findMatchingRules_after_sort (w w' : World) (rules : list Rule)
    (filePath filePath' : str) :
  findMatchingRules w' (snd (findMatchingRules w rules filePath)) filePath'
  = findMatchingRules w' rules filePath'.
Proof.
  rewrite findMatchingRules_snd. unfold findMatchingRules.
  change (fun a b : Rule => (priority b - priority a)%Z) with (byKeyDescending priority).
  now rewrite Array_sort_idem.
Qed.

Lemma filter_filter_and {A} (f g : A -> bool) l :
  List.filter g (List.filter f l) = List.filter (fun x => f x && g x) l.
Proof.
  induction l as [|x l IH]; [reflexivity|]. simpl.
  destruct (f x); simpl; [destruct (g x)|]; now rewrite IH.
Qed.

Lemma filter_head_split {A} (f : A -> bool) l x t :
  List.filter f l = x :: t ->
  exists before after, l = before ++ x :: after /\
    Forall (fun y => f y = false) before /\ f x = true /\ List.filter f after = t.
Proof.
  induction l as [|y l IH]; [discriminate|]. simpl.
  destruct (f y) eqn:Hy.
  - intros [= -> <-]. exists [], l. repeat split; [constructor|assumption].
  - intros Hl. destruct (IH Hl) as (before & after & -> & Hb & Hx & Ht).
    exists (y :: before), after. repeat split; try assumption. now constructor.
Qed.

(** X5. The first of the rules that [findMatchingRules] returns, which
    is the one rule that [handleFileEvent] and [handleScreenshotEvent]
    execute, matches the file; no matching rule of the list has a higher
    priority, and the matching rules before it in the list have a lower
    one, so that of the matching rules of the highest priority the one
    listed first is taken.  Nothing is returned exactly when no rule of
    the list matches. *)
Theorem first_match_has_highest_priority (w : World) (rules : list Rule) (filePath : str) :
  match fst (findMatchingRules w rules filePath) with
  | [] => forall R, In R rules -> matchesFile w filePath R = false
  | R :: _ =>
      matchesFile w filePath R = true
      /\ exists before after, rules = before ++ R :: after
         /\ (forall R', In R' before -> matchesFile w filePath R' = true ->
                        (priority R' < priority R)%Z)
         /\ (forall R', In R' after -> matchesFile w filePath R' = true ->
                        (priority R' <= priority R)%Z)
  end.
Proof.
  pose proof (findMatchingRules_In w rules filePath) as Hin.
  assert (Hsorted : StronglySorted (descending priority)
                      (fst (findMatchingRules w rules filePath))).
  { rewrite findMatchingRules_fst. apply StronglySorted_filter, Array_sort_sorted. }
  assert (Hstable : forall p : Z,
             List.filter (hasKey priority p) (fst (findMatchingRules w rules filePath))
             = List.filter (fun R => matchesFile w filePath R && hasKey priority p R) rules).
  { intros p. rewrite findMatchingRules_fst, filter_filter_comm, Array_sort_stable.
    rewrite filter_filter_comm. apply filter_filter_and. }
  destruct (fst (findMatchingRules w rules filePath)) as [|R rest].
  - intros R HR. destruct (matchesFile w filePath R) eqn:Hm; [|reflexivity].
    exfalso. apply (proj2 (Hin R)). now split.
  - assert (Hm : matchesFile w filePath R = true).
    { apply (proj1 (Hin R)). now left. }
    split; [exact Hm|].
    assert (Hmax : forall R', In R' rules -> matchesFile w filePath R' = true ->
                              (priority R' <= priority R)%Z).
    { intros R' HR' Hm'.
      destruct (proj2 (Hin R') (conj HR' Hm')) as [<-|Hrest]; [lia|].
      apply StronglySorted_inv in Hsorted as [_ Hall].
      rewrite List.Forall_forall in Hall. now apply Hall. }
    specialize (Hstable (priority R)). cbn [List.filter] in Hstable.
    unfold hasKey at 1 in Hstable. rewrite Z.eqb_refl in Hstable.
    symmetry in Hstable.
    apply filter_head_split in Hstable as (before & after & -> & Hb & _ & _).
    exists before, after. split; [reflexivity|]. split.
    + intros R' HR' Hm'.
      assert (Hle : (priority R' <= priority R)%Z).
      { apply Hmax; [|assumption]. apply in_or_app. now left. }
      rewrite List.Forall_forall in Hb. specialize (Hb R' HR').
      rewrite Hm' in Hb. cbn in Hb. unfold hasKey in Hb.
      apply Z.eqb_neq in Hb. lia.
    + intros R' HR' Hm'. apply Hmax; [|assumption].
      apply in_or_app. right. now right.
Qed.

End FiringFacts.

Section DotFacts.
Context `{Host}.

Lemma includes_spec s sub :
  Js.includes s sub = true -> exists a b, s = a ++ sub ++ b.
Proof.
  induction s as [|c s IH]; cbn [Js.includes].
  - rewrite orb_false_r. intros Hs. apply startsWith_spec in Hs as [t Ht].
    exists [], t. exact Ht.
  - intros Hs. apply orb_true_iff in Hs as [Hs|Hs].
    + apply startsWith_spec in Hs as [t Ht]. exists [], t. exact Ht.
    + destruct (IH Hs) as (a & b & ->). exists (c :: a), b. reflexivity.
Qed.

Lemma noDot_not_dotted s : noDot s -> dotted s -> False.
Proof.
  unfold noDot, dotted. rewrite List.Forall_forall. intros Hs Hin.
  specialize (Hs _ Hin). discriminate.
Qed.

Lemma dotted_lower s : dotted s -> dotted (Js.toLowerCase s).
Proof.
  unfold dotted, Js.toLowerCase. intros Hin.
  apply (List.in_map Js.lowerChar) in Hin. exact Hin.
Qed.

Lemma noDot_lower s : noDot s -> noDot (Js.toLowerCase s).
Proof.
  unfold noDot, Js.toLowerCase. intros Hs. apply Forall_map.
  eapply List.Forall_impl; [|exact Hs]. intros c Hc. cbn. now rewrite isDot_lower.
Qed.

(** What follows the dot of an extension holds no dot. *)
Lemma extname_tail p :
  Path.extname p = [] \/ exists t, Path.extname p = "."%char :: t /\ noDot t.
Proof.
  unfold Path.extname.
  set (rc := rev (Path.lastComponent p)).
  pose proof (takeWhile_Forall (fun c => negb (Path.isDot c)) rc) as Htail.
  destruct (Path.dropWhile (fun c => negb (Path.isDot c)) rc) as [|dot [|x rest]] eqn:Hdrop;
    [now left|now left|].
  destruct (Js.str_eqb _ _); [now left|]. right.
  apply dropWhile_head in Hdrop. apply negb_false_iff, isDot_eq in Hdrop. subst dot.
  eexists. split; [reflexivity|].
  apply Forall_rev. eapply List.Forall_impl; [|exact Htail].
  intros c Hc. now apply negb_true_iff in Hc.
Qed.

(** The extension that the evaluator compares: no dot is left in it. *)
Lemma cleanExt_noDot p :
  let ext := Js.toLowerCase (Path.extname p) in
  noDot (if Js.startsWith ext "." then drop 1 ext else ext).
Proof.
  cbv zeta. destruct (extname_tail p) as [->|(t & -> & Ht)]; [constructor|].
  cbn. apply noDot_lower in Ht. exact Ht.
Qed.

(** X6. An extension condition whose comparison value holds a dot
    matches no file at all: the evaluator takes the leading dot off the
    extension of the file before it compares, and what follows the last
    dot of a name holds no dot.  This is so for [equals] and [contains],
    and for [in] when each member of the list holds a dot: the value pdf
    matches report.pdf, the value .pdf matches nothing. *)
Theorem extension_value_with_dot (w : World) (c : Condition) (filePath : str) :
  cond_type c = T_extension -> dottedValue c ->
  evaluateCondition w c filePath = false.
Proof.
  intros Ht Hv. unfold evaluateCondition. rewrite Ht.
  pose proof (cleanExt_noDot filePath) as Hclean. cbv zeta in *.
  set (cleanExt := if Js.startsWith (Js.toLowerCase (Path.extname filePath)) "."
                   then drop 1 (Js.toLowerCase (Path.extname filePath))
                   else Js.toLowerCase (Path.extname filePath)) in *.
  clearbody cleanExt. apply noDot_lower in Hclean.
  unfold matchValue. unfold dottedValue in Hv.
  destruct (cond_operator c); try contradiction.
  - apply dotted_lower in Hv. apply str_eqb_neq. intros E.
    rewrite E in Hclean. exact (noDot_not_dotted _ Hclean Hv).
  - apply dotted_lower in Hv.
    destruct (Js.includes _ _) eqn:Hinc; [|reflexivity]. exfalso.
    apply includes_spec in Hinc as (a & b & E). rewrite E in Hclean.
    apply Forall_app in Hclean as [_ Hclean]. apply Forall_app in Hclean as [Hclean _].
    exact (noDot_not_dotted _ Hclean Hv).
  - destruct (cond_value c) as [s|n|l]; try contradiction.
    induction Hv as [|v l Hv _ IH]; [reflexivity|].
    cbn [existsb]. rewrite IH, orb_false_r.
    apply str_eqb_neq. intros E. apply dotted_lower in Hv.
    rewrite E in Hv. exact (noDot_not_dotted _ Hclean Hv).
Qed.

End DotFacts.

Section PreservationFacts.
Context `{Host}.

Lemma addDirs_preserves chain e p st :
  e !! p = Some st -> Fs.addDirs chain e !! p = Some st.
Proof.
  intros Hp. induction chain as [|d chain IH]; cbn [Fs.addDirs foldr]; [assumption|].
  fold (Fs.addDirs chain e). destruct (Fs.addDirs chain e !! d) eqn:Hd; [assumption|].
  rewrite lookup_insert_ne; [assumption|]. intros ->. congruence.
Qed.

Lemma withDbDir_preserves w p st :
  entries w !! p = Some st -> entries (withDbDir w) !! p = Some st.
Proof.
  intros Hp. unfold withDbDir. destruct (Fs.isFile w DB_DIR); [assumption|].
  cbn [entries Fs.setEntries]. now apply addDirs_preserves.
Qed.

Lemma loadConfig_preserves w p st :
  entries w !! p = Some st -> p <> CONFIG_FILE ->
  entries (fst (loadConfig w)) !! p = Some st.
Proof.
  intros Hp Hne.
  destruct (loadConfig_cases w) as [[d ->]| ->]; cbn [fst].
  - now apply withDbDir_preserves.
  - destruct (writeConfigFile_same DEFAULT_CONFIG (withDbDir (withDbDir w))) as [_ Hsame].
    destruct (decide (p = DB_DIR)) as [->|Hdb].
    + destruct (writeConfigFile_cases DEFAULT_CONFIG (withDbDir (withDbDir w)))
        as [[e ->]|(_ & _ & ->)]; cbn [fst entries].
      * now do 2 apply withDbDir_preserves.
      * rewrite lookup_insert_ne by (intros E; now apply DB_DIR_ne_CONFIG_FILE).
        now do 2 apply withDbDir_preserves.
    + rewrite Hsame by assumption. now do 2 apply withDbDir_preserves.
Qed.

(** A configuration that could be loaded is in a file. *)
Lemma loadConfig_file w cfg :
  snd (loadConfig w) = Ok cfg -> is_Some (entries (fst (loadConfig w)) !! CONFIG_FILE).
Proof.
  unfold loadConfig, bind, try_catch, saveConfig, bind. rewrite ensureDbDir_eq.
  pose proof (readConfigFile_world (withDbDir w)) as Hw.
  destruct (readConfigFile (withDbDir w)) as [w1 [d|e]] eqn:Hread;
    cbn [fst] in Hw; subst w1.
  - intros _. cbn [fst ret]. unfold readConfigFile in Hread.
    destruct (Fs.isFile (withDbDir w) CONFIG_FILE) eqn:Hfile; [|discriminate].
    unfold Fs.isFile in Hfile. rewrite lookupPath_CONFIG_FILE in Hfile.
    destruct (entries (withDbDir w) !! CONFIG_FILE); [eauto|discriminate].
  - rewrite ensureDbDir_eq.
    destruct (writeConfigFile_cases DEFAULT_CONFIG (withDbDir (withDbDir w)))
      as [[e' ->]|(_ & _ & ->)]; [discriminate|].
    intros _. cbn [fst ret entries]. rewrite lookup_insert_eq. eauto.
Qed.

Lemma mkdir_preserves p w q st :
  entries w !! q = Some st -> entries (fst (Fs.mkdir p w)) !! q = Some st.
Proof.
  intros Hq. destruct (mkdir_cases p w) as [[e ->]| ->]; [assumption|].
  cbn [fst entries Fs.setEntries]. now apply addDirs_preserves.
Qed.

Lemma ensureDestinationDir_preserves action dryRun destinationPath w q st :
  entries w !! q = Some st ->
  entries (fst (ensureDestinationDir action dryRun destinationPath w)) !! q = Some st.
Proof.
  intros Hq. unfold ensureDestinationDir.
  destruct (_ && _); [|assumption]. unfold try_catch.
  pose proof (mkdir_preserves (Path.dirname destinationPath) w q st Hq) as Hk.
  destruct (Fs.mkdir _ w) as [w1 [[]|e]]; cbn [fst] in *; [assumption|].
  destruct (Js.str_eqb (code e) "EEXIST"); assumption.
Qed.

Lemma exists_false_entries w p : Fs.exists_ w p = false -> entries w !! p = None.
Proof.
  unfold Fs.exists_, Fs.lookupPath.
  destruct (Js.str_eqb p "." || Js.str_eqb p "/"); [discriminate|].
  destruct (entries w !! p); [discriminate|reflexivity].
Qed.

(** Outside a dry run the path that [resolveCollision] gives is free. *)
Lemma resolveCollision_fresh filePath w :
  exists d, resolveCollision filePath false w = (w, Ok d) /\ Fs.exists_ w d = false.
Proof.
  destruct (Fs.exists_ w filePath) eqn:Hex.
  - destruct (resolveCollision_busy _ _ Hex) as (n & _ & -> & Hfree & _). eauto.
  - exists filePath. now rewrite resolveCollision_free.
Qed.

(** What the operation of an action does to the entries *)
Lemma performAction_entries action sourcePath d w :
  match performAction action sourcePath d false w with
  | (w', Err _) => entries w' = entries w
  | (w', Ok _) =>
      match act_type action with
      | move | rename =>
          exists st, entries w !! sourcePath = Some st /\
                     entries w' = (<[d := st]> (delete sourcePath (entries w)))
      | copy =>
          exists st, Fs.lookupPath w sourcePath = Some st /\ isDirectory st = false /\
                     entries w' = (<[d := st]> (entries w))
      | compress =>
          exists n, entries w' = (<[d := Fs.fileStats n]> (entries w))
      end
  end.
Proof.
  unfold performAction. cbn [negb].
  assert (Hrename :
    match Fs.rename sourcePath d w with
    | (w', Err _) => entries w' = entries w
    | (w', Ok _) =>
        exists st, entries w !! sourcePath = Some st /\
                   entries w' = (<[d := st]> (delete sourcePath (entries w)))
    end).
  { unfold Fs.rename. destruct (entries w !! sourcePath) as [st|]; [|reflexivity].
    destruct (negb _); [reflexivity|].
    destruct (_ && _); [reflexivity|].
    destruct (_ && _); [reflexivity|]. exists st. now split. }
  destruct (act_type action); try exact Hrename.
  - unfold Fs.copyFile. destruct (Fs.lookupPath w sourcePath) as [st|]; [|reflexivity].
    destruct (isDirectory st) eqn:Hst; [reflexivity|].
    destruct (negb _); [reflexivity|].
    destruct (Fs.isDir w d); [reflexivity|]. exists st. now repeat split.
  - set (q := match compress_config (act_config action) with
              | Some c => quality c
              | None => medium
              end).
    destruct (Fs.exists_ w sourcePath) eqn:Hex.
    + rewrite compressPdf_present_source by assumption. unfold runGhostscript.
      destruct (ghostscript _ _ _) as [msg|exitCode errorOutput n]; [reflexivity|].
      destruct (bool_decide _); [|reflexivity]. now exists n.
    + now rewrite compressPdf_missing_source.
Qed.

(** The worlds that one action goes through *)
Lemma executeAction_try_stages action sourcePath dryRun metadata now w :
  (exists e, executeAction_try action sourcePath dryRun metadata now w
             = (fst (loadConfig w), Err e))
  \/ exists config w2,
      snd (loadConfig w) = Ok config /\
      (forall q st, entries (fst (loadConfig w)) !! q = Some st -> entries w2 !! q = Some st) /\
      ((exists e, executeAction_try action sourcePath dryRun metadata now w = (w2, Err e))
       \/ exists d,
           (dryRun = false -> Fs.exists_ w2 d = false) /\
           executeAction_try action sourcePath dryRun metadata now w
           = (let '(w3, r) := performAction action sourcePath d dryRun w2 in
              (w3, match r with Ok _ => Ok d | Err e => Err e end))).
Proof.
  unfold executeAction_try, bind.
  destruct (loadConfig w) as [w1 [config|e]]; cbn [fst snd]; [|left; eauto].
  right. set (planned := plannedDestination action sourcePath config metadata now).
  pose proof (ensureDestinationDir_preserves action dryRun planned w1) as Hk.
  destruct (ensureDestinationDir action dryRun planned w1) as [w2 [[]|e]]; cbn [fst] in Hk.
  - exists config, w2. split; [reflexivity|]. split; [exact Hk|]. right.
    destruct dryRun.
    + rewrite resolveCollision_dry. exists planned. split; [discriminate|].
      destruct (performAction _ _ _ _ _) as [w3 [[]|e]]; reflexivity.
    + destruct (resolveCollision_fresh planned w2) as (d & -> & Hfree).
      exists d. split; [now intros _|].
      destruct (performAction _ _ _ _ _) as [w3 [[]|e]]; reflexivity.
  - exists config, w2. split; [reflexivity|]. split; [exact Hk|]. left. eauto.
Qed.

End PreservationFacts.

Section SparingFacts.
Context `{Host}.

Lemma executeAction_entries (action : Action) (sourcePath : str)
    (dryRun : bool) (metadata : option Metadata) (now : DateTime) (w : World)
    (p : str) (st : Stats) :
  let run := executeAction action sourcePath dryRun metadata now w in
  entries w !! p = Some st -> p <> CONFIG_FILE ->
  (entries (fst run) !! p = Some st
   \/ (p = sourcePath /\ dryRun = false /\ relocates (act_type action) = true /\
       res_status (snd run) = success /\ entries (fst run) !! p = None))
  /\ (dryRun = false -> forall d,
        res_destinationPath (snd run) = Some d ->
        entries w !! d = None /\ is_Some (entries (fst run) !! d)).
Proof.
  cbv zeta. intros Hp Hne. unfold executeAction.
  pose proof (loadConfig_preserves w p st Hp Hne) as Hp1.
  destruct (executeAction_try_stages action sourcePath dryRun metadata now w)
    as [[e ->]|(config & w2 & Hcfg & Hk & [[e ->]|(d & Hfree & ->)])];
    cbn [fst snd res_destinationPath res_status].
  - split; [now left|]. intros _ d [=].
  - split; [left; now apply Hk|]. intros _ d [=].
  - assert (Hfresh : dryRun = false -> entries w !! d = None).
    { intros Hdry. specialize (Hfree Hdry). apply exists_false_entries in Hfree.
      destruct (entries w !! d) as [std|] eqn:Hd; [|reflexivity]. exfalso.
      destruct (decide (d = CONFIG_FILE)) as [->|Hdc].
      - destruct (loadConfig_file w config Hcfg) as [stc Hstc].
        apply Hk in Hstc. congruence.
      - pose proof (loadConfig_preserves w d std Hd Hdc) as Hd1.
        apply Hk in Hd1. congruence. }
    apply Hk in Hp1. destruct dryRun.
    + rewrite performAction_dry. cbn [fst snd res_destinationPath res_status].
      split; [now left|]. discriminate.
    + specialize (Hfree eq_refl). specialize (Hfresh eq_refl).
      apply exists_false_entries in Hfree.
      assert (Hpd : p <> d) by congruence.
      pose proof (performAction_entries action sourcePath d w2) as Hperf.
      destruct (performAction action sourcePath d false w2) as [w3 [[]|e]];
        cbn [fst snd res_destinationPath res_status].
      * split.
        -- destruct (act_type action) eqn:Ht; cbn [relocates].
           ++ destruct Hperf as (st' & Hsrc & ->).
              rewrite lookup_insert_ne by congruence.
              destruct (decide (p = sourcePath)) as [->|Hps].
              ** right. rewrite lookup_delete_eq. now repeat split.
              ** left. now rewrite lookup_delete_ne by congruence.
           ++ destruct Hperf as (st' & Hsrc & _ & ->). left.
              now rewrite lookup_insert_ne by congruence.
           ++ destruct Hperf as (st' & Hsrc & ->).
              rewrite lookup_insert_ne by congruence.
              destruct (decide (p = sourcePath)) as [->|Hps].
              ** right. rewrite lookup_delete_eq. now repeat split.
              ** left. now rewrite lookup_delete_ne by congruence.
           ++ destruct Hperf as (n & ->). left.
              now rewrite lookup_insert_ne by congruence.
        -- intros _ d' [= <-]. split; [assumption|].
           destruct (act_type action);
             [destruct Hperf as (st' & _ & ->)|destruct Hperf as (st' & _ & _ & ->)
             |destruct Hperf as (st' & _ & ->)|destruct Hperf as (n & ->)];
             rewrite lookup_insert_eq; eauto.
      * split; [left; now rewrite Hperf|]. intros _ d' [=].
Qed.


Lemma truthy_Some o s : truthy o = Some s -> o = Some s.
Proof. destruct o as [[|c t]|]; cbn; congruence. Qed.

Lemma chain_spares dryRun metadata actions : forall n currentPath w p st,
  entries w !! p = Some st -> p <> CONFIG_FILE ->
  (dryRun = false -> p <> currentPath) ->
  entries (fst (executeActions_from n actions currentPath dryRun metadata w)) !! p
  = Some st.
Proof.
  induction actions as [|action rest IH]; intros n currentPath w p st Hp Hne Hsrc;
    [assumption|].
  rewrite executeActions_from_cons. cbn [fst snd].
  destruct (executeAction_entries action currentPath dryRun metadata (clock n) w p st
              Hp Hne) as [Hkept Hdest].
  apply IH; [|assumption|].
  - destruct Hkept as [Hkept|(Hps & Hdry & _)]; [assumption|].
    now specialize (Hsrc Hdry).
  - intros Hdry. specialize (Hsrc Hdry). specialize (Hdest Hdry).
    unfold nextPath.
    destruct (res_status _); try assumption.
    destruct (truthy _) as [d|] eqn:Hd; [|assumption].
    apply truthy_Some in Hd. destruct (Hdest d Hd) as [Hnew _]. congruence.
Qed.


(** X9. What a successful action does with the source, outside a dry
    run: a move or rename takes what was at the source to the
    destination, so that the source path is free and the destination
    holds an entry of the same kind and size; a copy gives the
    destination such an entry and leaves the source; a compression leaves
    the source and puts a regular file at the destination.  The
    destination is never the source path. *)
Theorem executeAction_relocates (action : Action) (sourcePath : str)
    (metadata : option Metadata) (now : DateTime) (w : World) (st : Stats) :
  let run := executeAction action sourcePath false metadata now w in
  entries w !! sourcePath = Some st -> sourcePath <> CONFIG_FILE ->
  res_status (snd run) = success ->
  exists d, res_destinationPath (snd run) = Some d /\ d <> sourcePath
    /\ entries (fst run) !! sourcePath
       = (if relocates (act_type action) then None else Some st)
    /\ match act_type action with
       | compress => exists n, entries (fst run) !! d = Some (Fs.fileStats n)
       | _ => entries (fst run) !! d = Some st
       end.
Proof.
  cbv zeta. intros Hp Hne. unfold executeAction.
  pose proof (loadConfig_preserves w sourcePath st Hp Hne) as Hp1.
  destruct (executeAction_try_stages action sourcePath false metadata now w)
    as [[e ->]|(config & w2 & Hcfg & Hk & [[e ->]|(d & Hfree & ->)])];
    cbn [fst snd res_destinationPath res_status]; try discriminate.
  apply Hk in Hp1. specialize (Hfree eq_refl). apply exists_false_entries in Hfree.
  assert (Hds : d <> sourcePath) by congruence.
  pose proof (performAction_entries action sourcePath d w2) as Hperf.
  destruct (performAction action sourcePath d false w2) as [w3 [[]|e]];
    cbn [fst snd res_destinationPath res_status]; [|discriminate].
  intros _. exists d. split; [reflexivity|]. split; [assumption|].
  destruct (act_type action); cbn [relocates].
  - destruct Hperf as (st' & Hsrc & ->).
    rewrite lookup_insert_ne, lookup_delete_eq, lookup_insert_eq by congruence.
    split; congruence.
  - destruct Hperf as (st' & Hsrc & Hfile & ->).
    rewrite lookup_insert_ne, lookup_insert_eq by congruence.
    split; [assumption|]. unfold Fs.lookupPath in Hsrc.
    destruct (Js.str_eqb sourcePath "." || Js.str_eqb sourcePath "/").
    + injection Hsrc as <-. discriminate.
    + congruence.
  - destruct Hperf as (st' & Hsrc & ->).
    rewrite lookup_insert_ne, lookup_delete_eq, lookup_insert_eq by congruence.
    split; congruence.
  - destruct Hperf as (n & ->).
    rewrite lookup_insert_ne, lookup_insert_eq by congruence.
    split; [assumption|]. now exists n.
Qed.

End SparingFacts.

Section ExpansionFacts.
Context `{Host}.

Lemma replaceAll_from_miss pat' rep s : forall seen,
  noBrace s -> Js.replaceAll_from ("{"%char :: pat') rep seen 0 s = s.
Proof.
  induction s as [|c s IH]; intros seen Hs; [reflexivity|].
  inversion Hs as [|? ? Hc Hs']; subst.
  cbn [Js.replaceAll_from Js.startsWith]. unfold Js.chr_eqb in *.
  rewrite Ascii.eqb_sym, Hc. cbn [andb]. now rewrite IH.
Qed.

(** Text without an opening brace holds no placeholder. *)
Lemma replaceAll_miss s k rep : noBrace s -> Js.replaceAll s (braced k) rep = s.
Proof. intros Hs. unfold Js.replaceAll, braced. now apply replaceAll_from_miss. Qed.

Lemma braceFree_noBrace k : braceFree k -> noBrace k.
Proof. apply List.Forall_impl. now intros c [Hc _]. Qed.

Lemma key_prefix k : forall k' rest,
  braceFree k -> braceFree k' ->
  Js.startsWith (k' ++ "}"%char :: rest) (k ++ ["}"%char]) = true -> k' = k.
Proof.
  induction k as [|x k IH]; intros k' rest Hk Hk' Hs.
  - destruct k' as [|y k']; [reflexivity|]. exfalso.
    cbn [app Js.startsWith] in Hs. apply andb_true_iff in Hs as [Hs _].
    apply chr_eqb_eq in Hs. subst y.
    inversion Hk' as [|? ? [_ Hy] _]. discriminate.
  - inversion Hk as [|? ? [_ Hx] Hk0]; subst.
    destruct k' as [|y k'].
    + exfalso. cbn [app Js.startsWith] in Hs. apply andb_true_iff in Hs as [Hs _].
      apply chr_eqb_eq in Hs. subst x. discriminate.
    + inversion Hk' as [|? ? _ Hk0']; subst.
      cbn [app Js.startsWith] in Hs. apply andb_true_iff in Hs as [Hxy Hs].
      apply chr_eqb_eq in Hxy. subst y. f_equal. now apply (IH k' rest).
Qed.

Lemma replaceAll_segments k v segs :
  braceFree k -> noDollar v -> wellFormed segs ->
  Js.replaceAll (segmentsText segs) (braced k) v
  = segmentsText (map (substitute k v) segs).
Proof.
  intros Hk Hv Hsegs. unfold segmentsText.
  pose proof (replaceAll_chunks (k ++ "}") v
                (map (fun seg => (segmentText seg, segmentText (substitute k v seg))) segs)
                Hv) as Hch.
  rewrite !List.map_map in Hch. cbn [fst snd] in Hch.
  rewrite List.map_map. apply Hch. clear Hch.
  apply Forall_map. eapply List.Forall_impl; [|exact Hsegs].
  intros [s|k'] Hseg; cbn [fst snd segmentText substitute].
  - now constructor.
  - destruct (Js.str_eqb k' k) eqn:E.
    + apply str_eqb_eq in E. subst k'. cbn [segmentText]. apply chunk_hit.
    + apply (chunk_other _ _ (k' ++ "}")).
      * apply Forall_app. split; [now apply braceFree_noBrace|repeat constructor].
      * intros rest. cbn [Js.startsWith]. rewrite chr_eqb_refl. cbn [andb].
        destruct (Js.startsWith _ _) eqn:Hs; [|reflexivity]. exfalso.
        rewrite <- app_assoc in Hs. apply key_prefix in Hs; try assumption.
        subst k'. unfold Js.str_eqb in E. now apply bool_decide_eq_false in E.
Qed.

Lemma substitute_wellFormed k v segs :
  noBrace v -> wellFormed segs -> wellFormed (map (substitute k v) segs).
Proof.
  intros Hv Hsegs. apply Forall_map. eapply List.Forall_impl; [|exact Hsegs].
  intros [s|k'] Hseg; cbn [substitute]; [assumption|].
  now destruct (Js.str_eqb k' k).
Qed.

Lemma lookupKey_cons k v table k' :
  lookupKey k' ((k, v) :: table)
  = if Js.str_eqb k' k then Some v else lookupKey k' table.
Proof.
  unfold lookupKey. cbn [List.find fst].
  destruct (Js.str_eqb k k') eqn:E.
  - apply str_eqb_eq in E. subst k'. unfold Js.str_eqb.
    now rewrite bool_decide_eq_true_2.
  - replace (Js.str_eqb k' k) with false; [reflexivity|].
    symmetry. apply str_eqb_neq. intros ->.
    unfold Js.str_eqb in E. now apply bool_decide_eq_false in E.
Qed.

(** The loop over a table: every placeholder takes the value that the
    table has for its key. *)
Lemma expand_segments table : forall segs,
  plainTable table -> wellFormed segs ->
  foldl (fun result kv => Js.replaceAll result (braced (fst kv)) (snd kv))
        (segmentsText segs) table
  = expanded (fun k => lookupKey k table) segs.
Proof.
  induction table as [|[k v] table IH]; intros segs Htable Hsegs.
  - reflexivity.
  - inversion Htable as [|? ? (Hk & Hv & Hd) Htable']; subst. cbn [fst snd] in *.
    cbn [foldl fst snd]. rewrite replaceAll_segments by assumption.
    rewrite IH by (try assumption; now apply substitute_wellFormed).
    unfold expanded. rewrite List.map_map. f_equal.
    apply List.map_ext. intros [s|k']; cbn [substitute segmentValue]; [reflexivity|].
    rewrite lookupKey_cons. now destruct (Js.str_eqb k' k).
Qed.

Lemma replaceTemplateVariables_none template config :
  replaceTemplateVariables template config None
  = foldl (fun result kv => Js.replaceAll result (braced (fst kv)) (snd kv))
          template (paths config).
Proof. reflexivity. Qed.

Lemma foldl_replaceAll_miss (table : list (str * str)) s :
  noBrace s ->
  foldl (fun result kv => Js.replaceAll result (braced (fst kv)) (snd kv)) s table = s.
Proof.
  intros Hs. induction table as [|[k v] table IH]; [reflexivity|].
  cbn [foldl fst snd]. now rewrite replaceAll_miss.
Qed.

(** X10. The path variables of a template.  When the keys of the
    configured paths hold no brace and their values neither an opening
    brace nor a dollar sign, every placeholder {k} of a template takes
    the value that the configuration has for k (the first one, should
    there be two), and a placeholder whose key the configuration does not
    have stays in the text as it is.  A template without an opening
    brace comes back unchanged whatever the configuration and the
    metadata are. *)
Theorem replaceTemplateVariables_paths (config : FlowSquireConfig) :
  (forall segs, plainTable (paths config) -> wellFormed segs ->
     replaceTemplateVariables (segmentsText segs) config None
     = expanded (fun k => lookupKey k (paths config)) segs)
  /\ (forall template metadata, noBrace template ->
        replaceTemplateVariables template config metadata = template).
Proof.
  split.
  - intros segs Htable Hsegs. rewrite replaceTemplateVariables_none.
    now apply expand_segments.
  - intros template metadata Hs.
    assert (Hnone : replaceTemplateVariables template config None = template).
    { rewrite replaceTemplateVariables_none. now apply foldl_replaceAll_miss. }
    destruct metadata as [md|]; [|exact Hnone].
    rewrite replaceTemplateVariables_some, Hnone.
    change ("{app}" : str) with (braced "app").
    change ("{domain}" : str) with (braced "domain").
    rewrite (replaceAll_miss template) by assumption. now apply replaceAll_miss.
Qed.

(** *** The placeholders of a rename pattern *)

Lemma digit_plain c :
  Js.isDigit c = true -> Js.chr_eqb c "{" = false /\ Js.chr_eqb c "$" = false.
Proof.
  destruct c as [[] [] [] [] [] [] [] []]; vm_compute; intros; split; congruence.
Qed.

Lemma plainValue_app a b : plainValue a -> plainValue b -> plainValue (a ++ b).
Proof. intros [? ?] [? ?]. split; apply Forall_app; now split. Qed.

Lemma natToString_plain n : plainValue (Js.natToString n).
Proof.
  split; (eapply List.Forall_impl; [|apply natToString_digits]);
    intros c Hc; now apply digit_plain in Hc.
Qed.

Lemma padStart0_plain n s : plainValue s -> plainValue (Js.padStart0 n s).
Proof.
  intros Hs. unfold Js.padStart0. apply plainValue_app; [|assumption].
  split; apply Forall_replicate; reflexivity.
Qed.

Lemma month_plain m : plainValue (default ("undefined" : str) (monthNames !! m)).
Proof.
  do 12 (destruct m as [|m]; [split; repeat constructor|]).
  split; repeat constructor.
Qed.

Lemma stem_ext_plain p :
  plainValue (Path.basename p) ->
  plainValue (Path.basename2 p (Path.extname p)) /\ plainValue (Path.extname p).
Proof.
  unfold plainValue, noBrace, noDollar, Path.basename.
  rewrite (basename2_extname p) at 1 2. rewrite !Forall_app. tauto.
Qed.

Lemma placeholders_unbraced sourcePath now :
  placeholders sourcePath now
  = map (fun kv => (braced (fst kv), snd kv)) (unbraced sourcePath now).
Proof. reflexivity. Qed.

Lemma braced_inj a b : braced a = braced b -> a = b.
Proof.
  unfold braced. intros E. injection E as E.
  apply (f_equal (@rev ascii)) in E. rewrite !rev_app_distr in E.
  injection E as E. apply (f_equal (@rev ascii)) in E. now rewrite !rev_involutive in E.
Qed.

Lemma lookupKey_braced (table : list (str * str)) k :
  lookupKey (braced k) (map (fun kv => (braced (fst kv), snd kv)) table) = lookupKey k table.
Proof.
  induction table as [|[k' v] table IH]; [reflexivity|].
  cbn [map fst snd]. rewrite !lookupKey_cons, IH.
  destruct (Js.str_eqb k k') eqn:E.
  - apply str_eqb_eq in E. subst k'. unfold Js.str_eqb. now rewrite bool_decide_eq_true_2.
  - rewrite str_eqb_neq; [reflexivity|]. intros E'. apply braced_inj in E'. subst k'.
    unfold Js.str_eqb in E. now apply bool_decide_eq_false in E.
Qed.

Lemma unbraced_plain sourcePath now :
  plainValue (Path.basename sourcePath) -> plainTable (unbraced sourcePath now).
Proof.
  intros Hb. apply stem_ext_plain in Hb as [[? ?] [? ?]].
  pose proof (fun n => proj1 (natToString_plain n)) as Hn1.
  pose proof (fun n => proj2 (natToString_plain n)) as Hn2.
  pose proof (fun n m => proj1 (padStart0_plain n _ (natToString_plain m))) as Hp1.
  pose proof (fun n m => proj2 (padStart0_plain n _ (natToString_plain m))) as Hp2.
  pose proof (proj1 (month_plain (getMonth now))) as Hm1.
  pose proof (proj2 (month_plain (getMonth now))) as Hm2.
  unfold unbraced, plainTable.
  repeat (apply Forall_cons; split;
          [cbn [fst snd]; split; [repeat constructor|split; auto]|]).
  constructor.
Qed.

Lemma expandPattern_eq pattern sourcePath now :
  expandPattern pattern sourcePath now
  = foldl (fun result kv => Js.replaceAll result (braced (fst kv)) (snd kv))
          pattern (unbraced sourcePath now).
Proof. reflexivity. Qed.

(** X11. The placeholders of a rename pattern.  For a source whose file
    name holds neither an opening brace nor a dollar sign, every
    placeholder of the pattern that is in the table of [applyPattern]
    ({filename}, {ext}, {YYYY}, {MM}, {Month}, {DD}, {HH}, {mm}, {ss})
    takes the value of the table, and any other placeholder stays in the
    text as it is. *)
Theorem expandPattern_placeholders (sourcePath : str) (now : DateTime)
    (segs : list Segment) :
  wellFormed segs ->
  noBrace (Path.basename sourcePath) -> noDollar (Path.basename sourcePath) ->
  expandPattern (segmentsText segs) sourcePath now
  = expanded (patternValue sourcePath now) segs.
Proof.
  intros Hsegs Hb Hd. rewrite expandPattern_eq.
  rewrite expand_segments; [|apply unbraced_plain; now split|assumption].
  unfold expanded. f_equal. apply List.map_ext. intros [s|k]; [reflexivity|].
  cbn [segmentValue]. unfold patternValue.
  now rewrite placeholders_unbraced, lookupKey_braced.
Qed.

End ExpansionFacts.

Section NameFacts.
Context `{Host}.

Lemma extname_lastComponent p q :
  Path.lastComponent p = Path.lastComponent q -> Path.extname p = Path.extname q.
Proof. unfold Path.extname. now intros ->. Qed.

Lemma candidateName_lastComponent p q n :
  Path.lastComponent p = Path.lastComponent q -> candidateName p n = candidateName q n.
Proof.
  intros E. pose proof (extname_lastComponent p q E) as Eext.
  pose proof (basename2_extname p) as Hp. pose proof (basename2_extname q) as Hq.
  rewrite E, Hq, Eext in Hp. apply app_inv_tail in Hp.
  unfold candidateName. now rewrite Eext, Hp.
Qed.

(** X12. The destination of an action without a rename pattern.  When
    the destination, with its variables replaced, bears an extension, it
    is taken as the path of the file itself.  When it bears none it is
    taken as a directory: the file keeps its name there, and the
    candidates that collision resolution may put in its place are named
    by the stem of the source, a dash, the counter and the extension of
    the source. *)
Theorem plannedDestination_without_pattern (action : Action) (sourcePath : str)
    (config : FlowSquireConfig) (metadata : option Metadata) (now : DateTime) :
  truthy (pattern (act_config action)) = None ->
  let target := expandedDestination action sourcePath config metadata in
  let planned := plannedDestination action sourcePath config metadata now in
  (Path.extname target <> [] -> planned = target)
  /\ (Path.extname target = [] -> plainName (Path.basename sourcePath) ->
      planned = Path.join target (Path.basename sourcePath)
      /\ Path.basename planned = Path.basename sourcePath
      /\ forall n, Path.basename (collisionCandidate planned n) = candidateName sourcePath n).
Proof.
  intros Hpat. cbv zeta. unfold plannedDestination. rewrite Hpat.
  fold (expandedDestination action sourcePath config metadata).
  rewrite (bool_decide_eq_true_2 (@None str = None)) by reflexivity.
  rewrite andb_true_r. split.
  - intros Hext. now rewrite bool_decide_eq_false_2.
  - intros Hext Hname. rewrite bool_decide_eq_true_2 by assumption.
    split; [reflexivity|].
    assert (Hb : Path.basename (Path.join (expandedDestination action sourcePath config metadata)
                                  (Path.basename sourcePath))
                 = Path.basename sourcePath) by now apply basename_join_plain.
    split; [exact Hb|]. intros n.
    unfold collisionCandidate.
    rewrite basename_join_plain by apply candidateName_plain.
    now apply candidateName_lastComponent.
Qed.

End NameFacts.

Section ConfigFacts.
Context `{Host}.

Lemma str_eqb_refl a : Js.str_eqb a a = true.
Proof. now apply str_eqb_eq. Qed.

Lemma str_eqb_sym a b : Js.str_eqb a b = Js.str_eqb b a.
Proof. unfold Js.str_eqb. apply bool_decide_ext. split; congruence. Qed.

Lemma lookupKey_nil k : lookupKey k [] = None.
Proof. reflexivity. Qed.

Lemma lookupKey_cons' k v table k' :
  lookupKey k' ((k, v) :: table)
  = if Js.str_eqb k k' then Some v else lookupKey k' table.
Proof. unfold lookupKey. cbn [List.find fst]. now destruct (Js.str_eqb k k'). Qed.

Lemma lookupKey_app k a b :
  lookupKey k (a ++ b)
  = match lookupKey k a with Some v => Some v | None => lookupKey k b end.
Proof.
  induction a as [|[k' v] a IH]; [reflexivity|].
  cbn [app]. rewrite !lookupKey_cons'. now destruct (Js.str_eqb k' k).
Qed.

Lemma lookupKey_filter_other k (f : str * str -> bool) l :
  (forall v, f (k, v) = true) ->
  lookupKey k (List.filter f l) = lookupKey k l.
Proof.
  intros Hf. induction l as [|[k' v] l IH]; [reflexivity|].
  cbn [List.filter]. rewrite lookupKey_cons'.
  destruct (Js.str_eqb k' k) eqn:E.
  - apply str_eqb_eq in E. subst k'. rewrite Hf, lookupKey_cons', str_eqb_refl.
    reflexivity.
  - destruct (f (k', v)); [|exact IH]. now rewrite lookupKey_cons', E.
Qed.

Lemma lookupKey_filter_none k (f : str * str -> bool) l :
  lookupKey k l = None -> lookupKey k (List.filter f l) = None.
Proof.
  induction l as [|[k' v] l IH]; [reflexivity|].
  rewrite lookupKey_cons'. cbn [List.filter].
  destruct (Js.str_eqb k' k) eqn:E; [discriminate|]. intros Hl.
  destruct (f (k', v)); [|now apply IH]. rewrite lookupKey_cons', E. now apply IH.
Qed.

(** What [{ ...a, ...b }] has for a key: the value of [b], or else the
    value of [a]. *)
Lemma lookupKey_spread k a b :
  lookupKey k (spread a b)
  = match lookupKey k b with Some v => Some v | None => lookupKey k a end.
Proof.
  unfold spread. rewrite lookupKey_app.
  assert (Hmap : lookupKey k
                   (map (fun kv => (fst kv, default (snd kv) (lookupKey (fst kv) b))) a)
                 = match lookupKey k a with
                   | Some va => Some (default va (lookupKey k b))
                   | None => None
                   end).
  { induction a as [|[k' v] a IH]; [reflexivity|].
    cbn [map fst snd]. rewrite !lookupKey_cons'.
    destruct (Js.str_eqb k' k) eqn:E; [|exact IH].
    apply str_eqb_eq in E. now subst k'. }
  rewrite Hmap. destruct (lookupKey k a) as [va|] eqn:Ha.
  - now destruct (lookupKey k b).
  - rewrite lookupKey_filter_other; [now destruct (lookupKey k b)|].
    intros v. cbn [fst]. rewrite Ha. reflexivity.
Qed.

Lemma setEntries_same w : Fs.setEntries w (entries w) = w.
Proof. now destruct w. Qed.

Lemma withDbDir_there w : Fs.isDir w DB_DIR = true -> withDbDir w = w.
Proof.
  intros Hd. unfold withDbDir. rewrite (isDir_not_isFile _ _ Hd).
  unfold Fs.isDir in Hd. rewrite lookupPath_DB_DIR in Hd.
  cbn [Fs.addDirs foldr]. destruct (entries w !! DB_DIR); [|discriminate].
  apply setEntries_same.
Qed.

(** Reading a configuration that is there *)
Lemma loadConfig_read w d :
  Fs.isDir w DB_DIR = true -> Fs.isFile w CONFIG_FILE = true ->
  configDocument w = Some d ->
  loadConfig w = (w, Ok (mergeWithDefaults d)).
Proof.
  intros Hd Hf Hdoc. unfold loadConfig, bind, try_catch.
  rewrite ensureDbDir_eq, (withDbDir_there _ Hd).
  unfold readConfigFile. now rewrite Hf, Hdoc.
Qed.

Lemma saveConfig_usable config w :
  configUsable w ->
  exists w', saveConfig config w = (w', Ok tt)
    /\ Fs.isDir w' DB_DIR = true /\ Fs.isFile w' CONFIG_FILE = true
    /\ configDocument w' = Some (documentOf config)
    /\ spawned w' = spawned w
    /\ forall p, p <> DB_DIR -> p <> CONFIG_FILE -> entries w' !! p = entries w !! p.
Proof.
  intros Hu. destruct (withDbDir_usable w Hu) as [Hd Hc].
  unfold saveConfig, bind. rewrite ensureDbDir_eq.
  destruct (withDbDir_same w) as [Hsp Hent].
  destruct (writeConfigFile_cases config (withDbDir w)) as [[e He]|(_ & _ & ->)].
  { exfalso. unfold writeConfigFile in He. rewrite dirname_CONFIG_FILE, Hd, Hc in He.
    discriminate. }
  eexists. split; [reflexivity|]. split; [|split; [|split; [reflexivity|split]]].
  - unfold Fs.isDir in *. rewrite lookupPath_DB_DIR in *. cbn [entries].
    rewrite lookup_insert_ne by (intros E; now apply DB_DIR_ne_CONFIG_FILE).
    exact Hd.
  - unfold Fs.isFile. rewrite lookupPath_CONFIG_FILE. cbn [entries].
    now rewrite lookup_insert_eq.
  - exact Hsp.
  - intros p Hp1 Hp2. cbn [entries]. rewrite lookup_insert_ne by congruence.
    now apply Hent.
Qed.

Lemma spread_defaults : spread (paths DEFAULT_CONFIG) (paths DEFAULT_CONFIG) = paths DEFAULT_CONFIG.
Proof. reflexivity. Qed.

Lemma mergeWithDefaults_defaults : mergeWithDefaults (documentOf DEFAULT_CONFIG) = DEFAULT_CONFIG.
Proof. reflexivity. Qed.

(** Loading where the configuration is usable: the world afterwards has
    the directory and the file, and the file holds a document that
    merges to the configuration returned. *)
Lemma loadConfig_settled w :
  configUsable w ->
  exists w' d,
    loadConfig w = (w', Ok (mergeWithDefaults d))
    /\ Fs.isDir w' DB_DIR = true /\ Fs.isFile w' CONFIG_FILE = true
    /\ configDocument w' = Some d.
Proof.
  intros Hu. destruct (withDbDir_usable w Hu) as [Hd Hc].
  unfold loadConfig, bind, try_catch. rewrite ensureDbDir_eq.
  unfold readConfigFile.
  destruct (Fs.isFile (withDbDir w) CONFIG_FILE) eqn:Hf;
    [destruct (configDocument (withDbDir w)) as [d|] eqn:Hdoc|].
  - exists (withDbDir w), d. now repeat split.
  - destruct (saveConfig_usable DEFAULT_CONFIG (withDbDir w))
      as (w' & -> & Hd' & Hf' & Hdoc' & _).
    { split; [now apply isDir_not_isFile|assumption]. }
    exists w', (documentOf DEFAULT_CONFIG). cbn [ret].
    rewrite mergeWithDefaults_defaults. now repeat split.
  - destruct (saveConfig_usable DEFAULT_CONFIG (withDbDir w))
      as (w' & -> & Hd' & Hf' & Hdoc' & _).
    { split; [now apply isDir_not_isFile|assumption]. }
    exists w', (documentOf DEFAULT_CONFIG). cbn [ret].
    rewrite mergeWithDefaults_defaults. now repeat split.
Qed.

(** X13. Where the configuration directory and file are usable,
    [loadConfig] returns a configuration; loading once more returns the
    same configuration and changes nothing; and every key of the default
    paths has a value in it. *)
Theorem loadConfig_twice (w : World) :
  configUsable w ->
  exists config,
    snd (loadConfig w) = Ok config
    /\ loadConfig (fst (loadConfig w)) = (fst (loadConfig w), Ok config)
    /\ forall k, is_Some (lookupKey k (paths DEFAULT_CONFIG)) ->
                 is_Some (lookupKey k (paths config)).
Proof.
  intros Hu. destruct (loadConfig_settled w Hu) as (w' & d & -> & Hd & Hf & Hdoc).
  exists (mergeWithDefaults d). cbn [fst snd]. split; [reflexivity|]. split.
  - now apply loadConfig_read.
  - intros k Hk. cbn [mergeWithDefaults paths]. rewrite lookupKey_spread.
    destruct (lookupKey k (doc_paths d)); [eauto|exact Hk].
Qed.

(** X14. What [saveConfig] writes, [loadConfig] reads back: the two
    modes and the version are those that were saved, and a path key has
    the value that was saved or, when none was saved for it, the value of
    the default configuration. *)
Theorem saveConfig_then_loadConfig (config : FlowSquireConfig) (w : World) :
  configUsable w ->
  exists w' loaded,
    saveConfig config w = (w', Ok tt)
    /\ loadConfig w' = (w', Ok loaded)
    /\ (forall k, lookupKey k (paths loaded) = orDefault k (paths config))
    /\ downloadsMode loaded = downloadsMode config
    /\ screenshotMode loaded = screenshotMode config
    /\ version loaded = version config.
Proof.
  intros Hu.
  destruct (saveConfig_usable config w Hu) as (w' & Hsave & Hd & Hf & Hdoc & _).
  exists w', (mergeWithDefaults (documentOf config)).
  split; [exact Hsave|]. split; [now apply loadConfig_read|].
  split; [|now repeat split].
  intros k. cbn [mergeWithDefaults documentOf paths doc_paths].
  apply lookupKey_spread.
Qed.

End ConfigFacts.

Section AccessFacts.
Context `{Host}.

Lemma lookupKey_replace key v l k :
  lookupKey k (map (fun kv : str * str =>
                      if Js.str_eqb (fst kv) key then (fst kv, v) else kv) l)
  = if Js.str_eqb k key
    then match lookupKey k l with Some _ => Some v | None => None end
    else lookupKey k l.
Proof.
  induction l as [|[k' v'] l IH]; [now destruct (Js.str_eqb k key)|].
  cbn [map fst]. destruct (Js.str_eqb k' key) eqn:E.
  - apply str_eqb_eq in E. subst k'. rewrite !lookupKey_cons', IH.
    rewrite (str_eqb_sym key k). now destruct (Js.str_eqb k key).
  - rewrite !lookupKey_cons', IH. destruct (Js.str_eqb k' k) eqn:E'; [|reflexivity].
    apply str_eqb_eq in E'. subst k'. now rewrite E.
Qed.

Lemma lookupKey_setProperty_eq (key v : str) l :
  key <> "__proto__" -> lookupKey key (setProperty key v l) = Some v.
Proof.
  intros Hkey. unfold setProperty.
  destruct (bool_decide (is_Some (lookupKey key l))) eqn:E.
  - apply bool_decide_eq_true_1 in E as [x Hx].
    now rewrite lookupKey_replace, str_eqb_refl, Hx.
  - apply bool_decide_eq_false_1 in E.
    rewrite str_eqb_neq by assumption.
    rewrite lookupKey_app. destruct (lookupKey key l) eqn:Hl; [exfalso; eauto|].
    now rewrite lookupKey_cons', str_eqb_refl.
Qed.

Lemma lookupKey_setProperty_ne key v l k :
  k <> key -> lookupKey k (setProperty key v l) = lookupKey k l.
Proof.
  intros Hk. unfold setProperty.
  destruct (bool_decide (is_Some (lookupKey key l))).
  - now rewrite lookupKey_replace, str_eqb_neq.
  - destruct (Js.str_eqb key "__proto__"); [reflexivity|].
    rewrite lookupKey_app. destruct (lookupKey k l); [reflexivity|].
    rewrite lookupKey_cons', str_eqb_neq by congruence. reflexivity.
Qed.

Lemma lookupKey_spread_again k x :
  lookupKey k (spread (paths DEFAULT_CONFIG) (spread (paths DEFAULT_CONFIG) x))
  = lookupKey k (spread (paths DEFAULT_CONFIG) x).
Proof.
  rewrite (lookupKey_spread k _ (spread _ x)).
  destruct (lookupKey k (spread (paths DEFAULT_CONFIG) x)) eqn:E; [reflexivity|].
  rewrite lookupKey_spread in E.
  destruct (lookupKey k x); [discriminate|exact E].
Qed.

Lemma getConfigValue_read w d key :
  Fs.isDir w DB_DIR = true -> Fs.isFile w CONFIG_FILE = true ->
  configDocument w = Some d ->
  getConfigValue key w
  = (w, Ok (if Js.str_eqb key "downloadsMode"
            then Text (downloadsMode (mergeWithDefaults d))
            else if Js.str_eqb key "screenshotMode"
                 then Text (screenshotMode (mergeWithDefaults d))
                 else getProperty key (paths (mergeWithDefaults d)))).
Proof.
  intros Hd Hf Hdoc. unfold getConfigValue, bind.
  rewrite (loadConfig_read w d Hd Hf Hdoc).
  now destruct (Js.str_eqb key "downloadsMode"), (Js.str_eqb key "screenshotMode").
Qed.

Lemma normalizedKey_proto (key : str) : key <> "__proto__" -> normalizedKey key <> "__proto__".
Proof.
  intros Hkey. unfold normalizedKey.
  destruct (Js.str_eqb key "downloads-mode"); [discriminate|].
  destruct (Js.str_eqb key "screenshot-mode"); [discriminate|assumption].
Qed.

(** X15. After [setConfigValue] the value is what [getConfigValue] gives
    for the key that was written to, which is the key itself or, for the
    spellings downloads-mode and screenshot-mode, downloadsMode and
    screenshotMode; [getConfigValue] does not know the two spellings with
    a dash, and gives for every other key what it gave before.  The key
    [__proto__] is left out: assigning a string to it sets nothing. *)
Theorem setConfigValue_then_getConfigValue (key value : str) (w : World) :
  configUsable w -> key <> "__proto__" ->
  exists w',
    setConfigValue key value w = (w', Ok tt)
    /\ snd (getConfigValue (normalizedKey key) w') = Ok (Text value)
    /\ forall k, k <> normalizedKey key ->
         snd (getConfigValue k w') = snd (getConfigValue k w).
Proof.
  intros Hu Hkey. apply normalizedKey_proto in Hkey.
  destruct (loadConfig_settled w Hu) as (w1 & d & Hload & Hd & Hf & Hdoc).
  unfold setConfigValue, bind. rewrite Hload.
  fold (normalizedKey key). set (nk := normalizedKey key) in *. clearbody nk.
  set (c := mergeWithDefaults d).
  assert (Hu1 : configUsable w1).
  { split; [now apply isDir_not_isFile|].
    unfold Fs.isFile, Fs.isDir in *. destruct (Fs.lookupPath w1 CONFIG_FILE) as [st|];
      [|reflexivity]. now apply negb_true_iff in Hf. }
  assert (Hbefore : forall k, getConfigValue k w
                              = (w1, Ok (if Js.str_eqb k "downloadsMode"
                                         then Text (downloadsMode c)
                                         else if Js.str_eqb k "screenshotMode"
                                              then Text (screenshotMode c)
                                              else getProperty k (paths c)))).
  { intros k. unfold getConfigValue, bind. rewrite Hload.
    now destruct (Js.str_eqb k "downloadsMode"), (Js.str_eqb k "screenshotMode"). }
  assert (Hpaths : forall k x,
             lookupKey k x = lookupKey k (paths c) ->
             getProperty k (spread (paths DEFAULT_CONFIG) x) = getProperty k (paths c)).
  { intros k x Hx. unfold getProperty. rewrite lookupKey_spread, Hx.
    destruct (lookupKey k (paths c)) eqn:E; [reflexivity|].
    subst c. cbn [mergeWithDefaults paths] in E. rewrite lookupKey_spread in E.
    destruct (lookupKey k (doc_paths d)); [discriminate|]. now rewrite E. }
  destruct (Js.str_eqb nk "downloadsMode") eqn:E1;
    [|destruct (Js.str_eqb nk "screenshotMode") eqn:E2].
  - apply str_eqb_eq in E1. subst nk.
    match goal with |- context [saveConfig ?c' w1] =>
      destruct (saveConfig_usable c' w1 Hu1) as (w' & -> & Hd' & Hf' & Hdoc' & _) end.
    exists w'. split; [reflexivity|]. split.
    + rewrite (getConfigValue_read w' _ _ Hd' Hf' Hdoc'). reflexivity.
    + intros k Hk. rewrite (getConfigValue_read w' _ _ Hd' Hf' Hdoc'), Hbefore.
      cbn [snd]. rewrite (str_eqb_neq k) by assumption.
      cbn [mergeWithDefaults documentOf screenshotMode doc_screenshotMode default
           paths doc_paths].
      destruct (Js.str_eqb k "screenshotMode"); [reflexivity|].
      f_equal. now apply Hpaths.
  - apply str_eqb_eq in E2. subst nk.
    match goal with |- context [saveConfig ?c' w1] =>
      destruct (saveConfig_usable c' w1 Hu1) as (w' & -> & Hd' & Hf' & Hdoc' & _) end.
    exists w'. split; [reflexivity|]. split.
    + rewrite (getConfigValue_read w' _ _ Hd' Hf' Hdoc'). reflexivity.
    + intros k Hk. rewrite (getConfigValue_read w' _ _ Hd' Hf' Hdoc'), Hbefore.
      cbn [snd]. rewrite (str_eqb_neq k "screenshotMode") by assumption.
      cbn [mergeWithDefaults documentOf downloadsMode doc_downloadsMode default
           paths doc_paths].
      destruct (Js.str_eqb k "downloadsMode"); [reflexivity|].
      f_equal. now apply Hpaths.
  - match goal with |- context [saveConfig ?c' w1] =>
      destruct (saveConfig_usable c' w1 Hu1) as (w' & -> & Hd' & Hf' & Hdoc' & _) end.
    exists w'. split; [reflexivity|]. split.
    + rewrite (getConfigValue_read w' _ _ Hd' Hf' Hdoc'). cbn [snd].
      rewrite E1, E2. f_equal.
      cbn [mergeWithDefaults documentOf paths doc_paths]. unfold getProperty.
      now rewrite lookupKey_spread, lookupKey_setProperty_eq.
    + intros k Hk. rewrite (getConfigValue_read w' _ _ Hd' Hf' Hdoc'), Hbefore.
      cbn [snd].
      cbn [mergeWithDefaults documentOf downloadsMode doc_downloadsMode default
           screenshotMode doc_screenshotMode paths doc_paths].
      destruct (Js.str_eqb k "downloadsMode"); [reflexivity|].
      destruct (Js.str_eqb k "screenshotMode"); [reflexivity|].
      f_equal. apply Hpaths. now apply lookupKey_setProperty_ne.
Qed.

End AccessFacts.

Section UpsertFacts.
Context {A : Type} (key : A -> str).

Lemma upsert_cons x y l :
  upsert key x (y :: l)
  = if Js.str_eqb (key y) (key x) then x :: l else y :: upsert key x l.
Proof.
  unfold upsert. cbn [findIndex].
  destruct (Js.str_eqb (key y) (key x)); [reflexivity|].
  destruct (findIndex _ l); reflexivity.
Qed.

Lemma recordById_upsert k x l :
  recordById key k (upsert key x l)
  = if Js.str_eqb (key x) k then Some x else recordById key k l.
Proof.
  induction l as [|y l IH].
  - unfold upsert, recordById. cbn. now destruct (Js.str_eqb (key x) k).
  - rewrite upsert_cons. destruct (Js.str_eqb (key y) (key x)) eqn:E.
    + apply str_eqb_eq in E. unfold recordById. cbn [List.find]. rewrite E.
      now destruct (Js.str_eqb (key x) k).
    + unfold recordById in *. cbn [List.find]. rewrite IH.
      destruct (Js.str_eqb (key y) k) eqn:Ey; [|reflexivity].
      apply str_eqb_eq in Ey. subst k. rewrite str_eqb_sym, E. reflexivity.
Qed.

Lemma keys_upsert x l :
  map key (upsert key x l)
  = if hasId key (key x) l then map key l else map key l ++ [key x].
Proof.
  induction l as [|y l IH]; [reflexivity|].
  rewrite upsert_cons. unfold hasId in *. cbn [existsb map].
  destruct (Js.str_eqb (key y) (key x)) eqn:E.
  - apply str_eqb_eq in E. cbn [orb map]. now rewrite E.
  - cbn [orb map]. rewrite IH. now destruct (existsb _ l).
Qed.

Lemma map_revived (l : list A) : map revived l = l.
Proof. induction l as [|x l IH]; [reflexivity|]. cbn. now rewrite IH. Qed.

End UpsertFacts.

Section StoreFacts.
Context `{Host} `{Serializer}.

Lemma dirname_RULES_FILE : Path.dirname RULES_FILE = DB_DIR.
Proof. reflexivity. Qed.

Lemma dirname_RUNS_FILE : Path.dirname RUNS_FILE = DB_DIR.
Proof. reflexivity. Qed.

Lemma getRules_eq s :
  getRules s
  = (s, match rulesRead s with
        | JsonArray items => Ok items
        | JsonOther complaint => Err (newError (complaint "map"))
        end).
Proof.
  unfold getRules, D_bind, readRulesFile, rulesRead.
  destruct (Fs.isFile (db_world s) RULES_FILE); [destruct (rulesDocument s) as [[items|c]|]|];
    cbn [D_ret D_throw]; rewrite ?map_revived; reflexivity.
Qed.

Lemma isFile_withDbDir w p : p <> DB_DIR -> Fs.isFile (withDbDir w) p = Fs.isFile w p.
Proof.
  intros Hp. destruct (withDbDir_same w) as [_ Hent].
  unfold Fs.isFile, Fs.lookupPath.
  destruct (Js.str_eqb p "." || Js.str_eqb p "/"); [reflexivity|].
  destruct (decide (p = CONFIG_FILE)) as [->|Hc].
  - unfold withDbDir. destruct (Fs.isFile w DB_DIR); [reflexivity|].
    cbn [entries Fs.setEntries]. rewrite addDirs_other; [reflexivity|].
    intros [E|[]]. now apply DB_DIR_ne_CONFIG_FILE.
  - now rewrite Hent.
Qed.

Lemma isDir_withDbDir w p : p <> DB_DIR -> Fs.isDir (withDbDir w) p = Fs.isDir w p.
Proof.
  intros Hp. unfold Fs.isDir, Fs.lookupPath.
  destruct (Js.str_eqb p "." || Js.str_eqb p "/"); [reflexivity|].
  unfold withDbDir. destruct (Fs.isFile w DB_DIR); [reflexivity|].
  cbn [entries Fs.setEntries]. rewrite addDirs_other; [reflexivity|].
  intros [E|[]]. congruence.
Qed.

Lemma withDbDir_dir w : Fs.isFile w DB_DIR = false -> Fs.isDir (withDbDir w) DB_DIR = true.
Proof.
  intros Hf. unfold withDbDir. rewrite Hf.
  unfold Fs.isDir, Fs.isFile in *. rewrite lookupPath_DB_DIR in *.
  cbn [entries Fs.setEntries Fs.addDirs foldr].
  destruct (entries w !! DB_DIR) as [st|] eqn:Hst.
  - rewrite Hst. now destruct (isDirectory st).
  - now rewrite lookup_insert_eq.
Qed.

Lemma withDbDir_other w p : p <> DB_DIR -> entries (withDbDir w) !! p = entries w !! p.
Proof.
  intros Hp. unfold withDbDir. destruct (Fs.isFile w DB_DIR); [reflexivity|].
  cbn [entries Fs.setEntries]. apply addDirs_other. intros [E|[]]. congruence.
Qed.

Lemma withDbDir_document w : configDocument (withDbDir w) = configDocument w.
Proof. unfold withDbDir. now destruct (Fs.isFile w DB_DIR). Qed.

Lemma withDbDir_spawned w : spawned (withDbDir w) = spawned w.
Proof. unfold withDbDir. now destruct (Fs.isFile w DB_DIR). Qed.

Lemma RULES_FILE_ne_DB_DIR : RULES_FILE <> DB_DIR.
Proof. discriminate. Qed.

Lemma RUNS_FILE_ne_DB_DIR : RUNS_FILE <> DB_DIR.
Proof. discriminate. Qed.

Lemma inWorld_ensureDbDir s : inWorld ensureDbDir s = (withStoreDir s, Ok tt).
Proof. unfold inWorld. now rewrite ensureDbDir_eq. Qed.

Lemma rulesRead_withStoreDir s : rulesRead (withStoreDir s) = rulesRead s.
Proof.
  unfold rulesRead, withStoreDir. cbn [db_world rulesDocument].
  now rewrite isFile_withDbDir by apply RULES_FILE_ne_DB_DIR.
Qed.

Lemma saveRule_eq rule s :
  saveRule rule s
  = match rulesRead s with
    | JsonArray items => writeRulesFile (upsert id rule items) (withStoreDir s)
    | JsonOther complaint => (withStoreDir s, Err (newError (complaint "map")))
    end.
Proof.
  unfold saveRule, D_bind. rewrite inWorld_ensureDbDir, getRules_eq.
  rewrite rulesRead_withStoreDir. now destruct (rulesRead s).
Qed.

Lemma writeRulesFile_usable data s :
  rulesUsable s -> writeRulesFile data (withStoreDir s) = (withRules s data, Ok tt).
Proof.
  intros [Hf Hd]. unfold writeRulesFile, writeFileEntry, withStoreDir. cbn [db_world].
  rewrite dirname_RULES_FILE, (isDir_not_isFile _ _ (withDbDir_dir _ Hf)), (withDbDir_dir _ Hf).
  rewrite isDir_withDbDir by apply RULES_FILE_ne_DB_DIR. rewrite Hd. reflexivity.
Qed.

Lemma rulesRead_withRules s data :
  rulesRead (withRules s data) = JsonArray (map jsonRule data).
Proof.
  unfold rulesRead, withRules. cbn [db_world rulesDocument].
  unfold Fs.isFile, Fs.lookupPath. cbn [orb].
  replace (Js.str_eqb RULES_FILE "." || Js.str_eqb RULES_FILE "/") with false
    by reflexivity.
  cbn [entries Fs.setEntries]. now rewrite lookup_insert_eq.
Qed.

Lemma recordById_jsonRule k l :
  recordById id k (map jsonRule l) = jsonRule <$> recordById id k l.
Proof.
  unfold recordById. induction l as [|r l IH]; [reflexivity|].
  cbn [map List.find]. change (id (jsonRule r)) with (id r).
  now destruct (Js.str_eqb (id r) k).
Qed.

Lemma ids_jsonRule l : map id (map jsonRule l) = map id l.
Proof. induction l as [|r l IH]; [reflexivity|]. cbn [map]. now rewrite IH. Qed.

Lemma jsonRule_finite rule : finiteValues rule -> jsonRule rule = rule.
Proof.
  destruct rule as [i n e p t tr cs acts]. unfold finiteValues, jsonRule.
  cbn [id name enabled priority tags trigger conditions actions].
  intros Hfin. f_equal. induction Hfin as [|c cs Hc _ IH]; [reflexivity|].
  cbn [map]. rewrite IH. f_equal. destruct c as [ty op v]. unfold jsonCondition.
  cbn [cond_type cond_operator cond_value] in *. f_equal.
  destruct v as [x|[| |]|x]; try reflexivity; contradiction.
Qed.

(** X16. After [saveRule], [getRules] has the rule under its identifier,
    as JSON keeps it: the rule itself when none of its conditions
    compares with NaN or an infinity, for which the file has null.  A
    rule with that identifier is replaced where it stands, a rule with a
    new identifier goes last, and every other rule is where it was, as
    JSON keeps it.  The runs, the configuration and every file other
    than the store directory and the rules file are untouched. *)
Theorem saveRule_then_getRules (rule : Rule) (s : Store) (rules : list Rule) :
  rulesUsable s -> getRules s = (s, Ok rules) ->
  exists s' rules',
    saveRule rule s = (s', Ok tt)
    /\ getRules s' = (s', Ok rules')
    /\ (forall k, recordById id k rules'
                  = if Js.str_eqb (id rule) k then Some (jsonRule rule)
                    else jsonRule <$> recordById id k rules)
    /\ (finiteValues rule -> recordById id (id rule) rules' = Some rule)
    /\ map id rules'
       = (if hasId id (id rule) rules then map id rules else map id rules ++ [id rule])
    /\ runsDocument s' = runsDocument s
    /\ configDocument (db_world s') = configDocument (db_world s)
    /\ (forall p, p <> DB_DIR -> p <> RULES_FILE ->
                  entries (db_world s') !! p = entries (db_world s) !! p).
Proof.
  intros Hu Hget. rewrite getRules_eq in Hget.
  exists (withRules s (upsert id rule rules)), (map jsonRule (upsert id rule rules)).
  rewrite saveRule_eq, getRules_eq, rulesRead_withRules.
  destruct (rulesRead s) as [items|complaint]; [|discriminate].
  injection Hget as ->.
  assert (Hrec : forall k, recordById id k (map jsonRule (upsert id rule rules))
                           = if Js.str_eqb (id rule) k then Some (jsonRule rule)
                             else jsonRule <$> recordById id k rules).
  { intros k. rewrite recordById_jsonRule, recordById_upsert.
    now destruct (Js.str_eqb (id rule) k). }
  split; [now apply writeRulesFile_usable|]. split; [reflexivity|].
  split; [exact Hrec|].
  split; [intros Hfin; now rewrite Hrec, str_eqb_refl, jsonRule_finite|].
  split; [rewrite ids_jsonRule; apply keys_upsert|]. split; [reflexivity|].
  split; [apply withDbDir_document|].
  intros p Hp1 Hp2. cbn [withRules db_world entries Fs.setEntries].
  rewrite lookup_insert_ne by congruence. now apply withDbDir_other.
Qed.

(** X17. A rules file that is missing or holds no JSON text reads as an
    empty list, without an error, and the next [saveRule] leaves a file
    with that one rule, as JSON keeps it.  A rules file that holds JSON
    of another kind than an array makes [getRules], [getEnabledRules]
    and [saveRule] fail with the TypeError of the array method, and
    [saveRule] leaves its content as it is. *)
Theorem getRules_unreadable (s : Store) :
  (unreadable s RULES_FILE (rulesDocument s) ->
     getRules s = (s, Ok []) /\ getEnabledRules s = (s, Ok [])
     /\ forall rule, rulesUsable s ->
          exists s', saveRule rule s = (s', Ok tt)
                     /\ getRules s' = (s', Ok [jsonRule rule]))
  /\ (forall complaint,
        Fs.isFile (db_world s) RULES_FILE = true ->
        rulesDocument s = Some (JsonOther complaint) ->
        getRules s = (s, Err (newError (complaint "map")))
        /\ getEnabledRules s = (s, Err (newError (complaint "map")))
        /\ forall rule,
             snd (saveRule rule s) = Err (newError (complaint "map"))
             /\ rulesDocument (fst (saveRule rule s)) = rulesDocument s).
Proof.
  split.
  - intros Hun.
    assert (Hread : rulesRead s = JsonArray []).
    { unfold rulesRead. destruct Hun as [-> | ->]; [reflexivity|].
      now destruct (Fs.isFile _ _). }
    assert (Hget : getRules s = (s, Ok [])) by now rewrite getRules_eq, Hread.
    split; [exact Hget|]. split.
    + unfold getEnabledRules, D_bind. now rewrite Hget.
    + intros rule Hu. exists (withRules s [rule]).
      rewrite saveRule_eq, Hread, getRules_eq, rulesRead_withRules.
      split; [|reflexivity]. now apply writeRulesFile_usable.
  - intros complaint Hf Hdoc.
    assert (Hread : rulesRead s = JsonOther complaint).
    { unfold rulesRead. now rewrite Hf, Hdoc. }
    assert (Hget : getRules s = (s, Err (newError (complaint "map"))))
      by now rewrite getRules_eq, Hread.
    split; [exact Hget|]. split.
    + unfold getEnabledRules, D_bind. now rewrite Hget.
    + intros rule. rewrite saveRule_eq, Hread. now split.
Qed.

End StoreFacts.

Section UpsertMore.
Context {A : Type} (key : A -> str).

Lemma upsert_upsert x y l : key x = key y -> upsert key y (upsert key x l) = upsert key y l.
Proof.
  intros E. induction l as [|z l IH].
  - unfold upsert. cbn [findIndex app]. rewrite E, str_eqb_refl. reflexivity.
  - rewrite !upsert_cons. rewrite E. destruct (Js.str_eqb (key z) (key y)) eqn:Ez.
    + rewrite upsert_cons, E, str_eqb_refl. reflexivity.
    + rewrite upsert_cons, Ez, IH. reflexivity.
Qed.

End UpsertMore.

Section RunFacts.
Context `{Host} `{Serializer}.

Lemma getRuns_eq ruleId s :
  getRuns ruleId s
  = (s, match runsRead s with
        | JsonArray items =>
            Ok (match truthy ruleId with
                | Some ruleId =>
                    List.filter (fun r => Js.str_eqb (run_ruleId r) ruleId) items
                | None => items
                end)
        | JsonOther complaint =>
            Err (newError (complaint (match truthy ruleId with
                                      | Some _ => "filter"
                                      | None => "map"
                                      end)))
        end).
Proof.
  unfold getRuns, D_bind, readRunsFile, runsRead.
  destruct (Fs.isFile (db_world s) RUNS_FILE); [destruct (runsDocument s) as [[items|c]|]|];
    cbn [D_ret D_throw]; rewrite ?map_revived; reflexivity.
Qed.

Lemma runsRead_withStoreDir s : runsRead (withStoreDir s) = runsRead s.
Proof.
  unfold runsRead, withStoreDir. cbn [db_world runsDocument].
  now rewrite isFile_withDbDir by apply RUNS_FILE_ne_DB_DIR.
Qed.

Lemma saveRun_eq run s :
  saveRun run s
  = match runsRead s with
    | JsonArray items => writeRunsFile (upsert run_id run items) (withStoreDir s)
    | JsonOther complaint => (withStoreDir s, Err (newError (complaint "map")))
    end.
Proof.
  unfold saveRun, D_bind. rewrite inWorld_ensureDbDir, getRuns_eq.
  rewrite runsRead_withStoreDir. now destruct (runsRead s).
Qed.

Lemma writeRunsFile_usable data s :
  runsUsable s -> writeRunsFile data (withStoreDir s) = (withRuns s data, Ok tt).
Proof.
  intros [Hf Hd]. unfold writeRunsFile, writeFileEntry, withStoreDir. cbn [db_world].
  rewrite dirname_RUNS_FILE, (isDir_not_isFile _ _ (withDbDir_dir _ Hf)), (withDbDir_dir _ Hf).
  rewrite isDir_withDbDir by apply RUNS_FILE_ne_DB_DIR. rewrite Hd. reflexivity.
Qed.

Lemma saveRun_usable run s items :
  runsUsable s -> runsRead s = JsonArray items ->
  saveRun run s = (withRuns s (upsert run_id run items), Ok tt).
Proof. intros Hu Hread. rewrite saveRun_eq, Hread. now apply writeRunsFile_usable. Qed.

Lemma withRuns_file s data :
  entries (db_world (withRuns s data)) !! RUNS_FILE
  = Some (Fs.fileStats (runsJsonLength data)).
Proof. cbn [withRuns db_world entries Fs.setEntries]. now rewrite lookup_insert_eq. Qed.

Lemma withRuns_dir s data :
  Fs.isFile (db_world s) DB_DIR = false ->
  exists st, entries (db_world (withRuns s data)) !! DB_DIR = Some st /\ isDirectory st = true.
Proof.
  intros Hf. apply withDbDir_dir in Hf. unfold Fs.isDir in Hf.
  rewrite lookupPath_DB_DIR in Hf. cbn [withRuns db_world entries Fs.setEntries].
  rewrite lookup_insert_ne by (intros E; now apply RUNS_FILE_ne_DB_DIR).
  destruct (entries (withDbDir (db_world s)) !! DB_DIR) as [st|]; [eauto|discriminate].
Qed.

Lemma runsRead_file s data bytes :
  entries (db_world s) !! RUNS_FILE = Some (Fs.fileStats bytes) ->
  runsDocument s = Some (JsonArray data) ->
  runsRead s = JsonArray data.
Proof.
  intros Hf Hdoc. unfold runsRead, Fs.isFile, Fs.lookupPath.
  replace (Js.str_eqb RUNS_FILE "." || Js.str_eqb RUNS_FILE "/") with false
    by reflexivity.
  now rewrite Hf, Hdoc.
Qed.

Lemma runsUsable_entries s bytes st :
  entries (db_world s) !! RUNS_FILE = Some (Fs.fileStats bytes) ->
  entries (db_world s) !! DB_DIR = Some st -> isDirectory st = true ->
  runsUsable s.
Proof.
  intros Hf Hd Hst. split.
  - unfold Fs.isFile. rewrite lookupPath_DB_DIR, Hd. now rewrite Hst.
  - unfold Fs.isDir, Fs.lookupPath.
    replace (Js.str_eqb RUNS_FILE "." || Js.str_eqb RUNS_FILE "/") with false
      by reflexivity.
    now rewrite Hf.
Qed.

Lemma RUNS_FILE_ne_CONFIG_FILE : RUNS_FILE <> CONFIG_FILE.
Proof. discriminate. Qed.

Lemma recordRun_usable rule filePath dryRun metadata draw s items :
  runsUsable s -> runsRead s = JsonArray items ->
  (dryRun = false -> filePath <> DB_DIR /\ filePath <> RUNS_FILE) ->
  let started := startedRun dryRun rule filePath (sizeAt (db_world s) filePath) draw in
  let s1 := withRuns s (upsert run_id started items) in
  let results := snd (executeActions (actions rule) filePath dryRun metadata (db_world s1)) in
  let finished := finishedRun started results (draw_endTime draw) in
  recordRun rule filePath dryRun metadata draw s
  = (withRuns (afterActions rule filePath dryRun metadata s1)
       (upsert run_id finished items), Ok tt).
Proof.
  intros Hu Hread Hpath. cbv zeta.
  unfold recordRun, D_bind. fold (sizeAt (db_world s) filePath).
  set (started := startedRun dryRun rule filePath (sizeAt (db_world s) filePath) draw).
  rewrite (saveRun_usable started s items Hu Hread).
  set (s1 := withRuns s (upsert run_id started items)).
  unfold inWorld.
  destruct (executeActions (actions rule) filePath dryRun metadata (db_world s1))
    as [w2 results] eqn:Hrun.
  assert (Hafter : afterActions rule filePath dryRun metadata s1
                   = {| db_world := w2; rulesDocument := rulesDocument s1;
                        runsDocument := runsDocument s1 |}).
  { unfold afterActions. now rewrite Hrun. }
  cbn [snd]. rewrite <- Hafter.
  set (s2 := afterActions rule filePath dryRun metadata s1).
  destruct Hu as [Hdb Hdir].
  destruct (withRuns_dir s (upsert run_id started items) Hdb) as (st & Hst & Hisdir).
  pose proof (withRuns_file s (upsert run_id started items)) as Hfile.
  fold s1 in Hst, Hfile.
  assert (Hkeep : forall p stp, entries (db_world s1) !! p = Some stp ->
                    p <> CONFIG_FILE -> (dryRun = false -> p <> filePath) ->
                    entries (db_world s2) !! p = Some stp).
  { intros p stp Hp Hc Hsrc. unfold s2, afterActions. cbn [db_world].
    now apply chain_spares. }
  assert (Hfile2 : entries (db_world s2) !! RUNS_FILE
                   = Some (Fs.fileStats (runsJsonLength (upsert run_id started items)))).
  { apply Hkeep; [assumption|apply RUNS_FILE_ne_CONFIG_FILE|].
    intros Hdry. destruct (Hpath Hdry) as [_ Hne]. congruence. }
  assert (Hdir2 : entries (db_world s2) !! DB_DIR = Some st).
  { apply Hkeep; [assumption|apply DB_DIR_ne_CONFIG_FILE|].
    intros Hdry. destruct (Hpath Hdry) as [Hne _]. congruence. }
  assert (Hread2 : runsRead s2 = JsonArray (upsert run_id started items)).
  { eapply runsRead_file; [exact Hfile2|reflexivity]. }
  assert (Hu2 : runsUsable s2) by (eapply runsUsable_entries; eassumption).
  rewrite (saveRun_usable _ s2 _ Hu2 Hread2).
  rewrite upsert_upsert by reflexivity. reflexivity.
Qed.

End RunFacts.

Section RecordFacts.
Context `{Host} `{Serializer}.

Lemma finalDestination_last sourcePath (results : list ActionResult) :
  (forall r, In r results -> isSuccess r = true -> is_Some (res_destinationPath r)) ->
  match last (List.filter isSuccess results) with
  | Some r => res_destinationPath r
  | None => None
  end
  = if existsb isSuccess results
    then Some (lastDestination sourcePath results) else None.
Proof.
  induction results as [|r results IH] using rev_ind; intros Hall; [reflexivity|].
  rewrite List.filter_app, List.existsb_app. unfold lastDestination.
  rewrite foldl_app. cbn [List.filter existsb foldl]. rewrite orb_false_r.
  destruct (isSuccess r) eqn:Hr.
  - rewrite last_snoc, orb_true_r.
    destruct (Hall r) as [d Hd]; [apply in_or_app; right; now left|assumption|].
    rewrite Hd. unfold stepDestination. rewrite Hd.
    unfold isSuccess in Hr. now destruct (res_status r).
  - rewrite app_nil_r, orb_false_r.
    rewrite IH by (intros r' Hin; apply Hall, in_or_app; now left).
    unfold stepDestination. unfold isSuccess in Hr.
    now destruct (res_status r).
Qed.

Lemma chain_success_destination actions sourcePath dryRun metadata w r :
  In r (snd (executeActions actions sourcePath dryRun metadata w)) ->
  isSuccess r = true -> is_Some (res_destinationPath r).
Proof.
  intros Hin Hs. unfold executeActions in Hin.
  destruct (chain_shape _ _ _ _ _ _ _ Hin) as [(d & _ & Hd & _)|(Hf & _)]; [eauto|].
  unfold isSuccess in Hs. now rewrite Hf in Hs.
Qed.

Lemma getRuns_withRuns s data : getRuns None (withRuns s data) = (withRuns s data, Ok data).
Proof.
  rewrite getRuns_eq.
  now rewrite (runsRead_file _ data _ (withRuns_file s data) eq_refl).
Qed.

Lemma recordRun_records rule filePath dryRun metadata draw s runs :
  runsUsable s -> getRuns None s = (s, Ok runs) ->
  (dryRun = false -> filePath <> DB_DIR /\ filePath <> RUNS_FILE) ->
  recordsRun rule filePath dryRun metadata draw s
    (recordRun rule filePath dryRun metadata draw s).
Proof.
  intros Hu Hget Hpath. rewrite getRuns_eq in Hget.
  destruct (runsRead s) as [items|complaint] eqn:Hread; [|discriminate].
  cbn [truthy] in Hget. injection Hget as ->.
  unfold recordsRun. cbv zeta.
  rewrite (recordRun_usable rule filePath dryRun metadata draw s runs Hu Hread Hpath).
  rewrite (saveRun_usable _ s runs Hu Hread). cbn [fst snd].
  set (started := startedRun dryRun rule filePath (sizeAt (db_world s) filePath) draw).
  set (s1 := withRuns s (upsert run_id started runs)).
  set (results := snd (executeActions (actions rule) filePath dryRun metadata (db_world s1))).
  exists (finishedRun started results (draw_endTime draw)).
  split; [reflexivity|]. split.
  { exists runs, (upsert run_id (finishedRun started results (draw_endTime draw)) runs).
    split; [now rewrite getRuns_eq, Hread|]. split; [apply getRuns_withRuns|].
    split; [intros k; apply recordById_upsert|apply keys_upsert]. }
  repeat (split; [reflexivity|]).
  cbn [finishedRun run_destinationPath].
  apply finalDestination_last. intros r. apply chain_success_destination.
Qed.

(** X18. What [executeRule] and [executeScreenshotRule] leave in the
    store, in a dry run as well: one record of the run under the
    identifier drawn for it, with the identifier of the rule, the size of
    the file when the run began, the results of the actions, the status
    completed when every result is a success (so also when there is no
    action) and failed otherwise, and as destination the path at which
    the chain ended when an action succeeded, none otherwise.  The
    record is never left in the status running, and the other runs are
    as they were.  The screenshot variant hands the application name and
    the domain of the captured metadata to the actions, the plain one
    hands nothing. *)
Theorem executeRule_records (dryRun : bool) (rule : Rule) (filePath : str) (draw : Draw)
    (s : Store) (runs : list RuleRun) :
  runsUsable s -> getRuns None s = (s, Ok runs) ->
  (dryRun = false -> filePath <> DB_DIR /\ filePath <> RUNS_FILE) ->
  recordsRun rule filePath dryRun None draw s
    (executeRule dryRun rule filePath draw s)
  /\ recordsRun rule filePath dryRun (handedOn (draw_metadata draw)) draw s
       (executeScreenshotRule dryRun rule filePath draw s).
Proof. intros Hu Hget Hpath. split; now apply (recordRun_records _ _ _ _ _ _ runs). Qed.

End RecordFacts.

Section DuplicateFacts.
Context `{Host} `{Serializer}.

Lemma handleFileEvent_processing dryRun filePath rules eventType draw wt :
  filePath ∈ processingFiles
    (fst (fst (handleFileEvent dryRun filePath rules eventType draw wt))).
Proof.
  unfold handleFileEvent.
  destruct (bool_decide (filePath ∈ processingFiles wt)) eqn:E.
  - now apply bool_decide_eq_true_1 in E.
  - destruct (findMatchingRules _ _ _) as [matching sorted].
    destruct (match matching with [] => _ | _ => _ end) as [s r].
    cbn [fst processingFiles]. set_solver.
Qed.

Lemma handleFileEvent_blocked dryRun filePath rules eventType draw wt :
  filePath ∈ processingFiles wt ->
  handleFileEvent dryRun filePath rules eventType draw wt = (wt, rules, Ok tt).
Proof. intros Hin. unfold handleFileEvent. now rewrite bool_decide_eq_true_2. Qed.

Lemma handleScreenshotEvent_blocked dryRun filePath rules draw wt :
  filePath ∈ processingFiles wt ->
  handleScreenshotEvent dryRun filePath rules draw wt = (wt, rules, Ok tt).
Proof. intros Hin. unfold handleScreenshotEvent. now rewrite bool_decide_eq_true_2. Qed.

(** X19. Once [handleFileEvent] has been called for a path, a further
    call of it or of [handleScreenshotEvent] for the same path does
    nothing at all, whatever the rules, until a timer takes the path out
    of the set: it executes no rule, changes neither store nor set and
    leaves no timer behind. *)
Theorem handleFileEvent_duplicate (dryRun : bool) (filePath : str) (rules : list Rule)
    (eventType : str) (draw : Draw) (wt : Watcher) :
  let first := handleFileEvent dryRun filePath rules eventType draw wt in
  (forall rules' eventType' draw',
      handleFileEvent dryRun filePath rules' eventType' draw' (fst (fst first))
      = (fst (fst first), rules', Ok tt))
  /\ (forall rules' draw',
        handleScreenshotEvent dryRun filePath rules' draw' (fst (fst first))
        = (fst (fst first), rules', Ok tt)).
Proof.
  cbv zeta.
  pose proof (handleFileEvent_processing dryRun filePath rules eventType draw wt) as Hin.
  split; intros.
  - now apply handleFileEvent_blocked.
  - now apply handleScreenshotEvent_blocked.
Qed.



(** X21. In a folder that has rules with a file trigger, the listener
    for rules with a screenshot trigger never executes a rule for a new
    file: the listener for the file rules is called first and puts the
    path into the set, whether one of its rules matches or not, and the
    second listener returns at once. *)
Theorem onAdd_screenshot_listener (dryRun : bool) (fileRules screenshotRules : list Rule)
    (filePath : str) (draw drawScreenshot : Draw) (wt : Watcher) :
  fileRules <> [] ->
  let first := handleFileEvent dryRun filePath fileRules "file_created" draw wt in
  onAdd dryRun fileRules screenshotRules filePath draw drawScreenshot wt
  = (fst (fst first), snd (fst first), screenshotRules).
Proof.
  intros Hne. cbv zeta. unfold onAdd.
  destruct fileRules as [|R fileRules]; [congruence|].
  pose proof (handleFileEvent_processing dryRun filePath (R :: fileRules)
                "file_created" draw wt) as Hin.
  destruct (handleFileEvent dryRun filePath (R :: fileRules) "file_created" draw wt)
    as [[wt1 rules1] r1]. cbn [fst snd] in *.
  destruct screenshotRules as [|S screenshotRules]; [reflexivity|].
  now rewrite handleScreenshotEvent_blocked.
Qed.

End DuplicateFacts.

Section GroupingFacts.
Context `{Host} `{Serializer}.

Lemma Map_has_keys {V} (m : list (str * V)) folder :
  Map_has m folder = true <-> In folder (map fst m).
Proof.
  unfold Map_has. rewrite List.existsb_exists, List.in_map_iff. split.
  - intros (kv & Hin & E). apply str_eqb_eq in E. eauto.
  - intros (kv & E & Hin). exists kv. split; [assumption|]. now apply str_eqb_eq.
Qed.

Lemma keys_append folder rule (m : list (str * list Rule)) :
  map fst (map (fun kv : str * list Rule =>
                  if Js.str_eqb (fst kv) folder then (fst kv, snd kv ++ [rule]) else kv) m)
  = map fst m.
Proof.
  rewrite List.map_map. apply List.map_ext. intros [k v]. cbn [fst].
  now destruct (Js.str_eqb k folder).
Qed.

Lemma Map_push_keys m folder rule :
  map fst (Map_push m folder rule)
  = if Map_has m folder then map fst m else map fst m ++ [folder].
Proof.
  unfold Map_push. rewrite keys_append.
  destruct (Map_has m folder); [reflexivity|]. now rewrite List.map_app.
Qed.

Lemma groupOf_append folder rule (m : list (str * list Rule)) f :
  groupOf (map (fun kv : str * list Rule =>
                  if Js.str_eqb (fst kv) folder then (fst kv, snd kv ++ [rule]) else kv) m) f
  = if Js.str_eqb f folder && Map_has m folder then groupOf m f ++ [rule] else groupOf m f.
Proof.
  unfold groupOf, Map_has. induction m as [|[k v] m IH].
  - cbn [map List.find existsb]. now rewrite andb_false_r.
  - cbn [map List.find existsb fst snd].
    destruct (Js.str_eqb k folder) eqn:Ek; cbn [fst snd];
      destruct (Js.str_eqb k f) eqn:Ekf; cbn [orb].
    + apply str_eqb_eq in Ek, Ekf. subst folder f. now rewrite str_eqb_refl.
    + rewrite IH. apply str_eqb_eq in Ek. subst folder.
      rewrite (str_eqb_sym f k), Ekf. reflexivity.
    + apply str_eqb_eq in Ekf. subst f. now rewrite Ek.
    + exact IH.
Qed.

Lemma groupOf_absent (m : list (str * list Rule)) f :
  Map_has m f = false -> groupOf m f = [].
Proof.
  unfold groupOf, Map_has. induction m as [|[k v] m IH]; [reflexivity|].
  cbn [existsb List.find fst]. destruct (Js.str_eqb k f); [discriminate|]. exact IH.
Qed.

Lemma groupOf_snoc (m : list (str * list Rule)) k v f :
  groupOf (m ++ [(k, v)]) f
  = if Map_has m f then groupOf m f else if Js.str_eqb k f then v else [].
Proof.
  unfold groupOf, Map_has. induction m as [|[k' v'] m IH].
  - cbn. now destruct (Js.str_eqb k f).
  - cbn [app existsb List.find fst]. destruct (Js.str_eqb k' f); [reflexivity|]. exact IH.
Qed.

Lemma Map_has_snoc {V} (m : list (str * V)) k v f :
  Map_has (m ++ [(k, v)]) f = Map_has m f || Js.str_eqb k f.
Proof. unfold Map_has. rewrite List.existsb_app. cbn. now rewrite orb_false_r. Qed.

Lemma Map_push_groupOf m folder rule f :
  groupOf (Map_push m folder rule) f
  = if Js.str_eqb f folder then groupOf m f ++ [rule] else groupOf m f.
Proof.
  unfold Map_push. destruct (Map_has m folder) eqn:Hhas.
  - rewrite groupOf_append, Hhas. now rewrite andb_true_r.
  - rewrite groupOf_append, Map_has_snoc, str_eqb_refl, orb_true_r, andb_true_r.
    rewrite groupOf_snoc. destruct (Js.str_eqb f folder) eqn:Ef.
    + apply str_eqb_eq in Ef. subst f. rewrite Hhas, str_eqb_refl.
      now rewrite groupOf_absent.
    + destruct (Map_has m f) eqn:Hf; [reflexivity|].
      rewrite str_eqb_sym, Ef. now rewrite groupOf_absent.
Qed.

Lemma grouped_cons config rule rules m :
  grouped config (rule :: rules) m = grouped config rules (groupStep config m rule).
Proof. reflexivity. Qed.

Lemma grouped_groupOf config rules : forall m f,
  groupOf (grouped config rules m) f
  = groupOf m f ++ List.filter (watchedIn config f) rules.
Proof.
  induction rules as [|rule rules IH]; intros m f.
  - cbn. now rewrite app_nil_r.
  - rewrite grouped_cons, IH. cbn [List.filter]. unfold groupStep, watchedIn at 2.
    destruct (enabled rule); cbn [andb]; [|reflexivity].
    destruct (watchedFolder config rule) as [folder|] eqn:Hw.
    + rewrite Map_push_groupOf. destruct (Js.str_eqb f folder) eqn:Ef.
      * apply str_eqb_eq in Ef. subst f. rewrite bool_decide_eq_true_2 by reflexivity.
        now rewrite <- app_assoc.
      * rewrite bool_decide_eq_false_2; [reflexivity|].
        intros [= <-]. now rewrite str_eqb_refl in Ef.
    + now rewrite bool_decide_eq_false_2.
Qed.

Lemma Map_push_NoDup m folder rule :
  NoDup (map fst m) -> NoDup (map fst (Map_push m folder rule)).
Proof.
  intros Hnd. rewrite Map_push_keys. destruct (Map_has m folder) eqn:Hhas; [assumption|].
  apply NoDup_app. split; [assumption|]. split; [|apply NoDup_singleton].
  intros k Hk Hk'. apply list_elem_of_singleton in Hk'. subst k.
  apply list_elem_of_In, Map_has_keys in Hk. congruence.
Qed.

Lemma grouped_NoDup config rules : forall m,
  NoDup (map fst m) -> NoDup (map fst (grouped config rules m)).
Proof.
  induction rules as [|rule rules IH]; intros m Hnd; [assumption|].
  rewrite grouped_cons. apply IH. unfold groupStep.
  destruct (enabled rule); [|assumption].
  destruct (watchedFolder config rule); [|assumption]. now apply Map_push_NoDup.
Qed.

Lemma Map_push_nonempty m folder rule :
  Forall (fun kv => snd kv <> []) m ->
  Forall (fun kv => snd kv <> []) (Map_push m folder rule).
Proof.
  intros Hm. unfold Map_push. apply Forall_map.
  assert (Hm' : Forall (fun kv : str * list Rule =>
                          Js.str_eqb (fst kv) folder = true \/ snd kv <> [])
                  (if Map_has m folder then m else m ++ [(folder, [])])).
  { destruct (Map_has m folder).
    - eapply List.Forall_impl; [|exact Hm]. intros kv Hkv. now right.
    - apply Forall_app. split.
      + eapply List.Forall_impl; [|exact Hm]. intros kv Hkv. now right.
      + constructor; [|constructor]. left. apply str_eqb_refl. }
  eapply List.Forall_impl; [|exact Hm']. intros [k v] [Hk|Hv]; cbn [fst snd] in *.
  - rewrite Hk. cbn [snd]. intros E. apply app_eq_nil in E as [_ E]. discriminate.
  - destruct (Js.str_eqb k folder); cbn [snd]; [|assumption].
    intros E. apply app_eq_nil in E as [_ E]. discriminate.
Qed.

Lemma grouped_nonempty config rules : forall m,
  Forall (fun kv => snd kv <> []) m ->
  Forall (fun kv => snd kv <> []) (grouped config rules m).
Proof.
  induction rules as [|rule rules IH]; intros m Hm; [assumption|].
  rewrite grouped_cons. apply IH. unfold groupStep.
  destruct (enabled rule); [|assumption].
  destruct (watchedFolder config rule); [|assumption]. now apply Map_push_nonempty.
Qed.

Lemma groupOf_In (m : list (str * list Rule)) f rs :
  NoDup (map fst m) -> In (f, rs) m -> groupOf m f = rs.
Proof.
  unfold groupOf. induction m as [|[k v] m IH]; [intros _ []|].
  cbn [map fst]. intros Hnd Hin. apply NoDup_cons in Hnd as [Hk Hnd].
  cbn [List.find fst]. destruct Hin as [[= -> ->]|Hin].
  - now rewrite str_eqb_refl.
  - destruct (Js.str_eqb k f) eqn:E; [|now apply IH].
    apply str_eqb_eq in E. subst k. exfalso. apply Hk.
    apply list_elem_of_In. apply (List.in_map fst) in Hin. exact Hin.
Qed.

Lemma groupOf_nonempty_In (m : list (str * list Rule)) f :
  groupOf m f <> [] -> In (f, groupOf m f) m.
Proof.
  unfold groupOf. induction m as [|[k v] m IH]; [now cbn|].
  cbn [List.find fst]. destruct (Js.str_eqb k f) eqn:E.
  - apply str_eqb_eq in E. subst k. intros _. now left.
  - intros Hne. right. now apply IH.
Qed.

Lemma settles_next w config : settles w config -> settles (fst (loadConfig w)) config.
Proof. intros [_ Hnext]. split; now rewrite Hnext. Qed.

Lemma extractWatchedFolder_eq rule w config :
  snd (loadConfig w) = Ok config ->
  extractWatchedFolder rule w
  = (fst (loadConfig w),
     Ok match trig_type (trigger rule) with
        | manual => None
        | _ => match truthy (trig_folder (trigger rule)) with
               | Some folderTemplate =>
                   Some (replaceTemplateVariables folderTemplate config None)
               | None => None
               end
        end).
Proof.
  intros Hcfg. unfold extractWatchedFolder, bind.
  destruct (loadConfig w) as [w1 r]. cbn [fst snd] in *. subst r.
  destruct (trig_type (trigger rule)); destruct (truthy (trig_folder (trigger rule)));
    reflexivity.
Qed.

Lemma groupRulesByFolder_from_eq config rules : forall m w,
  settles w config ->
  exists w', groupRulesByFolder_from rules m w = (w', Ok (grouped config rules m))
             /\ (w' = w \/ w' = fst (loadConfig w)).
Proof.
  induction rules as [|rule rules IH]; intros m w Hw.
  - exists w. split; [reflexivity|now left].
  - rewrite grouped_cons. cbn [groupRulesByFolder_from]. unfold groupStep.
    destruct (enabled rule); cbn [negb]; [|now apply IH].
    unfold bind. rewrite (extractWatchedFolder_eq rule w config (proj1 Hw)).
    assert (Hnext : forall m', exists w',
               groupRulesByFolder_from rules m' (fst (loadConfig w))
               = (w', Ok (grouped config rules m'))
               /\ (w' = w \/ w' = fst (loadConfig w))).
    { intros m'. destruct (IH m' _ (settles_next _ _ Hw)) as (w' & -> & Hw').
      exists w'. split; [reflexivity|]. right. destruct Hw' as [->| ->]; [reflexivity|].
      destruct Hw as [_ Hw]. now rewrite Hw. }
    unfold watchedFolder.
    destruct (trig_type (trigger rule)); try apply Hnext;
      destruct (truthy (trig_folder (trigger rule))); try apply Hnext;
      destruct (truthy (Some _)); apply Hnext.
Qed.

(** X22. [groupRulesByFolder], where the configuration is usable: no
    folder comes twice, and a folder comes with a rule list exactly when
    this is the list of the enabled rules that are watched in it, in the
    order of the input, and is not empty.  A rule is watched in the
    folder that its trigger names, with the path variables replaced; a
    disabled rule, a manual trigger and a missing or empty folder are
    left out. *)
Theorem groupRulesByFolder_groups (rules : list Rule) (w : World) :
  configUsable w ->
  exists w' config groups,
    groupRulesByFolder rules w = (w', Ok groups)
    /\ snd (loadConfig w) = Ok config
    /\ NoDup (map fst groups)
    /\ (forall folder rs, In (folder, rs) groups <->
          rs <> [] /\ rs = List.filter (watchedIn config folder) rules).
Proof.
  intros Hu. destruct (loadConfig_twice w Hu) as (config & Hcfg & Hnext & _).
  destruct (groupRulesByFolder_from_eq config rules [] w (conj Hcfg Hnext))
    as (w' & Hrun & _).
  exists w', config, (grouped config rules []).
  split; [exact Hrun|]. split; [exact Hcfg|].
  assert (Hnd : NoDup (map fst (grouped config rules []))).
  { apply grouped_NoDup. constructor. }
  split; [exact Hnd|]. intros folder rs.
  pose proof (grouped_groupOf config rules [] folder) as Hgroup. cbn [app] in Hgroup.
  change (groupOf [] folder) with (@nil Rule) in Hgroup. cbn [app] in Hgroup.
  split.
  - intros Hin. pose proof (groupOf_In _ _ _ Hnd Hin) as E. rewrite Hgroup in E.
    split; [|now symmetry].
    pose proof (grouped_nonempty config rules [] (List.Forall_nil _)) as Hne.
    rewrite List.Forall_forall in Hne. exact (Hne _ Hin).
  - intros [Hne ->]. rewrite <- Hgroup. apply groupOf_nonempty_In. now rewrite Hgroup.
Qed.

End GroupingFacts.

Section SizeFacts.
Context `{Host}.

Lemma Qle_megabytes bytes n :
  (inject_Z (Z.of_N bytes) / inject_Z (1024 * 1024) <= inject_Z n)%Q
  <-> (Z.of_N bytes <= n * megabyte)%Z.
Proof.
  unfold Qle, Qdiv, Qmult, Qinv, inject_Z, megabyte.
  change (1024 * 1024)%Z with 1048576%Z. cbn [Qnum Qden].
  change (Z.pos (1 * 1048576)) with 1048576%Z. lia.
Qed.

Lemma sizeMBGreaterThan_Z bytes n :
  sizeMBGreaterThan bytes (Finite (inject_Z n))
  = (n * megabyte <? Z.of_N bytes)%Z.
Proof.
  unfold sizeMBGreaterThan.
  destruct (Qle_bool _ _) eqn:E; cbn [negb]; symmetry.
  - apply Qle_bool_iff, Qle_megabytes in E. apply Z.ltb_ge. exact E.
  - apply Z.ltb_lt.
    destruct (Z_lt_le_dec (n * megabyte) (Z.of_N bytes)) as [Hlt|Hle]; [assumption|].
    exfalso. apply Qle_megabytes, Qle_bool_iff in Hle. congruence.
Qed.

Lemma size_threshold_aux (w : World) (c : Condition) (filePath : str) (n : Z) :
  cond_type c = T_size_greater_than_mb ->
  toNumber (Js.toLowerCase (valueToString (cond_value c))) = Finite (inject_Z n) ->
  evaluateCondition w c filePath = largerThan w filePath n.
Proof.
  intros Ht Hn. unfold evaluateCondition, largerThan. rewrite Ht, Hn.
  destruct (Fs.statSync w filePath) as [stats|]; [|reflexivity].
  apply sizeMBGreaterThan_Z.
Qed.

(** X23. The size threshold is strict and counts a megabyte as
    1024 * 1024 bytes: a condition of type size_greater_than_mb whose
    value reads as the whole number n holds exactly when the file system
    has something at the path whose size is more than n * 1048576 bytes;
    a file of exactly that size is not large enough. *)
Theorem size_threshold_is_strict (w : World) (c : Condition) (filePath : str) (n : Z) :
  cond_type c = T_size_greater_than_mb ->
  toNumber (Js.toLowerCase (valueToString (cond_value c))) = Finite (inject_Z n) ->
  evaluateCondition w c filePath = largerThan w filePath n.
Proof. apply size_threshold_aux. Qed.

Lemma extension_is_pdf w filePath :
  evaluateCondition w
    {| cond_type := T_extension; cond_operator := equals; cond_value := VStr "pdf" |}
    filePath
  = Js.str_eqb (Js.toLowerCase (Path.extname filePath)) ".pdf".
Proof.
  unfold evaluateCondition, matchValue.
  cbn [cond_type cond_operator cond_value valueToString].
  destruct (extname_tail filePath) as [->|(t & -> & _)]; [reflexivity|].
  change (Js.toLowerCase ("."%char :: t)) with ("."%char :: Js.toLowerCase t).
  change (Js.startsWith ("."%char :: Js.toLowerCase t) ".") with true.
  cbn [drop]. rewrite drop_0, toLowerCase_idem.
  change (Js.toLowerCase "pdf") with ("pdf" : str).
  apply bool_decide_ext. split; [now intros ->|now intros [= ->]].
Qed.

Lemma name_contains_keyword w (keyword : str) filePath :
  Js.toLowerCase keyword = keyword ->
  evaluateCondition w
    {| cond_type := T_name_contains; cond_operator := equals; cond_value := VStr keyword |}
    filePath
  = Js.includes (Js.toLowerCase (Path.basename2 filePath (Path.extname filePath))) keyword.
Proof.
  intros Hk. unfold evaluateCondition.
  cbn [cond_type cond_value valueToString]. now rewrite Hk.
Qed.

(** X24. The PDF templates of [initWithTemplates].  For a file whose
    extension is not pdf, in whatever letter case, none of the five rules
    applies.  For a PDF file the rules that apply are, in this order:
    the compression rule when the file is larger than 8 megabytes, the
    invoice, bank and notes rules when the name without its extension
    contains that word, and the default rule.  The first of them is the
    one that a watcher with these rules executes. *)
Theorem pdf_templates_cascade (w : World) (isNestedMode : bool)
    (ids : str * str * str * str * str) (filePath : str) :
  numberToString (Finite 8) = ("8" : str) -> toNumber "8" = Finite 8 ->
  map name (fst (findMatchingRules w (pdfTemplateRules isNestedMode ids) filePath))
  = if Js.str_eqb (Js.toLowerCase (Path.extname filePath)) ".pdf"
    then pdfTemplatesFor w filePath
    else [].
Proof.
  intros Hshow Hread. destruct ids as [[[[id1 id2] id3] id4] id5].
  rewrite findMatchingRules_fst, Array_sort_sorted_input.
  2:{ unfold pdfTemplateRules.
      repeat (constructor; [|repeat constructor; unfold descending; cbn; lia]).
      constructor. }
  assert (Hsize : evaluateCondition w
                    {| cond_type := T_size_greater_than_mb; cond_operator := equals;
                       cond_value := VNum (Finite 8) |} filePath
                  = largerThan w filePath 8).
  { apply (size_threshold_aux w _ filePath 8); [reflexivity|].
    cbn [cond_value valueToString]. rewrite Hshow. exact Hread. }
  unfold pdfTemplateRules, matchesFile, evaluateConditions, pdfTemplatesFor.
  cbn [List.filter conditions largePdfCompressionRule invoiceRule bankRule notesRule
       defaultPdfRule forallb].
  rewrite Hsize, !extension_is_pdf, !name_contains_keyword by reflexivity.
  destruct (Js.str_eqb (Js.toLowerCase (Path.extname filePath)) ".pdf");
    cbn [andb]; [|reflexivity].
  rewrite !andb_true_r.
  destruct (largerThan w filePath 8),
    (Js.includes _ "invoice"), (Js.includes _ "bank"), (Js.includes _ "notes");
    reflexivity.
Qed.

End SizeFacts.

(** * Instances on the concrete host *)




(** C3 at work: a.pdf and a-1.pdf exist, so the second candidate is
    taken. *)
Lemma resolveCollision_first_free_witness :
  Fs.exists_ Demo.twoReports "a.pdf" = true
  /\ exists n, (1 <= n)%nat /\
       resolveCollision "a.pdf" false Demo.twoReports
       = (Demo.twoReports, Ok (collisionCandidate "a.pdf" n)) /\
       Fs.exists_ Demo.twoReports (collisionCandidate "a.pdf" n) = false.
Proof.
  split; [reflexivity|].
  destruct (resolveCollision_first_free Demo.twoReports "a.pdf")
    as (_ & _ & Hbusy & _).
  destruct (Hbusy eq_refl) as (n & Hn & Hrun & Hfree & _).
  exists n. repeat split; assumption.
Defined.


(** C6 as stated fails here: without metadata the placeholders stay. *)
Lemma placeholders_stay_without_metadata :
  replaceTemplateVariables "{app}/{domain}" (@DEFAULT_CONFIG Demo.workingTool) None
  = ("{app}/{domain}" : str).
Proof. vm_compute. reflexivity. Qed.

(** C6 at work *)
Lemma replaceTemplateVariables_metadata_witness :
  let config := @DEFAULT_CONFIG Demo.workingTool in
  let ps := [Lit "/home/u/Downloads/"; AppVar; Lit "/"; DomainVar] in
  replaceTemplateVariables "{downloads}/{app}/{domain}" config None = templateText ps
  /\ literalPieces ps
  /\ replaceTemplateVariables "{downloads}/{app}/{domain}" config (Some Demo.chrome)
     = filled (appText Demo.chrome) (domainText Demo.chrome) ps
  /\ filled (appText Demo.chrome) (domainText Demo.chrome) ps
     = ("/home/u/Downloads/Google Chrome/github.com" : str).
Proof.
  cbv zeta.
  assert (Hnone : replaceTemplateVariables "{downloads}/{app}/{domain}"
                    (@DEFAULT_CONFIG Demo.workingTool) None
                  = templateText [Lit "/home/u/Downloads/"; AppVar; Lit "/"; DomainVar])
    by (vm_compute; reflexivity).
  assert (Hps : literalPieces [Lit "/home/u/Downloads/"; AppVar; Lit "/"; DomainVar])
    by (repeat constructor).
  split; [exact Hnone|]. split; [exact Hps|]. split; [|vm_compute; reflexivity].
  apply (proj1 (replaceTemplateVariables_metadata _ _ _ Hnone Hps));
    vm_compute; repeat constructor.
Defined.



(** C8 as stated fails here: the list is in another order after the
    call. *)
Lemma findMatchingRules_sorts_its_argument :
  let rules := [Demo.rule100; Demo.rule500; Demo.rule300] in
  map priority rules = [100; 500; 300]%Z
  /\ map priority
       (snd (@findMatchingRules Demo.workingTool Demo.inbox rules "/in/report.pdf"))
     = [500; 300; 100]%Z.
Proof. vm_compute. split; reflexivity. Qed.

(** C8 at work: a list already in descending order stays as it is. *)
Lemma findMatchingRules_reorders_input_witness :
  let rules := [Demo.rule500; Demo.rule300; Demo.rule100] in
  StronglySorted (descending priority) rules
  /\ snd (@findMatchingRules Demo.workingTool Demo.inbox rules "/in/report.pdf") = rules.
Proof.
  cbv zeta.
  assert (Hs : StronglySorted (descending priority)
                 [Demo.rule500; Demo.rule300; Demo.rule100])
    by (repeat constructor; unfold descending; cbn; lia).
  split; [exact Hs|].
  destruct (@findMatchingRules_reorders_input Demo.workingTool Demo.inbox
              [Demo.rule500; Demo.rule300; Demo.rule100] "/in/report.pdf")
    as (_ & _ & _ & Hiff).
  now apply Hiff.
Defined.

(** C9 at work: no source, no process *)
Lemma compressPdf_outcomes_witness :
  let run := @compressPdf Demo.workingTool "/in/nothing.pdf" "/out/c.pdf" medium
               Demo.inbox in
  Fs.exists_ Demo.inbox "/in/nothing.pdf" = false
  /\ snd run = Err (newError (sourceNotFound "/in/nothing.pdf"))
  /\ spawned (fst run) = spawned Demo.inbox.
Proof.
  cbv zeta. split; [reflexivity|].
  destruct (@compressPdf_outcomes Demo.workingTool "/in/nothing.pdf" "/out/c.pdf"
              medium Demo.inbox) as (Hmissing & _).
  now apply Hmissing.
Defined.



(** X3 at work: a pattern with a parenthesis is rejected by the host of
    the examples. *)
Lemma evaluation_errors_are_false_witness :
  @evaluateCondition Demo.workingTool Demo.inbox
     (Demo.condition T_name_pattern matches "(report") "/in/(report.pdf" = false.
Proof.
  destruct (@evaluation_errors_are_false Demo.workingTool Demo.inbox
              (Demo.condition T_name_pattern matches "(report") "/in/(report.pdf")
    as (Hrejected & _).
  apply Hrejected; reflexivity.
Defined.

(** ** Instances of the further properties *)

(** X6 at work: the value .pdf against report.pdf, and the value pdf *)
Lemma extension_value_with_dot_witness :
  @dottedValue Demo.workingTool (Demo.condition T_extension equals ".pdf")
  /\ @evaluateCondition Demo.workingTool Demo.inbox
       (Demo.condition T_extension equals ".pdf") "/in/report.pdf" = false
  /\ @evaluateCondition Demo.workingTool Demo.inbox
       (Demo.condition T_extension equals "pdf") "/in/report.pdf" = true.
Proof.
  assert (Hd : @dottedValue Demo.workingTool (Demo.condition T_extension equals ".pdf"))
    by (now left).
  split; [exact Hd|]. split; [|reflexivity].
  apply (@extension_value_with_dot Demo.workingTool Demo.inbox _ "/in/report.pdf");
    [reflexivity|exact Hd].
Defined.



(** X9 at work: the report is moved, with its hundred bytes. *)
Lemma executeAction_relocates_witness :
  let run := @executeAction Demo.workingTool (Demo.simpleAction move "/out" None)
               "/in/report.pdf" false None Demo.feb1 Demo.inbox in
  entries Demo.inbox !! ("/in/report.pdf" : str) = Some (Demo.file 100)
  /\ res_status (snd run) = success
  /\ exists d, res_destinationPath (snd run) = Some d
       /\ entries (fst run) !! ("/in/report.pdf" : str) = None
       /\ entries (fst run) !! d = Some (Demo.file 100).
Proof.
  cbv zeta.
  assert (Hp : entries Demo.inbox !! ("/in/report.pdf" : str) = Some (Demo.file 100))
    by reflexivity.
  assert (Hs : res_status
                 (snd (@executeAction Demo.workingTool (Demo.simpleAction move "/out" None)
                         "/in/report.pdf" false None Demo.feb1 Demo.inbox)) = success)
    by (vm_compute; reflexivity).
  split; [exact Hp|]. split; [exact Hs|].
  destruct (@executeAction_relocates Demo.workingTool (Demo.simpleAction move "/out" None)
              "/in/report.pdf" None Demo.feb1 Demo.inbox (Demo.file 100) Hp)
    as (d & Hd & _ & Hsrc & Hdst); [discriminate|exact Hs|].
  exists d. split; [exact Hd|]. split; [exact Hsrc|exact Hdst].
Defined.

(** X11 at work: three placeholders of the table and one that is not *)
Lemma expandPattern_placeholders_witness :
  let segs := [Placeholder "filename"; Plain "_"; Placeholder "YYYY"; Plain "-";
               Placeholder "MM"; Placeholder "none"] in
  wellFormed segs
  /\ segmentsText segs = ("{filename}_{YYYY}-{MM}{none}" : str)
  /\ expandPattern (segmentsText segs) "/in/report.pdf" Demo.feb1
     = expanded (patternValue "/in/report.pdf" Demo.feb1) segs
  /\ expanded (patternValue "/in/report.pdf" Demo.feb1) segs
     = ("report_2026-02{none}" : str).
Proof.
  cbv zeta.
  assert (Hsegs : wellFormed [Placeholder "filename"; Plain "_"; Placeholder "YYYY";
                              Plain "-"; Placeholder "MM"; Placeholder "none"]).
  { unfold wellFormed, noBrace, braceFree. repeat constructor. }
  split; [exact Hsegs|]. split; [reflexivity|]. split; [|reflexivity].
  apply expandPattern_placeholders; [exact Hsegs| |];
    unfold noBrace, noDollar; vm_compute; repeat constructor.
Defined.

(** X12 at work: a move to the directory /out *)
Lemma plannedDestination_without_pattern_witness :
  let action := Demo.simpleAction move "/out" None in
  let config := @DEFAULT_CONFIG Demo.workingTool in
  let planned := plannedDestination action "/in/report.pdf" config
                   None Demo.feb1 in
  truthy (pattern (act_config action)) = None
  /\ Path.extname (expandedDestination action "/in/report.pdf" config None)
     = []
  /\ plainName (Path.basename "/in/report.pdf")
  /\ planned = ("/out/report.pdf" : str)
  /\ Path.basename planned = Path.basename "/in/report.pdf"
  /\ Path.basename (collisionCandidate planned 2) = ("report-2.pdf" : str).
Proof.
  cbv zeta.
  assert (Hname : plainName (Path.basename "/in/report.pdf")).
  { split; [discriminate|]. split; [vm_compute; repeat constructor|].
    split; discriminate. }
  destruct (plannedDestination_without_pattern
              (Demo.simpleAction move "/out" None) "/in/report.pdf"
              (@DEFAULT_CONFIG Demo.workingTool) None Demo.feb1 eq_refl) as [_ Hdir].
  destruct (Hdir eq_refl Hname) as (_ & Hbase & Hcand).
  split; [reflexivity|]. split; [reflexivity|]. split; [exact Hname|].
  split; [reflexivity|]. split; [exact Hbase|].
  rewrite Hcand. reflexivity.
Defined.

(** X13 at work: the first load writes the defaults, the second reads
    them. *)
Lemma loadConfig_twice_witness :
  @configUsable Demo.inbox
  /\ exists config,
       snd (@loadConfig Demo.workingTool Demo.inbox) = Ok config
       /\ @loadConfig Demo.workingTool (fst (@loadConfig Demo.workingTool Demo.inbox))
          = (fst (@loadConfig Demo.workingTool Demo.inbox), Ok config)
       /\ lookupKey "downloads" (paths config) = Some ("/home/u/Downloads" : str).
Proof.
  assert (Hu : @configUsable Demo.inbox) by (split; reflexivity).
  split; [exact Hu|].
  destruct (@loadConfig_twice Demo.workingTool Demo.inbox Hu)
    as (config & Hcfg & Hagain & _).
  exists config. split; [exact Hcfg|]. split; [exact Hagain|].
  assert (E : Ok config = Ok (@DEFAULT_CONFIG Demo.workingTool))
    by (rewrite <- Hcfg; vm_compute; reflexivity).
  injection E as ->. reflexivity.
Defined.

(** X14 at work: a configuration with one path of its own *)
Lemma saveConfig_then_loadConfig_witness :
  let config := {| paths := [("inbox" : str, "/in" : str)]; downloadsMode := "system";
                   screenshotMode := "by-date"; version := "2" |} in
  @configUsable Demo.inbox
  /\ exists w' loaded,
       @saveConfig Demo.workingTool config Demo.inbox = (w', Ok tt)
       /\ @loadConfig Demo.workingTool w' = (w', Ok loaded)
       /\ lookupKey "inbox" (paths loaded) = Some ("/in" : str)
       /\ lookupKey "home" (paths loaded) = Some ("/home/u" : str)
       /\ downloadsMode loaded = ("system" : str).
Proof.
  cbv zeta.
  assert (Hu : @configUsable Demo.inbox) by (split; reflexivity).
  split; [exact Hu|].
  destruct (@saveConfig_then_loadConfig Demo.workingTool
              {| paths := [("inbox" : str, "/in" : str)]; downloadsMode := "system";
                 screenshotMode := "by-date"; version := "2" |} Demo.inbox Hu)
    as (w' & loaded & Hsave & Hload & Hpaths & Hmode & _).
  exists w', loaded. split; [exact Hsave|]. split; [exact Hload|].
  split; [now rewrite Hpaths|]. split; [now rewrite Hpaths|exact Hmode].
Defined.

(** X15 at work: the mode is set under the spelling with a dash, and
    read under the other one only. *)
Lemma setConfigValue_then_getConfigValue_witness :
  @configUsable Demo.inbox
  /\ exists w',
       @setConfigValue Demo.workingTool "downloads-mode" "system" Demo.inbox = (w', Ok tt)
       /\ snd (@getConfigValue Demo.workingTool "downloadsMode" w') = Ok (Text "system")
       /\ snd (@getConfigValue Demo.workingTool "downloads-mode" w') = Ok Undefined.
Proof.
  assert (Hu : @configUsable Demo.inbox) by (split; reflexivity).
  split; [exact Hu|].
  destruct (@setConfigValue_then_getConfigValue Demo.workingTool
              "downloads-mode" "system" Demo.inbox Hu) as (w' & Hset & Hget & Hother);
    [discriminate|].
  exists w'. split; [exact Hset|]. split; [exact Hget|].
  rewrite Hother by discriminate. vm_compute. reflexivity.
Defined.

(** X16 at work: the first rule of a new store *)
Lemma saveRule_then_getRules_witness :
  @rulesUsable Samples.emptyStore
  /\ exists s' rules',
       @saveRule Samples.serializer Samples.moveRule Samples.emptyStore
       = (s', Ok tt)
       /\ @getRules s' = (s', Ok rules')
       /\ recordById id "rule-1" rules' = Some Samples.moveRule
       /\ map id rules' = [("rule-1" : str)].
Proof.
  assert (Hu : @rulesUsable Samples.emptyStore) by (split; reflexivity).
  split; [exact Hu|].
  destruct (@saveRule_then_getRules Samples.serializer Samples.moveRule
              Samples.emptyStore [] Hu eq_refl)
    as (s' & rules' & Hsave & Hget & _ & Hfind & Hids & _).
  exists s', rules'. split; [exact Hsave|]. split; [exact Hget|].
  split; [|exact Hids].
  apply Hfind. repeat constructor.
Defined.

(** X18 at work: the run of a rule that moves the report *)
Lemma executeRule_records_witness :
  @runsUsable Samples.emptyStore
  /\ @recordsRun Demo.workingTool Samples.serializer Samples.moveRule "/in/report.pdf" false
       None Samples.draw Samples.emptyStore
       (@executeRule Demo.workingTool Samples.serializer false Samples.moveRule
          "/in/report.pdf" Samples.draw Samples.emptyStore).
Proof.
  assert (Hu : @runsUsable Samples.emptyStore) by (split; reflexivity).
  split; [exact Hu|].
  apply (@executeRule_records Demo.workingTool Samples.serializer false Samples.moveRule
           "/in/report.pdf" Samples.draw Samples.emptyStore [] Hu eq_refl).
  intros _. split; discriminate.
Defined.


(** X21 at work: one rule of each kind *)
Lemma onAdd_screenshot_listener_witness :
  let first := @handleFileEvent Demo.workingTool Samples.serializer false "/in/report.pdf"
                 [Samples.moveRule] "file_created" Samples.draw Samples.freshWatcher in
  [Samples.moveRule] <> []
  /\ @onAdd Demo.workingTool Samples.serializer false [Samples.moveRule] [Demo.pdfRule]
       "/in/report.pdf" Samples.draw Samples.draw Samples.freshWatcher
     = (fst (fst first), snd (fst first), [Demo.pdfRule]).
Proof.
  cbv zeta. split; [discriminate|].
  apply (@onAdd_screenshot_listener Demo.workingTool Samples.serializer). discriminate.
Defined.

(** X22 at work: two rules of the downloads folder, one of them
    disabled *)
Lemma groupRulesByFolder_groups_witness :
  let disabled := {| id := "rule-2"; name := "off"; enabled := false; priority := 1;
                     tags := []; trigger := trigger Samples.moveRule; conditions := [];
                     actions := [] |} in
  @configUsable Demo.inbox
  /\ exists w' groups,
       @groupRulesByFolder Demo.workingTool [disabled; Samples.moveRule] Demo.inbox
       = (w', Ok groups)
       /\ NoDup (map fst groups)
       /\ In ("/home/u/Downloads" : str, [Samples.moveRule]) groups.
Proof.
  cbv zeta.
  assert (Hu : @configUsable Demo.inbox) by (split; reflexivity).
  split; [exact Hu|].
  destruct (@groupRulesByFolder_groups Demo.workingTool
              [{| id := "rule-2"; name := "off"; enabled := false; priority := 1;
                  tags := []; trigger := trigger Samples.moveRule; conditions := [];
                  actions := [] |}; Samples.moveRule] Demo.inbox Hu)
    as (w' & config & groups & Hrun & Hcfg & Hnd & Hgroups).
  exists w', groups. split; [exact Hrun|]. split; [exact Hnd|].
  apply Hgroups.
  assert (E : Ok config = Ok (@DEFAULT_CONFIG Demo.workingTool))
    by (rewrite <- Hcfg; vm_compute; reflexivity).
  injection E as ->. split; [discriminate|]. vm_compute. reflexivity.
Defined.

(** X23 at work: a threshold of one megabyte, a file of that size and a
    file of one byte more *)
Lemma size_threshold_is_strict_witness :
  let c := Demo.condition T_size_greater_than_mb equals "1" in
  @toNumber Demo.workingTool (Js.toLowerCase (@valueToString Demo.workingTool (cond_value c)))
  = Finite (inject_Z 1)
  /\ @evaluateCondition Demo.workingTool Samples.sized c "/in/exact.bin" = false
  /\ @evaluateCondition Demo.workingTool Samples.sized c "/in/more.bin" = true.
Proof.
  cbv zeta. split; [reflexivity|]. split.
  - rewrite (@size_threshold_is_strict Demo.workingTool Samples.sized
               (Demo.condition T_size_greater_than_mb equals "1") "/in/exact.bin" 1
               eq_refl eq_refl).
    reflexivity.
  - rewrite (@size_threshold_is_strict Demo.workingTool Samples.sized
               (Demo.condition T_size_greater_than_mb equals "1") "/in/more.bin" 1
               eq_refl eq_refl).
    reflexivity.
Defined.

(** X24 at work: a small invoice, with its name in capitals *)
Lemma pdf_templates_cascade_witness :
  @numberToString Demo.workingTool (Finite 8) = ("8" : str)
  /\ @toNumber Demo.workingTool "8" = Finite 8
  /\ map name (fst (@findMatchingRules Demo.workingTool Demo.inbox
                      (pdfTemplateRules true Samples.templateIds) "/in/INVOICE_March.PDF"))
     = [("PDF Invoice Organizer" : str); ("PDF Default Organizer" : str)].
Proof.
  split; [reflexivity|]. split; [reflexivity|].
  rewrite (@pdf_templates_cascade Demo.workingTool Demo.inbox true Samples.templateIds
             "/in/INVOICE_March.PDF" eq_refl eq_refl).
  reflexivity.
Defined.
